(** * Verification of the spritejs renderer for matter-js worlds

    A shallow embedding of [src/render.js] (the [Render] module of
    sprite-extend-matter): the viewport fit ([Render.lookAt]), the node
    cache of the main pass ([Render.bodies], [Render.bodyWireframes]), the
    constraint renderer ([Render.constraints]) and the frame protocol
    ([Render.create], [Render.world] and its deferred overlay callback).

    JavaScript numbers are IEEE 754 binary64 values; they are embedded as
    Rocq's primitive floats, so every arithmetic step below rounds exactly
    as the program does. *)

From Stdlib Require Import Floats ZArith Lia.
From Stdlib Require Uint63.
From stdpp Require Import base option list gmap strings.

Set Warnings "-inexact-float,-register-all".
Set Default Proof Using "Type".

(** ** JavaScript numbers *)

Module JSNum.

Local Open Scope float_scope.

(** [ToBoolean] on a number: everything but [0], [-0] and [NaN]. *)
Definition truthy (x : float) : bool :=
  negb (PrimFloat.is_zero x || PrimFloat.is_nan x).

(** [Math.PI], the double nearest to pi. *)
Definition PI : float := 0x1.921fb54442d18p+1.

(** The integer [n] as a double, for [|n| < 2^63]; [neg] selects [-0]
    when [n] is zero. *)
Definition of_Z (neg : bool) (n : Z) : float :=
  if (n <? 0)%Z then - of_uint63 (Uint63.of_Z (- n))
  else if (n =? 0)%Z then (if neg then neg_zero else zero)
  else of_uint63 (Uint63.of_Z n).

Definition of_nat (n : nat) : float := of_Z false (Z.of_nat n).

(** The signed mantissa of a finite double. *)
Definition signed (s : bool) (m : positive) : Z :=
  if s then Z.neg m else Z.pos m.

(** [Math.round]: nearest integer, ties towards [+Infinity]. A double
    with a non-negative exponent is an integer already; otherwise the
    value is [signed s m / 2^k] with [k = -e] and the result is
    [floor (x + 1/2)], computed exactly on integers. *)
Definition Math_round (x : float) : float :=
  match Prim2SF x with
  | S754_finite s m e =>
      if (0 <=? e)%Z then x
      else
        let k := (- e)%Z in
        of_Z s ((2 * signed s m + 2 ^ k) / 2 ^ (k + 1))
  | _ => x
  end.

(** [Math.ceil]: least integer not below [x]. *)
Definition Math_ceil (x : float) : float :=
  match Prim2SF x with
  | S754_finite s m e =>
      if (0 <=? e)%Z then x
      else
        let k := (- e)%Z in
        of_Z s (- ((- signed s m) / 2 ^ k))
  | _ => x
  end.

(** [Common.clamp] of matter-js:
    [if (value < min) return min; if (value > max) return max; return value]. *)
Definition clamp (value lo hi : float) : float :=
  if value <? lo then lo
  else if hi <? value then hi
  else value.

End JSNum.

(** ** Faults

    A JavaScript exception aborts the running function and every caller
    up to the nearest handler; [render.js] has no [try] block, so a fault
    propagates to whoever called the renderer. *)

Inductive Error : Type :=
  | TypeError (what : string)    (* property read on [undefined] *)
  | RangeError (what : string)   (* the call stack overflowed *)
  | OutOfFuel.                   (* the embedding's loop bound was hit *)

Inductive Exc (A : Type) : Type :=
  | Ok (a : A)
  | Throw (e : Error).

Arguments Ok {A} a.
Arguments Throw {A} e.

#[global] Instance exc_ret : MRet Exc := fun A a => Ok a.

#[global] Instance exc_bind : MBind Exc := fun A B k m =>
  match m with
  | Ok a => k a
  | Throw e => Throw e
  end.

Definition is_ok {A : Type} (m : Exc A) : bool :=
  match m with Ok _ => true | Throw _ => false end.

(** A stateful step: the state it leaves and the fault that stopped it,
    if any. Mutations made before a fault persist. *)
Definition Res (S : Type) : Type := (S * option Error)%type.

Definition done {S : Type} (s : S) : Res S := (s, None).
Definition fault {S : Type} (e : Error) (s : S) : Res S := (s, Some e).

(** sequencing of statements: the second runs only if the first returned *)
Definition and_then {S : Type} (m : Res S) (k : S -> Res S) : Res S :=
  match m with
  | (s, None) => k s
  | (s, Some e) => (s, Some e)
  end.

(** a block of statements, run in order *)
Fixpoint block {S : Type} (stmts : list (S -> Res S)) (s : S) : Res S :=
  match stmts with
  | [] => done s
  | stmt :: stmts => and_then (stmt s) (block stmts)
  end.

(** [if (c) stmt] *)
Definition when {S : Type} (c : bool) (m : S -> Res S) (s : S) : Res S :=
  if c then m s else done s.

Definition returned {S : Type} (m : Res S) : bool :=
  match m.2 with None => true | Some _ => false end.

(** ** Vectors and bounds (matter-js [Vector], [Bounds]) *)

Record Vec : Type := mkVec { vx : float; vy : float }.

Record Bounds : Type := mkBounds { bmin : Vec; bmax : Vec }.

Module Vector.
Local Open Scope float_scope.

Definition add (a b : Vec) : Vec := mkVec (vx a + vx b) (vy a + vy b).
Definition sub (a b : Vec) : Vec := mkVec (vx a - vx b) (vy a - vy b).
Definition magnitude (v : Vec) : float :=
  sqrt (vx v * vx v + vy v * vy v).
Definition normalise (v : Vec) : Vec :=
  let m := magnitude v in
  if m =? 0 then mkVec 0 0 else mkVec (vx v / m) (vy v / m).
(** [Vector.perp(v)], [negate] being [1]: [{x: negate * -v.y, y: negate * v.x}]. *)
Definition perp (v : Vec) : Vec := mkVec (1 * - vy v) (1 * vx v).
End Vector.

Module BoundsOps.
Local Open Scope float_scope.

Definition overlaps (a b : Bounds) : bool :=
  (vx (bmin a) <=? vx (bmax b)) && (vx (bmin b) <=? vx (bmax a))
  && (vy (bmin b) <=? vy (bmax a)) && (vy (bmin a) <=? vy (bmax b)).

Definition contains (b : Bounds) (p : Vec) : bool :=
  (vx (bmin b) <=? vx p) && (vx p <=? vx (bmax b))
  && (vy (bmin b) <=? vy p) && (vy p <=? vy (bmax b)).
End BoundsOps.

(** ** The drawing surface (sprite-core nodes and the 2d context)

    A node's attribute bag: the three attributes the renderer reads or
    updates every frame are typed fields ([None]: never set), every other
    attribute lives in [a_rest]. *)

Inductive Val : Type :=
  | VNum (f : float)
  | VStr (s : string)
  | VBool (b : bool)
  | VArr (l : list Val)
  | VObj (l : list (string * Val))
  (** the path string [M x0,y0 L x1,y1 ... z], kept as its coordinates *)
  | VPathData (start : float * float) (lines : list (float * float)).

Definition val_truthy (v : Val) : bool :=
  match v with
  | VNum f => JSNum.truthy f
  | VStr s => negb (String.eqb s "")
  | VBool b => b
  | _ => true
  end.

Record Attrs : Type := mkAttrs {
  a_pos : option (float * float);
  a_rotate : option float;
  a_opacity : option float;
  a_rest : gmap string Val
}.

Definition no_attrs : Attrs := mkAttrs None None None ∅.

(** [s.attr(obj)]: every key of [obj] overwrites the node's value. *)
Definition attr_merge (obj s : Attrs) : Attrs :=
  {| a_pos := match a_pos obj with Some p => Some p | None => a_pos s end;
     a_rotate := match a_rotate obj with Some p => Some p | None => a_rotate s end;
     a_opacity := match a_opacity obj with Some p => Some p | None => a_opacity s end;
     a_rest := a_rest obj ∪ a_rest s |}.

Inductive NodeKind : Type := KSprite | KPath.

Record Node : Type := mkNode { n_kind : NodeKind; n_attrs : Attrs }.

Definition node_attr (obj : Attrs) (s : Node) : Node :=
  mkNode (n_kind s) (attr_merge obj (n_attrs s)).

(** sprite-core's default for an opacity that was never set. *)
Definition default_opacity : float := 1%float.

(** [s.attr('opacity')]. *)
Definition node_opacity (s : Node) : float :=
  default default_opacity (a_opacity (n_attrs s)).

(** Calls on the canvas 2d context, logged in program order. *)
Inductive CanvasOp : Type :=
  | BeginPath
  | ClosePath
  | MoveTo (x y : float)
  | LineTo (x y : float)
  | Arc (x y r a0 a1 : float)
  | Stroke
  | Fill
  | SetLineWidth (w : float)
  | SetStrokeStyle (c : string)
  | SetFillStyle (c : string)
  (** the text is kept as the numbers interpolated into it *)
  | FillText (text : list float) (x y : float)
  | Scale (x y : float)
  | Translate (x y : float)
  | SetTransform (a b c d e f : float).

Abbreviation Ctx := (list CanvasOp).

Record Canvas : Type := mkCanvas {
  cv_width : float;
  cv_height : float;
  cv_background : option string;
  cv_backgroundSize : option string
}.

(** ** The physics world (matter-js bodies and constraints) *)

Record Vertex : Type := mkVertex { v_x : float; v_y : float; isInternal : bool }.

Record SpriteDesc : Type := mkSpriteDesc {
  texture : option string;
  sp_attrs : option Attrs;
  xOffset : float;
  yOffset : float;
  xScale : float;
  yScale : float
}.

Record PartRender : Type := mkPartRender {
  visible : bool;
  sprite : option SpriteDesc;
  fillStyle : string
}.

(** A part. [spriteNode] and [fullOpacity] are the two properties the
    renderer adds to the physics object: the cached node (a reference into
    the layer) and the opacity remembered by the sleeping fade. *)
Record Part : Type := mkPart {
  p_id : nat;
  position : Vec;
  positionPrev : Vec;
  angle : float;
  p_bounds : Bounds;
  p_render : PartRender;
  circleRadius : float;
  vertices : list Vertex;
  isSleeping : bool;
  isStatic : bool;
  spriteNode : option nat;
  fullOpacity : option float
}.

(** A body is its own first part: [body.parts[0] === body]. *)
Record Body : Type := mkBody { self : Part; others : list Part }.

Definition parts (b : Body) : list Part := self b :: others b.

Record ConstraintRender : Type := mkConstraintRender {
  cr_visible : bool;
  cr_type : string;
  cr_lineWidth : float;
  cr_strokeStyle : string;
  cr_anchors : bool
}.

(** [pointA]/[pointB] may be [undefined]; [bodyA]/[bodyB] refer to bodies
    of the world by id. *)
Record Constraint : Type := mkConstraint {
  c_render : ConstraintRender;
  pointA : option Vec;
  pointB : option Vec;
  bodyA : option nat;
  bodyB : option nat;
  c_length : float
}.


(** Contact pairs, the broadphase grid and the metrics are read by the
    diagnostic overlays only. *)
Record Collision : Type := mkCollision {
  col_bodyA : nat;
  col_bodyB : nat;
  col_support0 : option nat;
  col_normal : Vec;
  col_penetration : Vec
}.

Record Pair : Type := mkPair {
  pr_isActive : bool;
  pr_activeContacts : list Vec;
  pr_collision : Collision
}.

Record Broadphase : Type := mkBroadphase {
  controller_is_Grid : bool;
  buckets : list (string * nat);
  bucketWidth : float;
  bucketHeight : float
}.

Record Metrics : Type := mkMetrics {
  mt_fps : option float;
  mt_extended : bool;
  mt_collisions : float
}.

(** The engine: the object store of the world (bodies and constraints by
    id, as JavaScript objects are shared by reference), the lists
    [Composite.allBodies(world)] and [Composite.allConstraints(world)],
    and the simulation data. *)
Record Engine : Type := mkEngine {
  e_bodies : gmap nat Body;
  e_constraints : gmap nat Constraint;
  allBodies : list nat;
  allConstraints : list nat;
  timestamp : float;
  e_pairs : list Pair;
  e_broadphase : Broadphase;
  e_metrics : Metrics
}.

(** ** The renderer's state *)

(** [render.options] is a flat object of named settings: a map from
    names to values. A missing name reads as [undefined]. *)
Abbreviation Options := (gmap string Val).

(** an option read as a condition *)
Definition flag (o : Options) (name : string) : bool :=
  from_option val_truthy false (o !! name).

(** an option read as a number ([undefined] converts to [NaN]) *)
Definition opt_num (o : Options) (name : string) : float :=
  match o !! name with
  | Some (VNum f) => f
  | _ => nan
  end.

(** an option read as a string *)
Definition opt_str (o : Options) (name : string) : option string :=
  match o !! name with
  | Some (VStr s) => Some s
  | _ => None
  end.

Record Mouse : Type := mkMouse {
  m_position : Vec;
  m_absolute : Vec;
  m_scale : Vec;
  m_offset : Vec
}.

(** The closure [extraDraw] created by one call of [Render.world]: its
    identity (two closures are never [===]) and the values it captures by
    value, the frame's [bodies] and [constraints] arrays and its [event].
    [render], [options], [engine], [layer] and [context] are captured by
    reference and read from the state when the closure runs. *)
Record Handler : Type := mkHandler {
  h_token : nat;
  h_bodies : list nat;
  h_constraints : list nat;
  h_timestamp : float
}.

(** The layer: its canvas, its child nodes (a node is referred to by its
    index; nodes are only ever appended) and the handlers registered for
    its ['update'] signal. *)
Record Layer : Type := mkLayer {
  l_canvas : Canvas;
  l_nodes : list Node;
  l_update : list Handler
}.

Inductive Event : Type :=
  | BeforeRender (ts : float)
  | AfterRender (ts : float).

Record DebugState : Type := mkDebugState {
  debugString : option string;
  debugTimestamp : option float
}.

Record Render : Type := mkRender {
  engine : option Engine;
  layer : Layer;
  mouse : option Mouse;
  context : Ctx;
  options : Options;
  bounds : Bounds;
  extraDraw : option Handler;
  currentBackground : option string;
  debugState : DebugState;
  (** log of [Events.trigger(render, ...)] *)
  events : list Event;
  (** identity of the next closure *)
  next_token : nat
}.

Definition canvas (r : Render) : Canvas := l_canvas (layer r).

Definition set_bounds (b : Bounds) (r : Render) : Render :=
  mkRender (engine r) (layer r) (mouse r) (context r) (options r) b
    (extraDraw r) (currentBackground r) (debugState r) (events r) (next_token r).
Definition set_options (o : Options) (r : Render) : Render :=
  mkRender (engine r) (layer r) (mouse r) (context r) o (bounds r)
    (extraDraw r) (currentBackground r) (debugState r) (events r) (next_token r).
Definition set_mouse (m : option Mouse) (r : Render) : Render :=
  mkRender (engine r) (layer r) m (context r) (options r) (bounds r)
    (extraDraw r) (currentBackground r) (debugState r) (events r) (next_token r).
Definition set_context (c : Ctx) (r : Render) : Render :=
  mkRender (engine r) (layer r) (mouse r) c (options r) (bounds r)
    (extraDraw r) (currentBackground r) (debugState r) (events r) (next_token r).
Definition set_engine (e : option Engine) (r : Render) : Render :=
  mkRender e (layer r) (mouse r) (context r) (options r) (bounds r)
    (extraDraw r) (currentBackground r) (debugState r) (events r) (next_token r).
Definition set_layer (l : Layer) (r : Render) : Render :=
  mkRender (engine r) l (mouse r) (context r) (options r) (bounds r)
    (extraDraw r) (currentBackground r) (debugState r) (events r) (next_token r).
Definition set_extraDraw (h : option Handler) (r : Render) : Render :=
  mkRender (engine r) (layer r) (mouse r) (context r) (options r) (bounds r)
    h (currentBackground r) (debugState r) (events r) (next_token r).
Definition set_currentBackground (b : option string) (r : Render) : Render :=
  mkRender (engine r) (layer r) (mouse r) (context r) (options r) (bounds r)
    (extraDraw r) b (debugState r) (events r) (next_token r).
Definition set_debugState (d : DebugState) (r : Render) : Render :=
  mkRender (engine r) (layer r) (mouse r) (context r) (options r) (bounds r)
    (extraDraw r) (currentBackground r) d (events r) (next_token r).
Definition set_events (ev : list Event) (r : Render) : Render :=
  mkRender (engine r) (layer r) (mouse r) (context r) (options r) (bounds r)
    (extraDraw r) (currentBackground r) (debugState r) ev (next_token r).
Definition set_next_token (n : nat) (r : Render) : Render :=
  mkRender (engine r) (layer r) (mouse r) (context r) (options r) (bounds r)
    (extraDraw r) (currentBackground r) (debugState r) (events r) n.

(** [Mouse.setScale] and [Mouse.setOffset] of matter-js. *)
Module MouseOps.
Local Open Scope float_scope.

Definition reposition (m : Mouse) : Mouse :=
  mkMouse
    (mkVec (vx (m_absolute m) * vx (m_scale m) + vx (m_offset m))
           (vy (m_absolute m) * vy (m_scale m) + vy (m_offset m)))
    (m_absolute m) (m_scale m) (m_offset m).

Definition setScale (m : Mouse) (scale : Vec) : Mouse :=
  reposition (mkMouse (m_position m) (m_absolute m) scale (m_offset m)).

Definition setOffset (m : Mouse) (offset : Vec) : Mouse :=
  reposition (mkMouse (m_position m) (m_absolute m) (m_scale m) offset).
End MouseOps.

(** ** [Render.lookAt]: fitting the viewport to objects *)

(** The duck-typed objects [lookAt] accepts: any of [bounds], [min],
    [max], [position], [x], [y] may be missing ([None] is [undefined]). *)
Record Point : Type := mkPoint { px : option float; py : option float }.

Record LookBounds : Type := mkLookBounds { lb_min : option Point; lb_max : option Point }.

Record LookObject : Type := mkLookObject {
  lo_bounds : option LookBounds;
  lo_min : option Point;
  lo_max : option Point;
  lo_position : option Point;
  lo_x : option float;
  lo_y : option float
}.

Module LookAt.
Local Open Scope float_scope.

(** [a < b] where [a] may be [undefined] ([undefined < b] is false). *)
Definition lt_js (a : option float) (b : float) : bool :=
  match a with Some a => a <? b | None => false end.
Definition gt_js (a : option float) (b : float) : bool :=
  match a with Some a => b <? a | None => false end.

(** the object read as a point: its own [x] and [y] *)
Definition as_point (o : LookObject) : Point := mkPoint (lo_x o) (lo_y o).

(** [a || b] on objects *)
Definition or_else (a : option Point) (b : Point) : Point :=
  match a with Some p => p | None => b end.

Definition obj_min (o : LookObject) : option Point :=
  match lo_bounds o with
  | Some b => lb_min b
  | None => Some (or_else (lo_min o) (or_else (lo_position o) (as_point o)))
  end.

Definition obj_max (o : LookObject) : option Point :=
  match lo_bounds o with
  | Some b => lb_max b
  | None => Some (or_else (lo_max o) (or_else (lo_position o) (as_point o)))
  end.

(** one iteration of the loop over [objects] *)
Definition grow (acc : Bounds) (o : LookObject) : Bounds :=
  match obj_min o, obj_max o with
  | Some mn, Some mx =>
      let minx := if lt_js (px mn) (vx (bmin acc))
                  then default nan (px mn) else vx (bmin acc) in
      let maxx := if gt_js (px mx) (vx (bmax acc))
                  then default nan (px mx) else vx (bmax acc) in
      let miny := if lt_js (py mn) (vy (bmin acc))
                  then default nan (py mn) else vy (bmin acc) in
      let maxy := if gt_js (py mx) (vy (bmax acc))
                  then default nan (py mx) else vy (bmax acc) in
      mkBounds (mkVec minx miny) (mkVec maxx maxy)
  | _, _ => acc
  end.

Definition empty_box : Bounds :=
  mkBounds (mkVec infinity infinity) (mkVec neg_infinity neg_infinity).

Definition union_box (objects : list LookObject) : Bounds :=
  foldl grow empty_box objects.

(** The bounds written to [render.bounds], statement by statement. *)
Definition fit_box (cv : Canvas) (b : Bounds)
    (padding : Vec) (center : bool) : Bounds :=
  let width := (vx (bmax b) - vx (bmin b)) + 2 * vx padding in
  let height := (vy (bmax b) - vy (bmin b)) + 2 * vy padding in
  let viewHeight := cv_height cv in
  let viewWidth := cv_width cv in
  let outerRatio := viewWidth / viewHeight in
  let innerRatio := width / height in
  let scaleX := if outerRatio <? innerRatio then 1 else outerRatio / innerRatio in
  let scaleY := if outerRatio <? innerRatio then innerRatio / outerRatio else 1 in
  (* position and size *)
  let minx := vx (bmin b) in
  let maxx := vx (bmin b) + width * scaleX in
  let miny := vy (bmin b) in
  let maxy := vy (bmin b) + height * scaleY in
  (* center *)
  let minx := if center then minx + (width * 0.5 - (width * scaleX) * 0.5) else minx in
  let maxx := if center then maxx + (width * 0.5 - (width * scaleX) * 0.5) else maxx in
  let miny := if center then miny + (height * 0.5 - (height * scaleY) * 0.5) else miny in
  let maxy := if center then maxy + (height * 0.5 - (height * scaleY) * 0.5) else maxy in
  (* padding *)
  mkBounds (mkVec (minx - vx padding) (miny - vy padding))
           (mkVec (maxx - vx padding) (maxy - vy padding)).

Definition fit (cv : Canvas) (objects : list LookObject)
    (padding : Vec) (center : bool) : Bounds :=
  fit_box cv (union_box objects) padding center.

(** the pointer mapping refreshed from the bounds *)
Definition update_mouse (cv : Canvas) (b : Bounds) (m : Mouse) : Mouse :=
  MouseOps.setOffset
    (MouseOps.setScale m
       (mkVec ((vx (bmax b) - vx (bmin b)) / cv_width cv)
              ((vy (bmax b) - vy (bmin b)) / cv_height cv)))
    (bmin b).

(** [Render.lookAt(render, objects, padding, center)]; [padding] and
    [center] are optional. *)
Definition lookAt (r : Render) (objects : list LookObject)
    (padding : option Vec) (center : option bool) : Render :=
  let center := default true center in
  let padding := default (mkVec 0 0) padding in
  let b := fit (canvas r) objects padding center in
  let r := set_options (<["hasBounds" := VBool true]> (options r)) r in
  let r := set_bounds b r in
  set_mouse (update_mouse (canvas r) b <$> mouse r) r.

End LookAt.


(** ** The main pass: [Render.bodies] and [Render.bodyWireframes] *)

Definition set_cache (n : option nat) (fo : option float) (p : Part) : Part :=
  mkPart (p_id p) (position p) (positionPrev p) (angle p) (p_bounds p)
    (p_render p) (circleRadius p) (vertices p) (isSleeping p) (isStatic p)
    n fo.

Definition set_spriteNode (n : nat) (p : Part) : Part :=
  set_cache (Some n) (fullOpacity p) p.
Definition set_fullOpacity (fo : option float) (p : Part) : Part :=
  set_cache (spriteNode p) fo p.

(** What the main pass reads and writes: the bodies of the world (by id),
    the layer's nodes and the 2d context. *)
Record Scene : Type := mkScene {
  sc_bodies : gmap nat Body;
  sc_nodes : list Node;
  sc_ctx : Ctx
}.

Module MainPass.
Local Open Scope float_scope.

(** [Math.round(v * 10) / 10] *)
Definition round1 (v : float) : float := JSNum.Math_round (v * 10) / 10.

(** [Math.round(180 * angle * 10 / Math.PI) / 10] *)
Definition rotate_of (a : float) : float :=
  JSNum.Math_round (180 * a * 10 / JSNum.PI) / 10.

Definition pos_of (v : Vec) : float * float := (round1 (vx v), round1 (vy v)).

(** the object [{pos, rotate}] *)
Definition pose (p : Part) : Attrs :=
  mkAttrs (Some (pos_of (position p))) (Some (rotate_of (angle p))) None ∅.

(** [part.fullOpacity] read as a condition *)
Definition has_fullOpacity (p : Part) : bool :=
  match fullOpacity p with Some o => JSNum.truthy o | None => false end.

(** [s.attr('opacity')] for the node referred to by [n]; the reference
    of a cached node always points into the layer. *)
Definition opacity_at (nodes : list Node) (n : nat) : float :=
  from_option node_opacity default_opacity (nodes !! n).

Definition set_opacity (o : float) : Attrs := mkAttrs None None (Some o) ∅.

(** The sleeping fade, the last statement of both loops. *)
Definition fade (showSleeping sleeping : bool) (n : nat)
    (p : Part) (nodes : list Node) : Part * list Node :=
  if showSleeping && sleeping then
    if negb (has_fullOpacity p) then
      let opacity := opacity_at nodes n in
      (set_fullOpacity (Some opacity) p,
       alter (node_attr (set_opacity (0.5 * opacity))) n nodes)
    else (p, nodes)
  else if has_fullOpacity p then
    (set_fullOpacity None p,
     alter (node_attr (set_opacity (default 0 (fullOpacity p)))) n nodes)
  else (p, nodes).

(** [part.render.sprite && (sprite.texture ||
     sprite.attrs && sprite.attrs.textures)] *)
Definition has_texture (sp : SpriteDesc) : bool :=
  match texture sp with
  | Some t => negb (String.eqb t "")
  | None => false
  end
  || match sp_attrs sp with
     | Some a => from_option val_truthy false (a_rest a !! "textures")
     | None => false
     end.

Definition is_textured (p : Part) : bool :=
  from_option has_texture false (sprite (p_render p)).

Definition vpair (a b : float) : Val := VArr [VNum a; VNum b].

(** the attributes of a new textured sprite *)
Definition sprite_attrs (sp : SpriteDesc) (p : Part) : Attrs :=
  let base :=
    attr_merge
      (mkAttrs None None None
         (<["anchor" := vpair (xOffset sp) (yOffset sp)]>
            (<["scale" := vpair (xScale sp) (yScale sp)]> ∅)))
      (pose p) in
  match texture sp with
  | Some t =>
      if negb (String.eqb t "")
      then attr_merge (mkAttrs None None None {["textures" := VArr [VStr t]]}) base
      else base
  | None => base
  end.

(** the attributes of a new circle *)
Definition circle_attrs (p : Part) : Attrs :=
  attr_merge
    (mkAttrs None None None
       (<["anchor" := VNum 0.5]>
          (<["size" := vpair (2 * circleRadius p) (2 * circleRadius p)]>
             (<["borderRadius" := VNum (circleRadius p)]>
                (<["bgcolor" := VStr (fillStyle (p_render p))]> ∅)))))
    (pose p).

Definition coords (v : Vertex) : float * float := (v_x v, v_y v).

(** the [path] attribute: [M x0,y0], then [L x,y] for the vertices from
    index 1 on, then [z] *)
Definition path_val (v0 : Vertex) (vs : list Vertex) : Val :=
  VObj [("d", VPathData (coords v0) (coords <$> drop 1 vs)); ("trim", VBool true)].

Definition polygon_attrs (v0 : Vertex) (p : Part) : Attrs :=
  attr_merge
    (mkAttrs None None None
       (<["anchor" := VNum 0.5]>
          (<["path" := path_val v0 (vertices p)]>
             (<["fillColor" := VStr (fillStyle (p_render p))]> ∅))))
    (pose p).

Definition wireframe_attrs (showInternalEdges : bool) (v0 : Vertex) (p : Part) : Attrs :=
  let vs := if showInternalEdges then vertices p
            else filter (fun v => isInternal v = false) (vertices p) in
  attr_merge
    (mkAttrs None None None
       (<["anchor" := VNum 0.5]>
          (<["path" := path_val v0 vs]>
             (<["strokeColor" := VStr "#bbb"]> ∅))))
    (pose p).

(** [s = new Sprite(); s.attr(a); part.spriteNode = s; layer.append(s)] *)
Definition create (k : NodeKind) (a : Attrs) (p : Part) (nodes : list Node)
    : Part * list Node :=
  (set_spriteNode (length nodes) p, nodes ++ [mkNode k a]).

(** [vertices[0]], destructured: a fault when there is no vertex *)
Definition first_vertex (p : Part) : Exc Vertex :=
  match vertices p with
  | v0 :: _ => Ok v0
  | [] => Throw (TypeError "vertices[0]")
  end.

(** The node of the part after the [if (s) ... else ...] chain of
    [Render.bodies]: the cached node updated in place, or a new one. *)
Definition bodies_node (p : Part) (nodes : list Node) : Exc (nat * Part * list Node) :=
  match spriteNode p with
  | Some n => Ok (n, p, alter (node_attr (pose p)) n nodes)
  | None =>
      if is_textured p then
        let '(p', nodes') :=
          create KSprite (from_option (fun sp => sprite_attrs sp p) no_attrs
                            (sprite (p_render p))) p nodes in
        Ok (length nodes, p', nodes')
      else if JSNum.truthy (circleRadius p) then
        let '(p', nodes') := create KSprite (circle_attrs p) p nodes in
        Ok (length nodes, p', nodes')
      else
        v0 ← first_vertex p;
        let '(p', nodes') := create KPath (polygon_attrs v0 p) p nodes in
        Ok (length nodes, p', nodes')
  end.

(** [if (part.render.sprite && part.render.sprite.attrs)
      s.attr(part.render.sprite.attrs)] *)
Definition apply_sprite_attrs (p : Part) (n : nat) (nodes : list Node) : list Node :=
  match sprite (p_render p) with
  | Some sp =>
      match sp_attrs sp with
      | Some a => alter (node_attr a) n nodes
      | None => nodes
      end
  | None => nodes
  end.

(** One iteration of the inner loop of [Render.bodies]. A fault can
    only come from [vertices[0]], before the step has changed anything. *)
Definition bodies_part (opts : Options) (sleeping : bool)
    (p : Part) (nodes : list Node) : Exc (Part * list Node) :=
  if negb (visible (p_render p)) then Ok (p, nodes)
  else
    '(n, p, nodes) ← bodies_node p nodes;
    let nodes := apply_sprite_attrs p n nodes in
    Ok (fade (flag opts "showSleeping") sleeping n p nodes).

(** The node of the part after the [if (s) ... else ...] of
    [Render.bodyWireframes]. *)
Definition wireframes_node (opts : Options) (p : Part) (nodes : list Node)
    : Exc (nat * Part * list Node) :=
  match spriteNode p with
  | Some n => Ok (n, p, alter (node_attr (pose p)) n nodes)
  | None =>
      v0 ← first_vertex p;
      let '(p', nodes') :=
        create KPath (wireframe_attrs (flag opts "showInternalEdges") v0 p) p nodes in
      Ok (length nodes, p', nodes')
  end.

(** One iteration of the inner loop of [Render.bodyWireframes]. *)
Definition wireframes_part (opts : Options) (sleeping : bool)
    (p : Part) (nodes : list Node) : Exc (Part * list Node) :=
  '(n, p, nodes) ← wireframes_node opts p nodes;
  Ok (fade (flag opts "showSleeping") sleeping n p nodes).

(** A loop over parts, threading the layer's nodes; a fault leaves the
    parts already drawn as they are. *)
Fixpoint each_part (step : Part -> list Node -> Exc (Part * list Node))
    (ps : list Part) (nodes : list Node) : Res (list Part * list Node) :=
  match ps with
  | [] => done ([], nodes)
  | p :: ps =>
      match step p nodes with
      | Ok (p', nodes') =>
          let '((ps', nodes''), err) := each_part step ps nodes' in
          ((p' :: ps', nodes''), err)
      | Throw e => fault e (p :: ps, nodes)
      end
  end.

(** [for (k = body.parts.length > 1 ? 1 : 0; k < body.parts.length; k++)]:
    a lone body is drawn itself, a compound body through its other
    parts. *)
Definition each_drawn_part (step : Part -> list Node -> Exc (Part * list Node))
    (b : Body) (nodes : list Node) : Res (Body * list Node) :=
  match others b with
  | [] =>
      let '((ps', nodes'), err) := each_part step [self b] nodes in
      ((mkBody (default (self b) (head ps')) [], nodes'), err)
  | ps =>
      let '((ps', nodes'), err) := each_part step ps nodes in
      ((mkBody (self b) ps', nodes'), err)
  end.

Definition body_step
    (part_step : Options -> bool -> Part -> list Node -> Exc (Part * list Node))
    (opts : Options) (b : Body) (nodes : list Node) : Res (Body * list Node) :=
  if negb (visible (p_render (self b))) then done (b, nodes)
  else each_drawn_part (part_step opts (isSleeping (self b))) b nodes.

(** The outer loop over [bodies], an array of references into the
    world's objects. *)
Fixpoint each_body (step : Body -> list Node -> Res (Body * list Node))
    (refs : list nat) (sc : Scene) : Res Scene :=
  match refs with
  | [] => done sc
  | i :: refs =>
      match sc_bodies sc !! i with
      | Some b =>
          let '((b', nodes), err) := step b (sc_nodes sc) in
          let sc' := mkScene (<[i := b']> (sc_bodies sc)) nodes (sc_ctx sc) in
          match err with
          | None => each_body step refs sc'
          | Some e => fault e sc'
          end
      | None => each_body step refs sc
      end
  end.

Definition begin_path (sc : Scene) : Scene :=
  mkScene (sc_bodies sc) (sc_nodes sc) (sc_ctx sc ++ [BeginPath]).

Definition Render_bodies (opts : Options) (bodies : list nat) (sc : Scene) : Res Scene :=
  each_body (body_step bodies_part opts) bodies sc.

Definition Render_bodyWireframes (opts : Options) (bodies : list nat) (sc : Scene)
    : Res Scene :=
  each_body (body_step wireframes_part opts) bodies (begin_path sc).

(** [Render.bodyConvexHulls]: one outline per compound body, cached on
    the body itself, its path relative to the first hull vertex. *)
Definition hull_attrs (v0 : Vertex) (b : Part) : Attrs :=
  attr_merge
    (mkAttrs None None None
       (<["anchor" := VNum 0.5]>
          (<["path" :=
               VObj [("d", VPathData (0, 0)
                             ((fun v => (v_x v - v_x v0, v_y v - v_y v0))
                                <$> drop 1 (vertices b)));
                     ("trim", VBool true)]]>
             (<["strokeColor" := VStr "rgba(255,255,255,0.2)"]> ∅))))
    (pose b).

Definition hull_step (b : Body) (nodes : list Node) : Res (Body * list Node) :=
  if negb (visible (p_render (self b))) || (length (parts b) =? 1)%nat
  then done (b, nodes)
  else
    match spriteNode (self b) with
    | Some n => done (b, alter (node_attr (pose (self b))) n nodes)
    | None =>
        match first_vertex (self b) with
        | Ok v0 =>
            let '(p', nodes') := create KPath (hull_attrs v0 (self b)) (self b) nodes in
            done (mkBody p' (others b), nodes')
        | Throw e => fault e (b, nodes)
        end
    end.

Definition Render_bodyConvexHulls (bodies : list nat) (sc : Scene) : Res Scene :=
  each_body hull_step bodies (begin_path sc).

End MainPass.

(** ** [Render.constraints] *)

Module Constraints.
Local Open Scope float_scope.

Definition TWO_PI : float := 2 * JSNum.PI.

(** [Math.ceil(Common.clamp(constraint.length / 5, 12, 20))] *)
Definition coils_of (k : Constraint) : float :=
  JSNum.Math_ceil (JSNum.clamp (c_length k / 5) 12 20).

(** the [lineTo] of iteration [j] of the spring loop *)
Definition coil_point (start delta normal : Vec) (coils : float) (j : nat) : CanvasOp :=
  let offset := if Nat.even j then 1 else -1 in
  LineTo (vx start + vx delta * (JSNum.of_nat j / coils) + vx normal * offset * 4)
         (vy start + vy delta * (JSNum.of_nat j / coils) + vy normal * offset * 4).

(** [for (let j = 1; j < coils; j += 1)]. The counter is a small
    integer, kept as a [nat]; the loop is cut off after [fuel] rounds
    with [OutOfFuel], which [coils <= 20] rules out. *)
Fixpoint spring_loop (fuel j : nat) (start delta normal : Vec) (coils : float)
    (c : Ctx) : Res Ctx :=
  if JSNum.of_nat j <? coils then
    match fuel with
    | O => fault OutOfFuel c
    | S fuel =>
        spring_loop fuel (S j) start delta normal coils
          (c ++ [coil_point start delta normal coils j])
    end
  else done c.

Definition spring_fuel : nat := 32.

Definition spring (k : Constraint) (start end_ : Vec) (c : Ctx) : Res Ctx :=
  let delta := Vector.sub end_ start in
  let normal := Vector.perp (Vector.normalise delta) in
  spring_loop spring_fuel 1 start delta normal (coils_of k) c.

(** the body a constraint refers to, if any *)
Definition body_of (bodies : gmap nat Body) (ref : option nat) : option Body :=
  ref ≫= (fun i => bodies !! i).

(** an anchor in world coordinates *)
Definition anchor (bodies : gmap nat Body) (ref : option nat) (pt : Vec) : Vec :=
  match body_of bodies ref with
  | Some b => Vector.add (position (self b)) pt
  | None => pt
  end.

(** The guard at the top of the loop body:
    [!constraint.render.visible || !constraint.pointA || !constraint.pointB]. *)
Definition skipped (k : Constraint) : bool :=
  negb (cr_visible (c_render k))
  || negb (bool_decide (is_Some (pointA k)))
  || negb (bool_decide (is_Some (pointB k))).

(** the path of the constraint; [end] stays [undefined] for a pin *)
Definition trace_path (bodies : gmap nat Body) (k : Constraint) (pA pB : Vec)
    (c : Ctx) : Res Ctx * option Vec :=
  let start := anchor bodies (bodyA k) pA in
  if String.eqb (cr_type (c_render k)) "pin" then
    (done (c ++ [BeginPath; Arc (vx start) (vy start) 3 0 TWO_PI; ClosePath]), None)
  else
    let end_ := anchor bodies (bodyB k) pB in
    let c := c ++ [BeginPath; MoveTo (vx start) (vy start)] in
    let r := if String.eqb (cr_type (c_render k)) "spring"
             then spring k start end_ c else done c in
    (and_then r (fun c => done (c ++ [LineTo (vx end_) (vy end_)])), Some end_).

Definition stroke_line (k : Constraint) (c : Ctx) : Res Ctx :=
  done (c ++ [SetLineWidth (cr_lineWidth (c_render k));
              SetStrokeStyle (cr_strokeStyle (c_render k));
              Stroke]).

(** the anchor markers; [end.x] faults when [end] is [undefined] *)
Definition fill_anchors (k : Constraint) (start : Vec) (end_ : option Vec)
    (c : Ctx) : Res Ctx :=
  let c := c ++ [SetFillStyle (cr_strokeStyle (c_render k)); BeginPath;
                 Arc (vx start) (vy start) 3 0 TWO_PI] in
  match end_ with
  | Some e => done (c ++ [Arc (vx e) (vy e) 3 0 TWO_PI; ClosePath; Fill])
  | None => fault (TypeError "end.x") c
  end.

(** One iteration of the loop of [Render.constraints]. *)
Definition draw (bodies : gmap nat Body) (k : Constraint) (c : Ctx) : Res Ctx :=
  if skipped k then done c
  else
    match pointA k, pointB k with
    | Some pA, Some pB =>
        let '(r, end_) := trace_path bodies k pA pB c in
        block [ fun _ => r;
                when (JSNum.truthy (cr_lineWidth (c_render k))) (stroke_line k);
                when (cr_anchors (c_render k))
                  (fill_anchors k (anchor bodies (bodyA k) pA) end_) ] c
    | _, _ => done c
    end.

Fixpoint Render_constraints (bodies : gmap nat Body) (ks : list Constraint)
    (c : Ctx) : Res Ctx :=
  match ks with
  | [] => done c
  | k :: ks => and_then (draw bodies k c) (Render_constraints bodies ks)
  end.

(** the [lineTo] calls of a log: the segments of the paths drawn *)
Definition is_LineTo (op : CanvasOp) : bool :=
  match op with LineTo _ _ => true | _ => false end.

Definition segments (c : Ctx) : nat := length (filter (fun op => is_LineTo op = true) c).

End Constraints.

(** ** The frame protocol: [Render.create], [Render.world] and the
       deferred overlay callback *)

(** The diagnostic overlays other than [Render.mousePosition] and
    [Render.constraints] matter to the frame protocol only through the
    canvas calls they make and the fault they may raise; they are taken
    as an interface. Each reads the renderer's state and draws on the
    context; [Render.debug] also keeps its throttled text. *)
Record Overlays : Type := mkOverlays {
  bodyBounds : Render -> list nat -> Ctx -> Res Ctx;
  bodyAxes : Render -> list nat -> Ctx -> Res Ctx;
  bodyPositions : Render -> list nat -> Ctx -> Res Ctx;
  bodyVelocity : Render -> list nat -> Ctx -> Res Ctx;
  bodyIds : Render -> list nat -> Ctx -> Res Ctx;
  separations : Render -> list Pair -> Ctx -> Res Ctx;
  collisions : Render -> list Pair -> Ctx -> Res Ctx;
  vertexNumbers : Render -> list nat -> Ctx -> Res Ctx;
  grid : Render -> Broadphase -> Ctx -> Res Ctx;
  debug : Render -> DebugState * Ctx -> Res (DebugState * Ctx)
}.

(** What [Render.create] is given. *)
Record CreateOptions : Type := mkCreateOptions {
  co_engine : option Engine;
  co_layer : option Layer;
  co_mouse : option Mouse;
  co_bounds : option Bounds;
  co_options : Options
}.

Module Frame.
Local Open Scope float_scope.

(** the [options] defaults of [Render.create] *)
Definition default_options (has_bounds : bool) : Options :=
  list_to_map
    [ ("background", VStr "#18181d");
      ("wireframeBackground", VStr "#0f0f13");
      ("hasBounds", VBool has_bounds);
      ("enabled", VBool true);
      ("wireframes", VBool true);
      ("showSleeping", VBool true);
      ("showDebug", VBool false);
      ("showBroadphase", VBool false);
      ("showBounds", VBool false);
      ("showVelocity", VBool false);
      ("showCollisions", VBool false);
      ("showSeparations", VBool false);
      ("showAxes", VBool false);
      ("showPositions", VBool false);
      ("showAngleIndicator", VBool false);
      ("showIds", VBool false);
      ("showShadows", VBool false);
      ("showVertexNumbers", VBool false);
      ("showConvexHulls", VBool false);
      ("showInternalEdges", VBool false);
      ("showMousePosition", VBool false) ].

(** What [Common.extend(defaults, options)] does with [options.engine].
    The engine is a plain object and [defaults.engine] is [null], so it
    is copied property by property into a new object, every property
    that is itself a plain object being copied in the same way; arrays
    are assigned as they are. The only plain objects reached in this way
    that refer to themselves are the bodies of the collision pairs:
    [engine.pairs.table] holds the pairs of [engine.pairs.list], a pair
    refers to its two bodies, and [body.parent === body]. The copy of a
    body then recurses until the stack overflows. The lists of the world
    and the buckets of the broadphase are arrays and are not entered. *)
Definition extend_engine (e : option Engine) : Exc () :=
  match e with
  | Some e =>
      match e_pairs e with
      | [] => Ok ()
      | _ :: _ => Throw (RangeError "Maximum call stack size exceeded")
      end
  | None => Ok ()
  end.

(** [Render.create(options)]. Two statements can fault:
    [Common.extend(defaults, options)] and, after it,
    [render.canvas = options.layer.canvas]; nothing checks
    [options.engine]. The copies [Common.extend] makes of the engine and
    the mouse are replaced by the objects themselves in the two
    statements that follow it. *)
Definition Render_create (o : CreateOptions) : Exc Render :=
  _ ← extend_engine (co_engine o);
  match co_layer o with
  | None => Throw (TypeError "options.layer.canvas")
  | Some l =>
      Ok {| engine := co_engine o;
            layer := l;
            mouse := co_mouse o;
            context := [];
            options := co_options o ∪ default_options (bool_decide (is_Some (co_bounds o)));
            bounds := default (mkBounds (mkVec 0 0)
                                 (mkVec (cv_width (l_canvas l)) (cv_height (l_canvas l))))
                        (co_bounds o);
            extraDraw := None;
            currentBackground := None;
            debugState := mkDebugState None None;
            events := [];
            next_token := 0 |}
  end.

Definition draw_on (f : Ctx -> Res Ctx) (r : Render) : Res Render :=
  let '(c, err) := f (context r) in (set_context c r, err).

Definition trigger (ev : Event) (r : Render) : Render :=
  set_events (events r ++ [ev]) r.

(** [/(jpg|gif|png)$/.test(background)] *)
Definition ends_with (suffix s : string) : bool :=
  let n := String.length s in
  let m := String.length suffix in
  (m <=? n)%nat && String.eqb (String.substring (n - m) m s) suffix.

Definition is_image (s : string) : bool :=
  ends_with "jpg" s || ends_with "gif" s || ends_with "png" s.

Definition _applyBackground (background : option string) (r : Render) : Render :=
  let css := match background with
             | Some b => Some (if is_image b then "url(" +:+ b +:+ ")" else b)
             | None => None
             end in
  let cv := canvas r in
  let l := mkLayer (mkCanvas (cv_width cv) (cv_height cv) css (Some "contain"))
             (l_nodes (layer r)) (l_update (layer r)) in
  set_currentBackground background (set_layer l r).

(** [Render.startViewTransform] *)
Definition startViewTransform (r : Render) : Render :=
  let boundsWidth := vx (bmax (bounds r)) - vx (bmin (bounds r)) in
  let boundsHeight := vy (bmax (bounds r)) - vy (bmin (bounds r)) in
  let boundsScaleX := boundsWidth / opt_num (options r) "width" in
  let boundsScaleY := boundsHeight / opt_num (options r) "height" in
  set_context
    (context r ++ [Scale (1 / boundsScaleX) (1 / boundsScaleY);
                   Translate (- vx (bmin (bounds r))) (- vy (bmin (bounds r)))]) r.

(** [Render.endViewTransform] *)
Definition endViewTransform (r : Render) : Render :=
  let pr := opt_num (options r) "pixelRatio" in
  set_context (context r ++ [SetTransform pr 0 0 pr 0 0]) r.

Definition in_view (e : Engine) (view : Bounds) (i : nat) : bool :=
  match e_bodies e !! i with
  | Some b => BoundsOps.overlaps (p_bounds (self b)) view
  | None => false
  end.

(** [Vector.add(body.position, point)] when the constraint has a body;
    it reads [point.x], a fault when the point is [undefined]. *)
Definition world_point (e : Engine) (ref : option nat) (pt : option Vec)
    : Exc (option Vec) :=
  match Constraints.body_of (e_bodies e) ref with
  | Some b =>
      match pt with
      | Some p => Ok (Some (Vector.add (position (self b)) p))
      | None => Throw (TypeError "vecB.x")
      end
  | None => Ok pt
  end.

(** the loop that keeps the constraints in view *)
Fixpoint visible_constraints (e : Engine) (view : Bounds) (refs : list nat)
    : Exc (list nat) :=
  match refs with
  | [] => Ok []
  | i :: refs =>
      keep ←
        match e_constraints e !! i with
        | Some k =>
            a ← world_point e (bodyA k) (pointA k);
            b ← world_point e (bodyB k) (pointB k);
            Ok match a, b with
               | Some a, Some b =>
                   BoundsOps.contains view a || BoundsOps.contains view b
               | _, _ => false
               end
        | None => Ok false
        end;
      rest ← visible_constraints e view refs;
      Ok (if keep : bool then i :: rest else rest)
  end.

(** [Render.mousePosition(render, render.mouse, context)]:
    [mouse.position] faults when there is no mouse. *)
Definition Render_mousePosition (m : option Mouse) (c : Ctx) : Res Ctx :=
  let c := c ++ [SetFillStyle "rgba(255,255,255,0.8)"] in
  match m with
  | Some m =>
      done (c ++ [FillText [vx (m_position m); vy (m_position m)]
                    (vx (m_position m) + 5) (vy (m_position m) - 5)])
  | None => fault (TypeError "mouse.position") c
  end.

Definition with_engine (f : Engine -> Render -> Res Render) (r : Render) : Res Render :=
  match engine r with
  | Some e => f e r
  | None => fault (TypeError "engine") r
  end.

(** the constraint objects an array of references stands for *)
Definition constraints_at (e : Engine) (refs : list nat) : list Constraint :=
  omap (fun i => e_constraints e !! i) refs.

Definition off_update (h : Handler) (l : Layer) : Layer :=
  mkLayer (l_canvas l) (l_nodes l)
    (filter (fun h' => h_token h' ≠ h_token h) (l_update l)).

Definition on_update (h : Handler) (l : Layer) : Layer :=
  mkLayer (l_canvas l) (l_nodes l) (l_update l ++ [h]).

Section WithOverlays.
Context (ov : Overlays).

(** the overlay renderers of the callback, in the order of the source *)
Definition overlays (h : Handler) : list (Render -> Res Render) :=
  [ fun r => when (flag (options r) "showBounds")
               (draw_on (bodyBounds ov r (h_bodies h))) r;
    fun r => when (flag (options r) "showAxes" || flag (options r) "showAngleIndicator")
               (draw_on (bodyAxes ov r (h_bodies h))) r;
    fun r => when (flag (options r) "showPositions")
               (draw_on (bodyPositions ov r (h_bodies h))) r;
    fun r => when (flag (options r) "showVelocity")
               (draw_on (bodyVelocity ov r (h_bodies h))) r;
    fun r => when (flag (options r) "showIds")
               (draw_on (bodyIds ov r (h_bodies h))) r;
    fun r => when (flag (options r) "showSeparations")
               (with_engine (fun e => draw_on (separations ov r (e_pairs e)))) r;
    fun r => when (flag (options r) "showCollisions")
               (with_engine (fun e => draw_on (collisions ov r (e_pairs e)))) r;
    fun r => when (flag (options r) "showVertexNumbers")
               (draw_on (vertexNumbers ov r (h_bodies h))) r;
    fun r => when (flag (options r) "showMousePosition")
               (draw_on (Render_mousePosition (mouse r))) r;
    with_engine (fun e =>
      draw_on (Constraints.Render_constraints (e_bodies e)
                 (constraints_at e (h_constraints h))));
    fun r => when (flag (options r) "showBroadphase")
               (with_engine (fun e =>
                  when (controller_is_Grid (e_broadphase e))
                    (draw_on (grid ov r (e_broadphase e))))) r;
    fun r => when (flag (options r) "showDebug")
               (fun r => let '((d, c), err) := debug ov r (debugState r, context r) in
                         (set_debugState d (set_context c r), err)) r ].

(** what the callback does once the overlays have returned *)
Definition finish (h : Handler) : list (Render -> Res Render) :=
  [ fun r => when (flag (options r) "hasBounds") (fun r => done (endViewTransform r)) r;
    fun r => done (set_layer (off_update h (layer r)) r);
    fun r => done (set_extraDraw None r);
    fun r => done (trigger (AfterRender (h_timestamp h)) r) ].

(** The closure [extraDraw]. *)
Definition run_extraDraw (h : Handler) : Render -> Res Render :=
  block (overlays h ++ finish h).

(** The layer's ['update'] signal: the handlers registered at that
    moment are called in turn; a fault in one ends the dispatch. *)
Definition update_signal (r : Render) : Res Render :=
  block (run_extraDraw <$> l_update (layer r)) r.

End WithOverlays.

Definition scene_of (e : Engine) (r : Render) : Scene :=
  mkScene (e_bodies e) (l_nodes (layer r)) (context r).

Definition set_e_bodies (bs : gmap nat Body) (e : Engine) : Engine :=
  mkEngine bs (e_constraints e) (allBodies e) (allConstraints e) (timestamp e)
    (e_pairs e) (e_broadphase e) (e_metrics e).

(** the bodies, nodes and context after a pass, back in the state *)
Definition store_scene (e : Engine) (sc : Scene) (r : Render) : Render :=
  set_engine (Some (set_e_bodies (sc_bodies sc) e))
    (set_layer (mkLayer (l_canvas (layer r)) (sc_nodes sc) (l_update (layer r)))
       (set_context (sc_ctx sc) r)).

Definition pass (e : Engine) (f : Scene -> Res Scene) (r : Render) : Res Render :=
  let '(sc, err) := f (scene_of e r) in (store_scene e sc r, err).

(** the engine as the state has it after the passes before *)
Definition pass_now (f : Scene -> Res Scene) (r : Render) : Res Render :=
  with_engine (fun e => pass e f) r.

Definition refresh_mouse (r : Render) : Render :=
  set_mouse (LookAt.update_mouse (canvas r) (bounds r) <$> mouse r) r.

(** the block under [if (!render.extraDraw)] *)
Definition schedule (bodies constraints : list nat) (ts : float) (r : Render) : Render :=
  match extraDraw r with
  | Some _ => r
  | None =>
      let h := mkHandler (next_token r) bodies constraints ts in
      set_next_token (S (next_token r))
        (set_extraDraw (Some h) (set_layer (on_update h (layer r)) r))
  end.

(** [Render.world(render)]. *)
Definition Render_world (r : Render) : Res Render :=
  match engine r with
  | None => fault (TypeError "engine.world") r
  | Some e =>
      let opts := options r in
      let background :=
        if flag opts "wireframes" then opt_str opts "wireframeBackground"
        else opt_str opts "background" in
      let r := trigger (BeforeRender (timestamp e)) r in
      let r := if bool_decide (currentBackground r = background) then r
               else _applyBackground background r in
      let culled : Res Render * list nat * list nat :=
        if flag opts "hasBounds" then
          let bodies := filter (fun i => in_view e (bounds r) i = true) (allBodies e) in
          match visible_constraints e (bounds r) (allConstraints e) with
          | Ok constraints =>
              (done (refresh_mouse (startViewTransform r)), bodies, constraints)
          | Throw err => (fault err r, bodies, [])
          end
        else (done r, allBodies e, allConstraints e) in
      let '(r, bodies, constraints) := culled in
      and_then r
        (block
           [ fun r =>
               if negb (flag opts "wireframes") then
                 pass_now (MainPass.Render_bodies opts bodies) r
               else
                 block
                   [ when (flag opts "showConvexHulls")
                       (pass_now (MainPass.Render_bodyConvexHulls bodies));
                     pass_now (MainPass.Render_bodyWireframes opts bodies) ] r;
             fun r => done (schedule bodies constraints (timestamp e) r) ])
  end.

End Frame.

(** ** Notions used in the statements *)

(** The invariant of the view bounds: [max.x >= min.x] and
    [max.y >= min.y], as JavaScript evaluates it. *)
Definition view_ok (b : Bounds) : bool :=
  (vx (bmin b) <=? vx (bmax b))%float && (vy (bmin b) <=? vy (bmax b))%float.

(** [Infinity], [-Infinity] or [NaN] *)
Definition non_finite (x : float) : Prop := PrimFloat.is_finite x = false.

Definition ratio (b : Bounds) : float :=
  ((vx (bmax b) - vx (bmin b)) / (vy (bmax b) - vy (bmin b)))%float.

Definition midpoint (b : Bounds) : float * float :=
  (((vx (bmin b) + vx (bmax b)) / 2)%float, ((vy (bmin b) + vy (bmax b)) / 2)%float).

(** an object with none of the fields [lookAt] looks for *)
Definition exposes_nothing (o : LookObject) : Prop :=
  lo_bounds o = None /\ lo_min o = None /\ lo_max o = None
  /\ lo_position o = None /\ lo_x o = None /\ lo_y o = None.

Definition box (x0 y0 x1 y1 : float) : LookObject :=
  mkLookObject None (Some (mkPoint (Some x0) (Some y0)))
    (Some (mkPoint (Some x1) (Some y1))) None None None.

(** the two objects of the viewport scenario *)
Definition two_boxes : list LookObject :=
  [ box 0 0 10 10; box 90 90 100 100 ].

Definition layer_800x600 : Layer :=
  mkLayer (mkCanvas 800 600 None None) [] [].


(** a renderer on an 800 by 600 canvas, as [Render.create] returns it
    for an engine that holds no pair *)
Definition render_800x600 (e : option Engine) (m : option Mouse) (o : Options) : Render :=
  match Frame.Render_create (mkCreateOptions e (Some layer_800x600) m None o) with
  | Ok r => r
  | Throw _ =>
      mkRender None layer_800x600 None [] ∅ (mkBounds (mkVec 0 0) (mkVec 0 0))
        None None (mkDebugState None None) [] 0
  end.

(** The step of the main pass on one part: [Render.world] runs
    [Render.bodies] unless [options.wireframes] is set. *)
Definition frame_part (opts : Options) (sleeping : bool)
    : Part -> list Node -> Exc (Part * list Node) :=
  if negb (flag opts "wireframes") then MainPass.bodies_part opts sleeping
  else MainPass.wireframes_part opts sleeping.

(** One frame in the life of a part: the options and the sleep flag of
    its body at that frame, the state the simulation has put the part in,
    and the nodes other parts have appended to the layer since the frame
    before. *)
Record FrameInput : Type := mkFrameInput {
  fi_options : Options;
  fi_sleeping : bool;
  fi_part : Part;
  fi_others : list Node
}.

(** the simulation changes anything about a part but the two properties
    the renderer keeps on it *)
Definition carry (p next : Part) : Part :=
  set_cache (spriteNode p) (fullOpacity p) next.

(** The part drawn frame after frame; the number returned counts the
    nodes its own steps have added to the layer. *)
Fixpoint lifetime (frames : list FrameInput) (p : Part) (nodes : list Node)
    : Exc (Part * list Node * nat) :=
  match frames with
  | [] => Ok (p, nodes, 0)
  | f :: frames =>
      let nodes0 := nodes ++ fi_others f in
      '(p', nodes') ← frame_part (fi_options f) (fi_sleeping f) (carry p (fi_part f)) nodes0;
      '(p'', nodes'', k) ← lifetime frames p' nodes';
      Ok (p'', nodes'', (length nodes' - length nodes0) + k)
  end.

(** a cached reference points into the layer *)
Definition cache_wf (p : Part) (nodes : list Node) : Prop :=
  forall n, spriteNode p = Some n -> n < length nodes.

(** the user attributes of the part's sprite, if it has any *)
Definition user_attrs (p : Part) : Attrs :=
  default no_attrs (sprite (p_render p) ≫= sp_attrs).

(** the pose of the node a part refers to *)
Definition pose_at (nodes : list Node) (n : nat) : option (float * float) * option float :=
  match nodes !! n with
  | Some s => (a_pos (n_attrs s), a_rotate (n_attrs s))
  | None => (None, None)
  end.

Definition quantized (p : Part) : option (float * float) * option float :=
  (Some (MainPass.pos_of (position p)), Some (MainPass.rotate_of (angle p))).

Definition square : list Vertex :=
  [ mkVertex 0 0 false; mkVertex 10 0 false; mkVertex 10 10 false; mkVertex 0 10 false ].

(** a visible polygon part at a given pose, not drawn yet *)
Definition polygon_at (x y a : float) : Part :=
  mkPart 1 (mkVec x y) (mkVec x y) a (mkBounds (mkVec 0 0) (mkVec 10 10))
    (mkPartRender true None "#c44d58") 0 square false false None None.

(** a visible textured part whose sprite attributes set an opacity *)
Definition textured_with_opacity (o : float) : Part :=
  mkPart 2 (mkVec 5 5) (mkVec 5 5) 0 (mkBounds (mkVec 0 0) (mkVec 10 10))
    (mkPartRender true
       (Some (mkSpriteDesc (Some "box.png") (Some (mkAttrs None None (Some o) ∅)) 0.5 0.5 1 1))
       "#c44d58")
    0 square false false None None.

(** options with [wireframes] switched off *)
Definition shaded : Options := {["wireframes" := VBool false]} ∪ Frame.default_options false.

Definition opacity_of (r : Exc (Part * list Node * nat)) : option float :=
  match r with
  | Ok (p, nodes, _) => (fun n => MainPass.opacity_at nodes n) <$> spriteNode p
  | Throw _ => None
  end.

(** What one step on a part may do to the layer: update the cached node
    in place, or, when there is none, leave the layer alone (the part is
    not drawn) or append exactly one node and cache it. *)
Definition step_ok (p : Part) (nodes : list Node) (p' : Part) (nodes' : list Node) : Prop :=
  match spriteNode p with
  | Some n =>
      spriteNode p' = Some n
      /\ length nodes' = length nodes
      /\ (forall m, m ≠ n -> nodes' !! m = nodes !! m)
      /\ n_kind <$> nodes' !! n = n_kind <$> nodes !! n
  | None =>
      (spriteNode p' = None /\ nodes' = nodes)
      \/ (spriteNode p' = Some (length nodes)
          /\ length nodes' = S (length nodes)
          /\ take (length nodes) nodes' = nodes)
  end.

(** every frame hands over a part with at least one vertex *)
Definition has_vertices (f : FrameInput) : Prop := vertices (fi_part f) ≠ [].

(** a new node carries the part's pose and no opacity of its own *)
Definition posed (p : Part) (a : Attrs) : Prop :=
  a_pos a = Some (MainPass.pos_of (position p))
  /\ a_rotate a = Some (MainPass.rotate_of (angle p))
  /\ a_opacity a = None.

(** the nodes other parts add to the layer over some frames *)
Definition others_count (frames : list FrameInput) : nat :=
  sum_list_with (fun f => length (fi_others f)) frames.

(** a frame in which the sleeping fade has nothing to do *)
Definition fade_idle (opts : Options) (sleeping : bool) (p : Part) : Prop :=
  (flag opts "showSleeping" && sleeping) = MainPass.has_fullOpacity p.

(** What a frame writes on the node a part already has. The opacity
    the part has put aside, [part.fullOpacity], counts when it is
    truthy. The sleeping fade halves the node's opacity on the frame the
    body is first seen asleep under [showSleeping] and puts the stored
    opacity back on the first frame after; on every other frame it
    leaves the attribute as it is. *)
Definition stored_opacity (p : Part) : option float :=
  match fullOpacity p with
  | Some f => if JSNum.truthy f then Some f else None
  | None => None
  end.

Definition opacity_after (fading : bool) (p : Part) (o : option float) : option float :=
  match fading, stored_opacity p with
  | true, None => Some (0.5 * default default_opacity o)%float
  | false, Some f => Some f
  | _, _ => o
  end.

Definition fullOpacity_after (fading : bool) (p : Part) (o : option float) : option float :=
  match fading, stored_opacity p with
  | true, None => Some (default default_opacity o)
  | false, Some _ => None
  | _, _ => fullOpacity p
  end.

(** the first of two optional values that is there *)
Definition first_of {A : Type} (a b : option A) : option A :=
  match a with Some x => Some x | None => b end.

(** the cached node [s] after a frame of [Render.bodyWireframes]: the
    pose is written, the fade may write the opacity, every other
    attribute stays *)
Definition wire_update (fading : bool) (p : Part) (s : Node) : Node :=
  mkNode (n_kind s)
    (mkAttrs (Some (MainPass.pos_of (position p)))
       (Some (MainPass.rotate_of (angle p)))
       (opacity_after fading p (a_opacity (n_attrs s)))
       (a_rest (n_attrs s))).

(** the cached node [s] after a frame of [Render.bodies] on a visible
    part: [render.sprite.attrs], when the part has them, are written
    over the pose and over the node's other attributes, before the
    fade *)
Definition bodies_update (fading : bool) (p : Part) (s : Node) : Node :=
  mkNode (n_kind s)
    (mkAttrs (first_of (a_pos (user_attrs p)) (Some (MainPass.pos_of (position p))))
       (first_of (a_rotate (user_attrs p)) (Some (MainPass.rotate_of (angle p))))
       (opacity_after fading p
          (first_of (a_opacity (user_attrs p)) (a_opacity (n_attrs s))))
       (a_rest (user_attrs p) ∪ a_rest (n_attrs s))).

(** a node with a pose, an opacity that may never have been set, and
    no other attribute *)
Definition posed_node (k : NodeKind) (x y rot : float) (o : option float) : Node :=
  mkNode k (mkAttrs (Some (x, y)) (Some rot) o ∅).

(** two frames of a part's life: shaded and awake, then wireframe and
    asleep, the part having moved in between *)
Definition two_frames : list FrameInput :=
  [ mkFrameInput shaded false (polygon_at 1 2 0) [];
    mkFrameInput (Frame.default_options false) true (polygon_at 3 4 0.5) [] ].

(** [k] frames in shaded mode during which the body of the textured
    part sleeps *)
Definition asleep_frames (o : float) (k : nat) : list FrameInput :=
  replicate k (mkFrameInput shaded true (textured_with_opacity o) []).

Definition fullOpacity_of (r : Exc (Part * list Node * nat)) : option float :=
  match r with
  | Ok (p, _, _) => fullOpacity p
  | Throw _ => None
  end.

(** the opacity the node of a part has before the part is drawn: a new
    node starts from the default *)
Definition opacity_before (p : Part) (nodes : list Node) : float :=
  match spriteNode p with
  | Some n => MainPass.opacity_at nodes n
  | None => default_opacity
  end.

(** the part is drawn in this frame and its sprite attributes, if any,
    leave the opacity alone *)
Definition plain (f : FrameInput) : Prop :=
  visible (p_render (fi_part f)) = true
  /\ vertices (fi_part f) ≠ []
  /\ a_opacity (user_attrs (fi_part f)) = None.

Definition fading (f : FrameInput) : bool :=
  flag (fi_options f) "showSleeping" && fi_sleeping f.

(** a visible spring between two free anchors, [len] apart *)
Definition spring_of_length (len : float) : Constraint :=
  mkConstraint (mkConstraintRender true "spring" 2 "#ccc" false)
    (Some (mkVec 0 0)) (Some (mkVec len 0)) None None len.

(** a visible line constraint with [pointA] only *)
Definition one_anchor : Constraint :=
  mkConstraint (mkConstraintRender true "line" 2 "#ccc" true)
    (Some (mkVec 0 0)) None None None 10.

(** the [lineTo] calls of a spring of [n] coils: iterations [1 .. n-1] *)
Definition coil_points (start delta normal : Vec) (n : nat) : list CanvasOp :=
  Constraints.coil_point start delta normal (JSNum.of_nat n) <$> seq 1 (n - 1).

(** The zigzag of a spring in coordinates. [unit_of dx dy] is the
    direction of [(dx, dy)] scaled to length one as doubles allow it,
    and [(0, 0)] when [(dx, dy)] has no length. Coil point [j] of [n]
    lies [j / n] of the way from the start, moved by four times the
    quarter turn [(-uy, ux)] of the direction for even [j] and by four
    times the opposite quarter turn [(uy, -ux)] for odd [j]. *)
Definition unit_of (dx dy : float) : float * float :=
  let m := sqrt (dx * dx + dy * dy)%float in
  if (m =? 0)%float then (0, 0)%float else (dx / m, dy / m)%float.

Definition zigzag_point (sx sy dx dy : float) (n j : nat) : CanvasOp :=
  let '(ux, uy) := unit_of dx dy in
  let t := (JSNum.of_nat j / JSNum.of_nat n)%float in
  if Nat.even j
  then LineTo (sx + dx * t + (- uy) * 4)%float (sy + dy * t + ux * 4)%float
  else LineTo (sx + dx * t + uy * 4)%float (sy + dy * t + (- ux) * 4)%float.

Definition zigzag (sx sy dx dy : float) (n : nat) : list CanvasOp :=
  zigzag_point sx sy dx dy n <$> seq 1 (n - 1).

(** the second coordinate of a [lineTo] *)
Definition lineTo_y (op : CanvasOp) : option float :=
  match op with LineTo _ y => Some y | _ => None end.

(** a visible spring between the free anchors [a] and [b], its
    [length] being [len] *)
Definition spring_between (a b : Vec) (len : float) : Constraint :=
  mkConstraint (mkConstraintRender true "spring" 2 "#ccc" false)
    (Some a) (Some b) None None len.

(** ** Frames and update signals *)

(** What happens to a renderer over time: [Render.world] is called for
    a frame, or the layer emits ['update']. A fault ends the call and
    leaves the state as it is at that point. *)
Inductive Action : Type := Frame | Update.

Definition step (ov : Overlays) (a : Action) (r : Render) : Render :=
  match a with
  | Frame => (Frame.Render_world r).1
  | Update => (Frame.update_signal ov r).1
  end.

Definition run (ov : Overlays) (trace : list Action) (r : Render) : Render :=
  foldl (fun r a => step ov a r) r trace.

(** the handlers pending on the layer are exactly the one remembered in
    [render.extraDraw], if any *)
Definition pending_ok (r : Render) : Prop :=
  l_update (layer r) = option_list (extraDraw r).

Definition is_before (ev : Event) : bool :=
  match ev with BeforeRender _ => true | AfterRender _ => false end.

(** frames begun: [beforeRender] events *)
Definition frames_begun (r : Render) : nat :=
  length (filter (fun ev => is_before ev = true) (events r)).

(** overlay passes completed: [afterRender] events *)
Definition passes_done (r : Render) : nat :=
  length (filter (fun ev => is_before ev = false) (events r)).

Definition pending (r : Render) : nat :=
  match extraDraw r with Some _ => 1 | None => 0 end.

(** what the callback leaves alone while its overlays run *)
Definition same_frame (r r' : Render) : Prop :=
  extraDraw r' = extraDraw r
  /\ l_update (layer r') = l_update (layer r)
  /\ l_nodes (layer r') = l_nodes (layer r)
  /\ events r' = events r
  /\ engine r' = engine r
  /\ options r' = options r
  /\ next_token r' = next_token r.

(** Overlays that draw nothing: they stand for the ten diagnostic
    overlays in the examples below, whose options leave all ten switched
    off. *)
Definition silent : Overlays :=
  mkOverlays (fun _ _ c => done c) (fun _ _ c => done c) (fun _ _ c => done c)
    (fun _ _ c => done c) (fun _ _ c => done c) (fun _ _ c => done c)
    (fun _ _ c => done c) (fun _ _ c => done c) (fun _ _ c => done c)
    (fun _ s => done s).

(** a world of one square body and one spring between two free anchors *)
Definition demo_engine : Engine :=
  mkEngine {[ 1 := mkBody (polygon_at 5 5 0) [] ]}
    {[ 1 := spring_of_length 40 ]}
    [1] [1] 1000 [] (mkBroadphase true [] 48 48) (mkMetrics None false 0).

Definition demo_render (o : Options) : Render :=
  render_800x600 (Some demo_engine) None o.

(** the options of the overlay example: the view is clipped and the
    mouse position is shown, but the renderer was given no mouse *)
Definition mouse_shown : Options :=
  {[ "showMousePosition" := VBool true; "hasBounds" := VBool true ]}.

Definition has_SetTransform (c : Ctx) : bool :=
  existsb (fun op => match op with SetTransform _ _ _ _ _ _ => true | _ => false end) c.

(** what the passes of a frame leave alone: the callback, its
    registration, the event log and the closure counter *)
Definition same_protocol (r r' : Render) : Prop :=
  extraDraw r' = extraDraw r
  /\ l_update (layer r') = l_update (layer r)
  /\ events r' = events r
  /\ next_token r' = next_token r.

(** ** Notions used in the further properties *)

(** The layer keeps its nodes: none is removed and none changes kind. *)
Definition keeps_nodes (nodes nodes' : list Node) : Prop :=
  length nodes <= length nodes'
  /\ forall m, m < length nodes -> n_kind <$> nodes' !! m = n_kind <$> nodes !! m.

(** the parts the inner loop of a pass visits in a body *)
Definition drawn_parts (b : Body) : list Part :=
  match others b with [] => [self b] | ps => ps end.

(** The parts a pass draws: [Render.bodyWireframes] ([wire]) every part
    it visits, [Render.bodies] the visible ones. *)
Definition drawn_in (wire : bool) (p : Part) : bool := wire || visible (p_render p).

(** every part a pass would draw in the body has its node already *)
Definition settled (wire : bool) (b : Body) : Prop :=
  visible (p_render (self b)) = true ->
  Forall (fun p => drawn_in wire p = true -> is_Some (spriteNode p)) (drawn_parts b).

Definition all_settled (wire : bool) (refs : list nat) (bodies : gmap nat Body) : Prop :=
  forall i b, i ∈ refs -> bodies !! i = Some b -> settled wire b.

(** the pass over the bodies, by mode *)
Definition body_pass (wire : bool) : Options -> list nat -> Scene -> Res Scene :=
  if wire then MainPass.Render_bodyWireframes else MainPass.Render_bodies.

(** What the two inner loops have in common, as far as the cache goes:
    a step that returns leaves the part's [render] settings alone and a
    drawn part with a node; a step on a part that is not drawn or has its
    node returns and leaves the number of nodes as it is. *)
Definition caches (wire : bool)
    (part_step : Options -> bool -> Part -> list Node -> Exc (Part * list Node)) : Prop :=
  forall opts sl p nodes,
    (forall p' nodes', part_step opts sl p nodes = Ok (p', nodes') ->
       p_render p' = p_render p
       /\ (drawn_in wire p = true -> is_Some (spriteNode p')))
    /\ ((drawn_in wire p = true -> is_Some (spriteNode p)) ->
        exists p' nodes', part_step opts sl p nodes = Ok (p', nodes')
          /\ length nodes' = length nodes).

(** a polygon part with no vertex at all *)
Definition no_vertex_part : Part :=
  mkPart 7 (mkVec 5 5) (mkVec 5 5) 0 (mkBounds (mkVec 0 0) (mkVec 10 10))
    (mkPartRender true None "#c44d58") 0 [] false false None None.

(** the constraints of [Render.constraints] that end in a fault: a drawn
    pin whose anchors are to be marked *)
Definition faults_at_end (k : Constraint) : bool :=
  negb (Constraints.skipped k)
  && String.eqb (cr_type (c_render k)) "pin"
  && cr_anchors (c_render k).

(** a visible pin on a free anchor, its anchors marked or not *)
Definition pin_at (x y : float) (anchors : bool) : Constraint :=
  mkConstraint (mkConstraintRender true "pin" 2 "#ccc" anchors)
    (Some (mkVec x y)) (Some (mkVec 0 0)) None None 0.

(** the background [Render.world] selects *)
Definition mode_background (o : Options) : option string :=
  if flag o "wireframes" then opt_str o "wireframeBackground" else opt_str o "background".

(** the CSS value [_applyBackground] writes for a background *)
Definition css_background (b : string) : string :=
  if Frame.is_image b then "url(" +:+ b +:+ ")" else b.

(** the renderer once [Render.world] has emitted [beforeRender] and
    looked at the background *)
Definition begun (r : Render) (e : Engine) : Render :=
  let r1 := Frame.trigger (BeforeRender (timestamp e)) r in
  if bool_decide (currentBackground r1 = mode_background (options r)) then r1
  else Frame._applyBackground (mode_background (options r)) r1.

(** the array [bodies] of a frame *)
Definition frame_bodies (r : Render) (e : Engine) : list nat :=
  if flag (options r) "hasBounds"
  then filter (fun i => Frame.in_view e (bounds r) i = true) (allBodies e)
  else allBodies e.

(** the passes [Render.world] may run in a frame *)
Definition frame_passes (r : Render) (e : Engine) : list (Scene -> Res Scene) :=
  [ MainPass.Render_bodies (options r) (frame_bodies r e);
    MainPass.Render_bodyConvexHulls (frame_bodies r e);
    MainPass.Render_bodyWireframes (options r) (frame_bodies r e) ].

(** the bodies a frame was not given are the objects they were *)
Definition bodies_kept_outside (refs : list nat) (r r' : Render) : Prop :=
  forall e, engine r = Some e ->
    exists e', engine r' = Some e'
      /\ forall i, i ∉ refs -> e_bodies e' !! i = e_bodies e !! i.

Definition nodes_kept (r r' : Render) : Prop :=
  keeps_nodes (l_nodes (layer r)) (l_nodes (layer r')).

(** a constraint tied to a body on a side where it has no point:
    [Vector.add(body.position, undefined)] *)
Definition dangling_point (e : Engine) (k : Constraint) : bool :=
  (bool_decide (is_Some (Constraints.body_of (e_bodies e) (bodyA k)))
   && negb (bool_decide (is_Some (pointA k))))
  || (bool_decide (is_Some (Constraints.body_of (e_bodies e) (bodyB k)))
      && negb (bool_decide (is_Some (pointB k)))).

Definition dangling_at (e : Engine) (i : nat) : bool :=
  from_option (dangling_point e) false (e_constraints e !! i).

(** a square body with the given bounds *)
Definition body_in (id : nat) (x0 y0 x1 y1 : float) : Body :=
  mkBody (mkPart id (mkVec x0 y0) (mkVec x0 y0) 0
            (mkBounds (mkVec x0 y0) (mkVec x1 y1))
            (mkPartRender true None "#c44d58") 0 square false false None None) [].

(** a world of two bodies, the second one far off the canvas, and a
    constraint tied to the first body with no point on that side *)
Definition far_engine : Engine :=
  mkEngine {[ 1 := body_in 1 5 5 15 15; 2 := body_in 2 5000 5000 5010 5010 ]}
    {[ 1 := mkConstraint (mkConstraintRender true "line" 2 "#ccc" false)
              None (Some (mkVec 0 0)) (Some 1) None 10 ]}
    [1; 2] [1] 1000 [] (mkBroadphase true [] 48 48) (mkMetrics None false 0).

(** the same world without the constraint *)
Definition far_bodies : Engine :=
  mkEngine (e_bodies far_engine) ∅ [1; 2] [] 1000 []
    (mkBroadphase true [] 48 48) (mkMetrics None false 0).

Definition clipped : Options := {[ "hasBounds" := VBool true ]}.

(** the passes of a frame, by mode *)
Definition frame_main (opts : Options) (bodies : list nat) (r : Render) : Res Render :=
  if negb (flag opts "wireframes") then
    Frame.pass_now (MainPass.Render_bodies opts bodies) r
  else
    block
      [ when (flag opts "showConvexHulls")
          (Frame.pass_now (MainPass.Render_bodyConvexHulls bodies));
        Frame.pass_now (MainPass.Render_bodyWireframes opts bodies) ] r.

(** the array [constraints] of a frame *)
Definition frame_constraints (r : Render) (e : Engine) : Exc (list nat) :=
  if flag (options r) "hasBounds"
  then Frame.visible_constraints e (bounds r) (allConstraints e)
  else Ok (allConstraints e).

(** the renderer when the passes of a frame start *)
Definition viewed (r : Render) (e : Engine) : Render :=
  if flag (options r) "hasBounds"
  then Frame.refresh_mouse (Frame.startViewTransform (begun r e))
  else begun r e.

(** what the passes leave alone of the canvas *)
Definition same_canvas (r r' : Render) : Prop :=
  l_canvas (layer r') = l_canvas (layer r)
  /\ currentBackground r' = currentBackground r.

(** ** Diagnostic overlays drawn on the context

    [Render.bodyVelocity], [Render.bodyPositions], [Render.vertexNumbers]
    and [Render.separations], on the body objects their array holds. *)

Module Diagnostics.
Local Open Scope float_scope.

(** one iteration of the loop of [Render.bodyVelocity] *)
Definition velocity_ops (b : Body) : list CanvasOp :=
  if negb (visible (p_render (self b))) then []
  else
    let p := position (self b) in
    let q := positionPrev (self b) in
    [ MoveTo (vx p) (vy p);
      LineTo (vx p + (vx p - vx q) * 2) (vy p + (vy p - vy q) * 2) ].

Definition Render_bodyVelocity (bodies : list Body) (c : Ctx) : Ctx :=
  c ++ [BeginPath] ++ flat_map velocity_ops bodies
    ++ [SetLineWidth 3; SetStrokeStyle "cornflowerblue"; Stroke].

(** the first loop of [Render.bodyPositions]: every part, the body
    itself included ([k] starts at 0) *)
Definition position_ops (b : Body) : list CanvasOp :=
  if negb (visible (p_render (self b))) then []
  else
    flat_map (fun p => [Arc (vx (position p)) (vy (position p)) 3 0 (2 * JSNum.PI);
                        ClosePath]) (parts b).

(** its second loop: the previous position of the body *)
Definition positionPrev_ops (b : Body) : list CanvasOp :=
  if visible (p_render (self b)) then
    [ Arc (vx (positionPrev (self b))) (vy (positionPrev (self b))) 2 0 (2 * JSNum.PI);
      ClosePath ]
  else [].

Definition Render_bodyPositions (opts : Options) (bodies : list Body) (c : Ctx) : Ctx :=
  c ++ [BeginPath] ++ flat_map position_ops bodies
    ++ [SetFillStyle (if flag opts "wireframes" then "indianred" else "rgba(0,0,0,0.5)");
        Fill; BeginPath]
    ++ flat_map positionPrev_ops bodies
    ++ [SetFillStyle "rgba(255,165,0,0.8)"; Fill].

(** the label [i_j] of vertex [j] of a part of body [i], and where it is
    written *)
Definition vertex_label (i : nat) (p : Part) (j : nat) (v : Vertex) : list CanvasOp :=
  [ SetFillStyle "rgba(255,255,255,0.2)";
    FillText [JSNum.of_nat i; JSNum.of_nat j]
      (vx (position p) + (v_x v - vx (position p)) * 0.8)
      (vy (position p) + (v_y v - vy (position p)) * 0.8) ].

Definition part_labels (i : nat) (p : Part) : list CanvasOp :=
  mjoin (imap (vertex_label i p) (vertices p)).

(** [Render.vertexNumbers]: no test of [render.visible] *)
Definition Render_vertexNumbers (bodies : list Body) (c : Ctx) : Ctx :=
  c ++ mjoin (imap (fun i b => flat_map (part_labels i) (drawn_parts b)) bodies).

(** The factor [k] of a body's line in [Render.separations]:
    [k = 1; if (!bodyB.isStatic && !bodyA.isStatic) k = 0.5;
     if (body.isStatic) k = 0]. *)
Definition share (static other_static : bool) : float :=
  let k := 1 in
  let k := if negb other_static && negb static then 0.5 else k in
  if static then 0 else k.

(** the two lines of an active pair *)
Definition line_B (a b : Part) (pen : Vec) : list CanvasOp :=
  let k := share (isStatic b) (isStatic a) in
  [ MoveTo (vx (position b)) (vy (position b));
    LineTo (vx (position b) - vx pen * k) (vy (position b) - vy pen * k) ].

Definition line_A (a b : Part) (pen : Vec) : list CanvasOp :=
  let k := share (isStatic a) (isStatic b) in
  [ MoveTo (vx (position a)) (vy (position a));
    LineTo (vx (position a) + vx pen * k) (vy (position a) + vy pen * k) ].

(** One iteration of the loop of [Render.separations]. The bodies of a
    collision are references; one that refers to no object reads as
    [undefined], and the first property read on it faults: [bodyB.isStatic]
    at once, [bodyA.isStatic] at once when [bodyB] is not static and after
    the line of [bodyB] when it is. *)
Definition separation (bodies : gmap nat Body) (pr : Pair) (c : Ctx) : Res Ctx :=
  if negb (pr_isActive pr) then done c
  else
    let col := pr_collision pr in
    match bodies !! col_bodyB col with
    | None => fault (TypeError "bodyB.isStatic") c
    | Some bB =>
        match bodies !! col_bodyA col with
        | None =>
            if isStatic (self bB)
            then fault (TypeError "bodyA.isStatic")
                   (c ++ [ MoveTo (vx (position (self bB))) (vy (position (self bB)));
                           LineTo (vx (position (self bB)) - vx (col_penetration col) * 0)
                                  (vy (position (self bB)) - vy (col_penetration col) * 0) ])
            else fault (TypeError "bodyA.isStatic") c
        | Some bA =>
            done (c ++ line_B (self bA) (self bB) (col_penetration col)
                    ++ line_A (self bA) (self bB) (col_penetration col))
        end
    end.

Fixpoint separations_loop (bodies : gmap nat Body) (pairs : list Pair) (c : Ctx)
    : Res Ctx :=
  match pairs with
  | [] => done c
  | pr :: pairs => and_then (separation bodies pr c) (separations_loop bodies pairs)
  end.

Definition Render_separations (opts : Options) (bodies : gmap nat Body)
    (pairs : list Pair) (c : Ctx) : Res Ctx :=
  and_then (separations_loop bodies pairs (c ++ [BeginPath]))
    (fun c => done (c ++ [SetStrokeStyle (if flag opts "wireframes"
                                          then "rgba(255,165,0,0.5)" else "orange");
                          Stroke])).

Definition is_Arc (op : CanvasOp) : bool :=
  match op with Arc _ _ _ _ _ => true | _ => false end.

Definition is_FillText (op : CanvasOp) : bool :=
  match op with FillText _ _ _ => true | _ => false end.

(** the calls of a kind in a log *)
Definition count (kind : CanvasOp -> bool) (c : Ctx) : nat :=
  length (filter (fun op => kind op = true) c).

End Diagnostics.

(** the number of bodies of a list that are visible *)
Definition visible_bodies (bodies : list Body) : list Body :=
  filter (fun b => visible (p_render (self b)) = true) bodies.

(** a pair whose bodies are objects of the world *)
Definition resolves (bodies : gmap nat Body) (pr : Pair) : Prop :=
  is_Some (bodies !! col_bodyA (pr_collision pr))
  /\ is_Some (bodies !! col_bodyB (pr_collision pr)).

(** an invisible copy of a body *)
Definition hidden (b : Body) : Body :=
  mkBody (mkPart (p_id (self b)) (position (self b)) (positionPrev (self b))
            (angle (self b)) (p_bounds (self b))
            (mkPartRender false (sprite (p_render (self b))) (fillStyle (p_render (self b))))
            (circleRadius (self b)) (vertices (self b)) (isSleeping (self b))
            (isStatic (self b)) (spriteNode (self b)) (fullOpacity (self b)))
    (others b).

(** an active contact between bodies 1 and 2 of a world *)
Definition contact_1_2 : Pair :=
  mkPair true [] (mkCollision 1 2 None (mkVec 0 1) (mkVec 0 4)).

(** ** The cache of the whole world *)

(** the node references a body holds, one for each of its parts that
    has one, the body itself first *)
Definition cached_nodes (b : Body) : list nat := omap spriteNode (parts b).

(** the node references held anywhere in the world *)
Definition world_nodes (bodies : gmap nat Body) : list nat :=
  map_to_list bodies ≫= (fun ib => cached_nodes ib.2).

(** no reference occurs twice, and all are below [k] *)
Definition fresh_below (k : nat) (refs : list nat) : Prop :=
  NoDup refs /\ Forall (fun n => n < k) refs.

(** The cache is sound: no two parts refer to the same node, and every
    reference points into the layer. *)
Definition cache_sound (bodies : gmap nat Body) (nodes : list Node) : Prop :=
  fresh_below (length nodes) (world_nodes bodies).

Definition cache_ok (r : Render) : Prop :=
  match engine r with
  | Some e => cache_sound (e_bodies e) (l_nodes (layer r))
  | None => True
  end.

(** what a step on a part does to the cache: nothing, or a reference to
    the node it has just appended on a part that had none *)
Definition cache_step (p : Part) (nodes : list Node) (p' : Part) (nodes' : list Node)
    : Prop :=
  (spriteNode p' = spriteNode p /\ length nodes' = length nodes)
  \/ (spriteNode p = None /\ spriteNode p' = Some (length nodes)
      /\ length nodes' = S (length nodes)).

(** every [afterRender] of a log follows the [beforeRender] of the same
    timestamp *)
Definition answered (evs : list Event) : Prop :=
  forall k ts, evs !! k = Some (AfterRender ts) ->
    exists j, j < k /\ evs !! j = Some (BeforeRender ts).

(** the pending callback, if any, was scheduled by a frame of the log *)
Definition scheduled (r : Render) : Prop :=
  forall h, extraDraw r = Some h -> BeforeRender (h_timestamp h) ∈ events r.

(** the [path] attribute of a node *)
Definition path_of (s : Node) : option Val := a_rest (n_attrs s) !! "path".

(** the vertices the outline of a wireframe passes through after its
    first point *)
Definition outline (showInternalEdges : bool) (v0 : Vertex) (vs : list Vertex)
    : list Vertex :=
  if showInternalEdges then vs
  else
    let external := filter (fun v => isInternal v = false) vs in
    if isInternal v0 then drop 1 external else external.

(** a part whose first vertex is internal *)
Definition notched : Part :=
  mkPart 3 (mkVec 5 5) (mkVec 5 5) 0 (mkBounds (mkVec 0 0) (mkVec 10 10))
    (mkPartRender true None "#c44d58") 0
    [ mkVertex 0 0 true; mkVertex 10 0 false; mkVertex 10 10 false; mkVertex 0 10 false ]
    false false None None.

(** a compound body of two square parts, its hull the square *)
Definition compound : Body :=
  mkBody (polygon_at 5 5 0) [polygon_at 2 2 0; polygon_at 8 8 0].

(** what the passes leave alone of the pointer and the view *)
Definition same_view (r r' : Render) : Prop :=
  mouse r' = mouse r /\ bounds r' = bounds r
  /\ cv_width (canvas r') = cv_width (canvas r)
  /\ cv_height (canvas r') = cv_height (canvas r).

(** a pointer at [(400, 300)] of the canvas *)
Definition pointer : Mouse :=
  mkMouse (mkVec 400 300) (mkVec 400 300) (mkVec 1 1) (mkVec 0 0).

(** a circle of radius 5 with no vertices *)
Definition disc : Part :=
  mkPart 4 (mkVec 5 5) (mkVec 5 5) 0 (mkBounds (mkVec 0 0) (mkVec 10 10))
    (mkPartRender true None "#c44d58") 5 [] false false None None.

(** a body none of whose drawn parts has a node yet, each with a vertex *)
Definition fresh_body (b : Body) : Prop :=
  Forall (fun p => spriteNode p = None /\ vertices p ≠ []) (drawn_parts b).

(** the nodes a pass owes a body: one for each part it draws *)
Definition nodes_due (wire : bool) (b : Body) : nat :=
  if visible (p_render (self b))
  then length (filter (fun p => drawn_in wire p = true) (drawn_parts b))
  else 0.

(** a part, a body and an engine without what the renderer keeps on the
    parts: what the simulation knows *)
Definition strip_part (p : Part) : Part := set_cache None None p.

Definition strip_body (b : Body) : Body :=
  mkBody (strip_part (self b)) (strip_part <$> others b).

Definition physics (e : Engine) : Engine :=
  Frame.set_e_bodies (strip_body <$> e_bodies e) e.

(** what no frame and no signal changes *)
Definition same_world (r r' : Render) : Prop :=
  options r' = options r /\ bounds r' = bounds r
  /\ physics <$> engine r' = physics <$> engine r.

(** a body of the world is, in the renderer [r'], the object [b] *)
Definition body_is (i : nat) (b : Body) (r' : Render) : Prop :=
  exists e', engine r' = Some e' /\ e_bodies e' !! i = Some b.

(** from [r] to [r'] the cache has stayed sound, the body [i] has
    stayed the object [b] and the node [n] has not changed in any
    attribute *)
Definition left_alone (i : nat) (b : Body) (n : nat) (r r' : Render) : Prop :=
  cache_ok r -> body_is i b r ->
  cache_ok r' /\ body_is i b r'
  /\ l_nodes (layer r') !! n = l_nodes (layer r) !! n.

(** a world whose one body was drawn at [(5, 5)], its node being node
    [0] of the layer, and has since moved to [(50, 60)] and been
    hidden *)
Definition hidden_world : Render :=
  set_layer (mkLayer (l_canvas layer_800x600) [posed_node KPath 5 5 0 None] [])
    (render_800x600
       (Some (Frame.set_e_bodies
                {[ 1 := hidden (mkBody (set_spriteNode 0 (polygon_at 50 60 0)) []) ]}
                demo_engine))
       None ∅).

(** the mode of a frame: [options.wireframes] *)
Definition wire_mode (r : Render) : bool := flag (options r) "wireframes".

(** the hull pass does not run in the frame *)
Definition no_hulls (r : Render) : Prop :=
  wire_mode r && flag (options r) "showConvexHulls" = false.

(** the options that switch a diagnostic overlay on *)
Definition overlay_flags : list string :=
  [ "showBounds"; "showAxes"; "showAngleIndicator"; "showPositions"; "showVelocity";
    "showIds"; "showSeparations"; "showCollisions"; "showVertexNumbers";
    "showBroadphase"; "showDebug" ].

(** every diagnostic overlay taken as an interface is switched off *)
Definition overlays_off (r : Render) : Prop :=
  Forall (fun name => flag (options r) name = false) overlay_flags.

(** the view transform a frame applies, if it applies one *)
Definition view_calls (r : Render) (e : Engine) : list CanvasOp :=
  if flag (options r) "hasBounds" && is_ok (frame_constraints r e)
  then drop (length (context r)) (context (Frame.startViewTransform r))
  else [].

(** overlays that all fault *)
Definition faulty : Overlays :=
  mkOverlays (fun _ _ c => fault (TypeError "overlay") c)
    (fun _ _ c => fault (TypeError "overlay") c) (fun _ _ c => fault (TypeError "overlay") c)
    (fun _ _ c => fault (TypeError "overlay") c) (fun _ _ c => fault (TypeError "overlay") c)
    (fun _ _ c => fault (TypeError "overlay") c) (fun _ _ c => fault (TypeError "overlay") c)
    (fun _ _ c => fault (TypeError "overlay") c) (fun _ _ c => fault (TypeError "overlay") c)
    (fun _ s => fault (TypeError "overlay") s).

(** * Properties *)

Example Math_round_half_up : JSNum.Math_round 2.5 = 3%float.
Proof. reflexivity. Qed.
Example Math_round_neg_half : JSNum.Math_round (-2.5) = (-2)%float.
Proof. reflexivity. Qed.
Example Math_round_below_half : JSNum.Math_round 0x1.fffffffffffffp-2 = 0%float.
Proof. reflexivity. Qed.
Example Math_ceil_ex : JSNum.Math_ceil 12.000001 = 13%float /\ JSNum.Math_ceil (-0.5) = neg_zero.
Proof. split; reflexivity. Qed.


(** ** Doubles: the special values *)

Module FloatFacts.
Local Open Scope float_scope.

Ltac by_spec spec x :=
  apply Prim2SF_inj; rewrite spec; destruct (Prim2SF x) as [[]|[]| |[] ? ?]; reflexivity.

Lemma add_nan_l x : nan + x = nan.
Proof. by_spec add_spec x. Qed.

(** *** Products and sums that are exact *)

Lemma mul_comm x y : x * y = y * x.
Proof.
  apply Prim2SF_inj. rewrite !mul_spec.
  destruct (Prim2SF x) as [sx|sx| |sx mx ex], (Prim2SF y) as [sy|sy| |sy my ey];
    try reflexivity; try (destruct sx, sy; reflexivity).
  unfold SF64mul, SFmul.
  rewrite (Pos.mul_comm mx my), (Z.add_comm ex ey), (Bool.xorb_comm sx sy).
  reflexivity.
Qed.

Lemma SFopp_round_aux prec emax s m e l :
  SFopp (binary_round_aux prec emax s m e l) = binary_round_aux prec emax (negb s) m e l.
Proof.
  unfold binary_round_aux.
  destruct (shr_fexp prec emax m e l) as [mrs e'].
  destruct (shr_fexp prec emax _ e' loc_Exact) as [mrs' e''].
  destruct (shr_m mrs'); [reflexivity| |reflexivity].
  destruct (e'' <=? emax - prec)%Z; reflexivity.
Qed.

Lemma mul_opp_r x y : x * (- y) = - (x * y).
Proof.
  apply Prim2SF_inj. rewrite opp_spec, !mul_spec, opp_spec.
  destruct (Prim2SF x) as [sx|sx| |sx mx ex], (Prim2SF y) as [sy|sy| |sy my ey];
    try reflexivity; try (destruct sx, sy; reflexivity).
  unfold SF64mul, SFmul. cbn [SFopp]. rewrite SFopp_round_aux.
  destruct sx, sy; reflexivity.
Qed.

Lemma opp_opp x : - - x = x.
Proof.
  apply Prim2SF_inj. rewrite !opp_spec.
  destruct (Prim2SF x) as [[]|[]| |[] ? ?]; reflexivity.
Qed.

(** a double that is neither [NaN] nor infinite *)
Lemma finite_cases p :
  PrimFloat.is_nan p = false -> PrimFloat.is_infinity p = false ->
  (exists s, Prim2SF p = S754_zero s) \/ (exists s m e, Prim2SF p = S754_finite s m e).
Proof.
  intros Hn Hi. unfold Prim2SF. rewrite Hn.
  destruct (PrimFloat.is_zero p); [left; by eexists|]. rewrite Hi.
  destruct (Z.frexp p) as [r ex].
  destruct (shr_fexp _ _ _ _ _) as [sh e'].
  destruct (shr_m sh); [left|right|left]; by repeat eexists.
Qed.

Lemma add_opp_l p :
  PrimFloat.is_nan p = false -> PrimFloat.is_infinity p = false -> - p + p = 0.
Proof.
  intros Hn Hi. apply Prim2SF_inj. rewrite add_spec, opp_spec.
  destruct (finite_cases p Hn Hi) as [[s ->]|(s & m & e & ->)].
  { destruct s; reflexivity. }
  unfold SF64add, SFadd. cbn [SFopp]. rewrite Z.min_id.
  replace (cond_Zopp (negb s) (Z.pos (fst (shl_align m e e)))
           + cond_Zopp s (Z.pos (fst (shl_align m e e))))%Z with 0%Z
    by (destruct s; cbn [negb cond_Zopp]; lia).
  reflexivity.
Qed.

Lemma add_opp_r p :
  PrimFloat.is_nan p = false -> PrimFloat.is_infinity p = false -> p + - p = 0.
Proof.
  intros Hn Hi. apply Prim2SF_inj. rewrite add_spec, opp_spec.
  destruct (finite_cases p Hn Hi) as [[s ->]|(s & m & e & ->)].
  { destruct s; reflexivity. }
  unfold SF64add, SFadd. cbn [SFopp]. rewrite Z.min_id.
  replace (cond_Zopp s (Z.pos (fst (shl_align m e e)))
           + cond_Zopp (negb s) (Z.pos (fst (shl_align m e e))))%Z with 0%Z
    by (destruct s; cbn [negb cond_Zopp]; lia).
  reflexivity.
Qed.

(** [2^52 * m], shifted right by 52 places, is [m], nothing lost *)
Lemma shr_52 m :
  SpecFloat.iter_pos shr_1 52 (shr_record_of_loc (Z.pos (4503599627370496 * m)) loc_Exact)
  = {| shr_m := Z.pos m; shr_r := false; shr_s := false |}.
Proof. vm_compute. reflexivity. Qed.

Lemma digits_52 m :
  (Zdigits2 (Z.pos (4503599627370496 * m)) = Zdigits2 (Z.pos m) + 52)%Z.
Proof.
  change (4503599627370496 * m)%positive with
   (m~0~0~0~0~0~0~0~0~0~0~0~0~0~0~0~0~0~0~0~0~0~0~0~0~0~0
     ~0~0~0~0~0~0~0~0~0~0~0~0~0~0~0~0~0~0~0~0~0~0~0~0~0~0)%positive.
  cbn [Zdigits2 digits2_pos]. lia.
Qed.

(** [negate * x] in [Vector.perp], [negate] being [1] *)
Lemma mul_1_l x : 1 * x = x.
Proof.
  apply Prim2SF_inj. rewrite mul_spec.
  pose proof (Prim2SF_valid x) as Hv.
  change (Prim2SF 1) with (S754_finite false 4503599627370496 (-52)).
  destruct (Prim2SF x) as [s|s| |s m e]; try reflexivity.
  unfold valid_binary, bounded, canonical_mantissa in Hv.
  apply andb_prop in Hv as [Hc He].
  apply Z.eqb_eq in Hc.
  unfold SF64mul, SFmul. cbn [xorb].
  unfold binary_round_aux.
  unfold shr_fexp at 1.
  rewrite digits_52.
  replace (Zdigits2 (Z.pos m) + 52 + (-52 + e))%Z with (Z.pos (digits2_pos m) + e)%Z
    by (cbn [Zdigits2]; lia).
  rewrite Hc.
  replace (e - (-52 + e))%Z with 52%Z by lia.
  unfold shr. rewrite shr_52.
  cbn [shr_m loc_of_shr_record shr_r shr_s round_nearest_even].
  unfold shr_fexp. cbn [Zdigits2].
  replace (-52 + e + 52)%Z with e by lia.
  rewrite Hc, Z.sub_diag. cbn [shr shr_record_of_loc shr_m].
  rewrite He. reflexivity.
Qed.

Lemma mul_1_r x : x * 1 = x.
Proof. by rewrite mul_comm, mul_1_l. Qed.

Lemma mul_neg1_r x : x * (-1) = - x.
Proof.
  replace (-1)%float with (- (1))%float by reflexivity.
  by rewrite mul_opp_r, mul_1_r.
Qed.

Lemma sub_nan_l x : nan - x = nan.
Proof. by_spec sub_spec x. Qed.

Lemma div_nan_r x : x / nan = nan.
Proof. by_spec div_spec x. Qed.

Lemma ltb_nan_r x : (x <? nan) = false.
Proof. rewrite ltb_spec. destruct (Prim2SF x) as [[]|[]| |[] ? ?]; reflexivity. Qed.

Lemma leb_nan_r x : (x <=? nan) = false.
Proof. rewrite leb_spec. destruct (Prim2SF x) as [[]|[]| |[] ? ?]; reflexivity. Qed.

Lemma neg_infinity_add x : neg_infinity + x = neg_infinity \/ neg_infinity + x = nan.
Proof.
  destruct (Prim2SF x) as [[]|[]| |[] ? ?] eqn:E;
    [left|left|left|right|right|left|left];
    apply Prim2SF_inj; rewrite add_spec, E; reflexivity.
Qed.

Lemma infinity_sub x : infinity - x = infinity \/ infinity - x = nan.
Proof.
  destruct (Prim2SF x) as [[]|[]| |[] ? ?] eqn:E;
    [left|left|left|right|right|left|left];
    apply Prim2SF_inj; rewrite sub_spec, E; reflexivity.
Qed.

(** two doubles with different bit patterns are different *)
Lemma neq_by_bits x y : Prim2SF x <> Prim2SF y -> x <> y.
Proof. intros H ->. by apply H. Qed.

(** the mantissa of a double has as many bits as its digit count says *)
Lemma digits2_bounds (m : positive) :
  (2 ^ (Z.pos (digits2_pos m) - 1) <= Z.pos m < 2 ^ Z.pos (digits2_pos m))%Z.
Proof.
  induction m as [m IH|m IH|]; simpl digits2_pos; [| |simpl; lia].
  all: rewrite Pos2Z.inj_succ;
    replace (Z.succ (Z.pos (digits2_pos m)) - 1)%Z with (Z.succ (Z.pos (digits2_pos m) - 1))%Z
      by lia;
    rewrite !Z.pow_succ_r by lia; lia.
Qed.

(** a double that is not [NaN] does not convert to [S754_nan] *)
Lemma not_nan_spec v : is_nan v = false -> Prim2SF v <> S754_nan.
Proof.
  intros Hn. unfold Prim2SF. rewrite Hn.
  destruct (is_zero v); [discriminate|].
  destruct (is_infinity v); [discriminate|].
  destruct (Z.frexp v) as [r ex].
  destruct (shr_fexp _ _ _ _ _) as [sh e'].
  destruct (shr_m sh); discriminate.
Qed.

(** [<] on two positive finite doubles, read on exponents and mantissas *)
Lemma SFltb_finite_false m1 e1 m2 e2 :
  SFltb (S754_finite false m1 e1) (S754_finite false m2 e2) = false ->
  (e2 < e1)%Z \/ (e1 = e2 /\ (Z.pos m2 <= Z.pos m1)%Z).
Proof.
  unfold SFltb, SFcompare.
  destruct (Z.compare_spec e1 e2) as [He|He|He]; [|discriminate|lia].
  rewrite Pos.compare_cont_spec. simpl.
  destruct (Pos.compare_spec m1 m2) as [Hc|Hc|Hc]; [lia|discriminate|lia].
Qed.

(** the doubles between 12 and 20: sign, exponent and mantissa *)
Lemma between_12_and_20 v s m e :
  Prim2SF v = S754_finite s m e ->
  (v <? 12) = false -> (20 <? v) = false ->
  s = false
  /\ ((e = -49 /\ 6755399441055744 <= Z.pos m < 9007199254740992)
      \/ (e = -48 /\ 4503599627370496 <= Z.pos m <= 5629499534213120))%Z.
Proof.
  intros E Hlo Hhi.
  pose proof (Prim2SF_valid v) as Hval. rewrite E in Hval.
  unfold valid_binary, bounded in Hval.
  apply andb_true_iff in Hval as [Hcan _].
  unfold canonical_mantissa, fexp in Hcan. apply Z.eqb_eq in Hcan.
  pose proof (digits2_bounds m) as Hdig.
  rewrite ltb_spec, E in Hlo. rewrite ltb_spec, E in Hhi.
  assert (H12 : Prim2SF 12 = S754_finite false 6755399441055744 (-49)) by (vm_compute; reflexivity).
  assert (H20 : Prim2SF 20 = S754_finite false 5629499534213120 (-48)) by (vm_compute; reflexivity).
  rewrite H12 in Hlo. rewrite H20 in Hhi. clear H12 H20 E.
  destruct s; [discriminate Hlo|]. split; [done|].
  apply SFltb_finite_false in Hlo, Hhi.
  assert (P53 : (2 ^ 53 = 9007199254740992)%Z) by (vm_compute; reflexivity).
  assert (P52 : (2 ^ (53 - 1) = 4503599627370496)%Z) by (vm_compute; reflexivity).
  assert (He : (e = -49 \/ e = -48)%Z) by lia.
  assert (Hd : Z.pos (digits2_pos m) = 53%Z)
    by (unfold emin, prec, emax in Hcan; lia).
  rewrite Hd, P53, P52 in Hdig. clear P53 P52 Hcan Hd.
  lia.
Qed.

(** the integers 12..20 as doubles *)
Lemma of_Z_small (n : Z) :
  (12 <= n <= 20)%Z -> JSNum.of_Z false n = JSNum.of_nat (Z.to_nat n).
Proof.
  intros Hn.
  assert (n = 12 \/ n = 13 \/ n = 14 \/ n = 15 \/ n = 16 \/ n = 17 \/ n = 18
          \/ n = 19 \/ n = 20)%Z as Hcases by lia.
  repeat (destruct Hcases as [->|Hcases]; [reflexivity|]). by subst.
Qed.

(** [Math.ceil] of a double between 12 and 20 *)
Lemma ceil_between v s m e :
  Prim2SF v = S754_finite s m e ->
  (v <? 12) = false -> (20 <? v) = false ->
  exists n : nat, (12 <= n <= 20)%nat /\ JSNum.Math_ceil v = JSNum.of_nat n.
Proof.
  intros E Hlo Hhi. unfold JSNum.Math_ceil. rewrite E.
  destruct (between_12_and_20 v s m e E Hlo Hhi) as [-> [[-> Hm]|[-> Hm]]].
  - assert (P : (2 ^ 49 = 562949953421312)%Z) by (vm_compute; reflexivity).
    cbn [Z.leb Z.compare JSNum.signed].
    change (- (-49))%Z with 49%Z. rewrite P.
    set (n := (- (- Z.pos m / 562949953421312))%Z).
    assert (12 <= n <= 16)%Z.
    { pose proof (Z.div_mod (- Z.pos m) 562949953421312 ltac:(lia)).
      pose proof (Z.mod_pos_bound (- Z.pos m) 562949953421312 ltac:(lia)).
      unfold n. clear - Hm H H0. lia. }
    exists (Z.to_nat n). split; [lia|]. apply of_Z_small. lia.
  - assert (P : (2 ^ 48 = 281474976710656)%Z) by (vm_compute; reflexivity).
    cbn [Z.leb Z.compare JSNum.signed].
    change (- (-48))%Z with 48%Z. rewrite P.
    set (n := (- (- Z.pos m / 281474976710656))%Z).
    assert (16 <= n <= 20)%Z.
    { pose proof (Z.div_mod (- Z.pos m) 281474976710656 ltac:(lia)).
      pose proof (Z.mod_pos_bound (- Z.pos m) 281474976710656 ltac:(lia)).
      unfold n. clear - Hm H H0. lia. }
    exists (Z.to_nat n). split; [lia|]. apply of_Z_small. lia.
Qed.

(** [Math.ceil(Common.clamp(v, 12, 20))] is one of the integers 12..20,
    for every [v] but [NaN] *)
Lemma ceil_clamp_range v :
  is_nan v = false ->
  exists n : nat, (12 <= n <= 20)%nat
    /\ JSNum.Math_ceil (JSNum.clamp v 12 20) = JSNum.of_nat n.
Proof.
  intros Hn. unfold JSNum.clamp.
  destruct (v <? 12) eqn:Hlo; [exists 12%nat; split; [lia|reflexivity]|].
  destruct (20 <? v) eqn:Hhi; [exists 20%nat; split; [lia|reflexivity]|].
  destruct (Prim2SF v) as [sz|si| |s m e] eqn:E.
  - rewrite ltb_spec, E in Hlo. by destruct sz.
  - rewrite ltb_spec, E in Hlo. rewrite ltb_spec, E in Hhi. by destruct si.
  - by apply not_nan_spec in Hn.
  - by apply (ceil_between v s m e).
Qed.

End FloatFacts.

(** ** The viewport fit *)

Section LookAtFacts.
Local Open Scope float_scope.
Import LookAt FloatFacts.

Lemma grow_nothing acc o : exposes_nothing o -> grow acc o = acc.
Proof.
  intros (Hb & Hmin & Hmax & Hpos & Hx & Hy).
  unfold grow, obj_min, obj_max, as_point.
  rewrite Hb, Hmin, Hmax, Hpos, Hx, Hy. simpl. by destruct acc as [[] []].
Qed.

Lemma union_box_nothing objects :
  Forall exposes_nothing objects -> union_box objects = empty_box.
Proof.
  unfold union_box. generalize empty_box.
  induction objects as [|o os IH]; intros acc Hall; [done|].
  inversion Hall; subst. simpl. rewrite grow_nothing by done. by apply IH.
Qed.

Lemma fit_empty_box cv padding center :
  let b := fit_box cv empty_box padding center in
  (vx (bmin b) = infinity \/ vx (bmin b) = nan)
  /\ (vy (bmin b) = infinity \/ vy (bmin b) = nan)
  /\ vx (bmax b) = nan /\ vy (bmax b) = nan.
Proof.
  unfold fit_box, empty_box. cbn [vx vy bmin bmax].
  change (neg_infinity - infinity) with neg_infinity.
  destruct (neg_infinity_add (2 * vx padding)) as [-> | ->],
           (neg_infinity_add (2 * vy padding)) as [-> | ->];
    cbn; rewrite ?ltb_nan_r, ?div_nan_r; cbn.
  all: destruct center; cbn; rewrite ?sub_nan_l; auto using infinity_sub.
Qed.

Lemma non_finite_cases x : x = infinity \/ x = nan -> non_finite x.
Proof. by intros [-> | ->]. Qed.

(** C10. Given no object, or only objects without [bounds], [min],
    [max], [position], [x] or [y], [Render.lookAt] still turns
    [options.hasBounds] on and leaves four non-finite numbers in
    [render.bounds] ([NaN] for both maxima), so that neither
    [max.x >= min.x] nor [max.y >= min.y] holds afterwards, whatever
    the canvas, the padding and [center] are. *)
Theorem lookAt_nothing_breaks_view r objects padding center :
  Forall exposes_nothing objects ->
  let r' := lookAt r objects padding center in
  let b := bounds r' in
  flag (options r') "hasBounds" = true
  /\ (non_finite (vx (bmin b)) /\ non_finite (vy (bmin b))
      /\ non_finite (vx (bmax b)) /\ non_finite (vy (bmax b)))
  /\ (vx (bmin b) <=? vx (bmax b)) = false
  /\ (vy (bmin b) <=? vy (bmax b)) = false
  /\ view_ok b = false.
Proof.
  intros Hall. cbn zeta.
  assert (Hb : bounds (lookAt r objects padding center)
               = fit_box (canvas r) empty_box
                   (default (mkVec 0 0) padding) (default true center)).
  { unfold lookAt, fit. by rewrite union_box_nothing. }
  rewrite Hb.
  destruct (fit_empty_box (canvas r) (default (mkVec 0 0) padding)
              (default true center)) as (Hx & Hy & HX & HY).
  split; [by unfold lookAt, flag; cbn; rewrite lookup_insert_eq|].
  unfold view_ok. rewrite HX, HY, !leb_nan_r.
  repeat split; auto using non_finite_cases.
Qed.

(** the claim at a concrete input: an object with no usable field *)
Lemma lookAt_nothing_breaks_view_witness :
  Forall exposes_nothing [mkLookObject None None None None None None]
  /\ view_ok (bounds (lookAt (render_800x600 None None ∅)
                        [mkLookObject None None None None None None] None None))
     = false.
Proof.
  split; [by repeat constructor|].
  apply (lookAt_nothing_breaks_view (render_800x600 None None ∅)
           [mkLookObject None None None None None None] None None).
  by repeat constructor.
Defined.

(** what [Render.lookAt] leaves in [render.bounds] for the two boxes *)
Lemma lookAt_two_boxes_bounds r :
  cv_width (canvas r) = 800 -> cv_height (canvas r) = 600 ->
  bounds (lookAt r two_boxes (Some (mkVec 0 0)) (Some true))
  = mkBounds (mkVec (-0x1.0aaaaaaaaaaa8p+4) 0) (mkVec 0x1.d2aaaaaaaaaaap+6 100).
Proof.
  intros Hw Hh. unfold lookAt, fit, fit_box. cbn [bounds set_bounds set_mouse].
  unfold canvas in *. cbn [layer set_options]. rewrite Hw, Hh. reflexivity.
Qed.

(** C3, as stated, fails: on an 800 by 600 canvas the width/height
    ratio of the fitted bounds, computed in doubles, is not [800/600]. *)
Lemma lookAt_two_boxes_ratio_differs :
  ratio (bounds (lookAt (render_800x600 None None ∅) two_boxes
                   (Some (mkVec 0 0)) (Some true)))
  <> 800 / 600.
Proof. apply neq_by_bits. vm_compute. discriminate. Qed.

(** C3, amended. Fitting the viewport to the boxes (0,0)-(10,10) and
    (90,90)-(100,100) with zero padding and [center = true] on an 800
    by 600 canvas gives bounds whose midpoint is exactly (50,50), the
    midpoint of the union box (0,0)-(100,100), whose height is exactly
    100 and whose width is exactly the double [100 * (800/600)]. The
    quotient width/height, rounded once more, is the double just below
    [800/600]: the ratio is the target ratio up to one rounding step,
    not bit for bit. *)
Theorem lookAt_two_boxes r :
  cv_width (canvas r) = 800 -> cv_height (canvas r) = 600 ->
  let b := bounds (lookAt r two_boxes (Some (mkVec 0 0)) (Some true)) in
  union_box two_boxes = mkBounds (mkVec 0 0) (mkVec 100 100)
  /\ midpoint b = (50, 50)
  /\ midpoint b = midpoint (union_box two_boxes)
  /\ vx (bmax b) - vx (bmin b) = 100 * (800 / 600)
  /\ vy (bmax b) - vy (bmin b) = 100
  /\ ratio b = next_down (800 / 600)
  /\ ratio b = 0x1.5555555555554p+0
  /\ 800 / 600 = 0x1.5555555555555p+0.
Proof.
  intros Hw Hh. cbn zeta. rewrite lookAt_two_boxes_bounds by done.
  repeat split; reflexivity.
Qed.

Lemma lookAt_two_boxes_witness :
  cv_width (canvas (render_800x600 None None ∅)) = 800
  /\ cv_height (canvas (render_800x600 None None ∅)) = 600
  /\ midpoint (bounds (lookAt (render_800x600 None None ∅) two_boxes
                         (Some (mkVec 0 0)) (Some true))) = (50, 50).
Proof.
  split; [reflexivity|]. split; [reflexivity|].
  apply (lookAt_two_boxes (render_800x600 None None ∅)); reflexivity.
Defined.

End LookAtFacts.

(** ** The node cache of the main pass *)

Section NodeCache.
Import MainPass.

Implicit Types (p : Part) (nodes : list Node) (n : nat).

Lemma fade_spriteNode sh sl n p nodes : spriteNode (fade sh sl n p nodes).1 = spriteNode p.
Proof. unfold fade. by repeat case_match. Qed.

Lemma fade_length sh sl n p nodes : length (fade sh sl n p nodes).2 = length nodes.
Proof. unfold fade. repeat case_match; simpl; by rewrite ?length_alter. Qed.

Lemma fade_other sh sl n p nodes m : n ≠ m -> (fade sh sl n p nodes).2 !! m = nodes !! m.
Proof.
  intros Hne. unfold fade. repeat case_match; simpl; by rewrite ?list_lookup_alter_ne.
Qed.

Lemma fade_pose sh sl n p nodes : pose_at (fade sh sl n p nodes).2 n = pose_at nodes n.
Proof.
  unfold fade, pose_at.
  repeat case_match; simpl in *; simplify_eq; try done.
  all: rewrite list_lookup_alter_eq in *; destruct (nodes !! n); simplify_eq/=; done.
Qed.

Lemma fade_kind sh sl n p nodes : n_kind <$> (fade sh sl n p nodes).2 !! n = n_kind <$> nodes !! n.
Proof.
  unfold fade. repeat case_match; simpl; rewrite ?list_lookup_alter_eq; try done.
  all: by destruct (nodes !! n).
Qed.

Lemma apply_sprite_attrs_length p n nodes : length (apply_sprite_attrs p n nodes) = length nodes.
Proof. unfold apply_sprite_attrs. repeat case_match; by rewrite ?length_alter. Qed.

Lemma apply_sprite_attrs_other p n nodes m :
  n ≠ m -> apply_sprite_attrs p n nodes !! m = nodes !! m.
Proof.
  intros. unfold apply_sprite_attrs. repeat case_match; by rewrite ?list_lookup_alter_ne.
Qed.

Lemma apply_sprite_attrs_eq p n nodes :
  apply_sprite_attrs p n nodes = alter (node_attr (user_attrs p)) n nodes.
Proof.
  unfold apply_sprite_attrs, user_attrs.
  destruct (sprite (p_render p)) as [sp|]; simpl; [destruct (sp_attrs sp); simpl|]; try done.
  all: symmetry; apply list_alter_id; intros [k [? ? ? ?]];
    unfold node_attr, attr_merge; simpl; by rewrite (left_id_L ∅ (∪)).
Qed.

Lemma bodies_node_cached p nodes n :
  spriteNode p = Some n ->
  bodies_node p nodes = Ok (n, p, alter (node_attr (pose p)) n nodes).
Proof. unfold bodies_node. by intros ->. Qed.

Lemma wireframes_node_cached opts p nodes n :
  spriteNode p = Some n ->
  wireframes_node opts p nodes = Ok (n, p, alter (node_attr (pose p)) n nodes).
Proof. unfold wireframes_node. by intros ->. Qed.

Lemma sprite_attrs_posed sp p : posed p (sprite_attrs sp p).
Proof. unfold sprite_attrs. by repeat case_match. Qed.

Lemma bodies_node_new p nodes :
  spriteNode p = None -> vertices p ≠ [] ->
  exists k a, bodies_node p nodes
              = Ok (length nodes, set_spriteNode (length nodes) p, nodes ++ [mkNode k a])
              /\ posed p a.
Proof.
  intros Hc Hv. unfold bodies_node, create. rewrite Hc.
  destruct (is_textured p) eqn:Ht.
  - unfold is_textured in Ht. destruct (sprite (p_render p)) as [sp|]; [|done].
    eexists _, _. split; [done|]. apply sprite_attrs_posed.
  - destruct (JSNum.truthy (circleRadius p)).
    + by eexists _, _.
    + unfold first_vertex. destruct (vertices p) as [|v0 vs]; [done|].
      by eexists _, _.
Qed.

Lemma wireframes_node_new opts p nodes :
  spriteNode p = None -> vertices p ≠ [] ->
  exists k a, wireframes_node opts p nodes
              = Ok (length nodes, set_spriteNode (length nodes) p, nodes ++ [mkNode k a])
              /\ posed p a.
Proof.
  intros Hc Hv. unfold wireframes_node, create, first_vertex. rewrite Hc.
  destruct (vertices p) as [|v0 vs]; [done|]. by eexists _, _.
Qed.

(** the changes after the node is found or made keep the layer's shape *)
Lemma finish_in_place sh sl n p nodes (touch : list Node -> list Node) :
  (forall l, length (touch l) = length l) ->
  (forall l m, n ≠ m -> touch l !! m = l !! m) ->
  (forall l, n_kind <$> touch l !! n = n_kind <$> l !! n) ->
  let r := fade sh sl n p (touch nodes) in
  spriteNode r.1 = spriteNode p
  /\ length r.2 = length nodes
  /\ (forall m, m ≠ n -> r.2 !! m = nodes !! m)
  /\ n_kind <$> r.2 !! n = n_kind <$> nodes !! n.
Proof.
  intros Hlen Hoth Hkind. cbn zeta.
  rewrite fade_spriteNode, fade_length, Hlen, fade_kind, Hkind.
  repeat split. intros m Hm. rewrite fade_other, Hoth; done.
Qed.

Lemma alter_attr_kind a n nodes :
  n_kind <$> alter (node_attr a) n nodes !! n = n_kind <$> nodes !! n.
Proof. rewrite list_lookup_alter_eq. by destruct (nodes !! n). Qed.

Lemma step_ok_new p nodes p' nodes' new :
  spriteNode p = None ->
  spriteNode p' = Some (length nodes) ->
  length nodes' = length (nodes ++ [new]) ->
  (forall m, m ≠ length nodes -> nodes' !! m = (nodes ++ [new]) !! m) ->
  step_ok p nodes p' nodes'.
Proof.
  intros Hc Hc' Hlen Hoth. unfold step_ok. rewrite Hc. right.
  rewrite length_app in Hlen. simpl in Hlen.
  split; [done|]. split; [lia|].
  apply list_eq. intros m. destruct (decide (m < length nodes)) as [Hm|Hm].
  - rewrite lookup_take_lt by done. rewrite Hoth by lia. by rewrite lookup_app_l.
  - rewrite lookup_take_ge by lia. symmetry. apply lookup_ge_None. lia.
Qed.

Lemma bodies_part_ok opts sl p nodes :
  (spriteNode p = None -> vertices p ≠ []) ->
  exists p' nodes', bodies_part opts sl p nodes = Ok (p', nodes')
                    /\ step_ok p nodes p' nodes'.
Proof.
  intros Hv. unfold bodies_part.
  destruct (visible (p_render p)); simpl.
  2:{ eexists _, _. split; [done|]. unfold step_ok.
      destruct (spriteNode p) eqn:Hc; [|by left]. done. }
  destruct (spriteNode p) as [n|] eqn:Hc.
  - rewrite (bodies_node_cached _ _ n) by done. simpl.
    rewrite apply_sprite_attrs_eq.
    eexists _, _. split; [by apply f_equal, surjective_pairing|].
    unfold step_ok. rewrite Hc, <- Hc.
    apply (finish_in_place (flag opts "showSleeping") sl n p nodes
      (fun l => alter (node_attr (user_attrs p)) n (alter (node_attr (pose p)) n l))).
    + intros. by rewrite !length_alter.
    + intros. by rewrite !list_lookup_alter_ne.
    + intros. by rewrite !alter_attr_kind.
  - destruct (bodies_node_new p nodes Hc (Hv eq_refl)) as (k & a & -> & _). simpl.
    rewrite apply_sprite_attrs_eq.
    eexists _, _. split; [by apply f_equal, surjective_pairing|].
    apply (step_ok_new _ _ _ _ (mkNode k a)); [done|..].
    + by rewrite fade_spriteNode.
    + by rewrite fade_length, length_alter.
    + intros m Hm. by rewrite fade_other, list_lookup_alter_ne.
Qed.

Lemma wireframes_part_ok opts sl p nodes :
  (spriteNode p = None -> vertices p ≠ []) ->
  exists p' nodes', wireframes_part opts sl p nodes = Ok (p', nodes')
                    /\ step_ok p nodes p' nodes'.
Proof.
  intros Hv. unfold wireframes_part.
  destruct (spriteNode p) as [n|] eqn:Hc.
  - rewrite (wireframes_node_cached _ _ _ n) by done. simpl.
    eexists _, _. split; [by apply f_equal, surjective_pairing|].
    unfold step_ok. rewrite Hc, <- Hc.
    apply (finish_in_place (flag opts "showSleeping") sl n p nodes
      (fun l => alter (node_attr (pose p)) n l)).
    + intros. by rewrite !length_alter.
    + intros. by rewrite !list_lookup_alter_ne.
    + intros. by rewrite !alter_attr_kind.
  - destruct (wireframes_node_new opts p nodes Hc (Hv eq_refl)) as (k & a & -> & _). simpl.
    eexists _, _. split; [by apply f_equal, surjective_pairing|].
    apply (step_ok_new _ _ _ _ (mkNode k a)); [done|..].
    + by rewrite fade_spriteNode.
    + by rewrite fade_length.
    + intros m Hm. by rewrite fade_other.
Qed.

Lemma frame_part_ok opts sl p nodes :
  (spriteNode p = None -> vertices p ≠ []) ->
  exists p' nodes', frame_part opts sl p nodes = Ok (p', nodes')
                    /\ step_ok p nodes p' nodes'.
Proof.
  unfold frame_part. destruct (negb _); eauto using bodies_part_ok, wireframes_part_ok.
Qed.

Lemma step_ok_wf p nodes p' nodes' :
  cache_wf p nodes -> step_ok p nodes p' nodes' -> cache_wf p' nodes'.
Proof.
  unfold cache_wf, step_ok. intros Hwf Hs n Hn.
  destruct (spriteNode p) as [n0|] eqn:Hc.
  - destruct Hs as (Hc' & Hlen & _). rewrite Hc' in Hn. simplify_eq.
    rewrite Hlen. by apply Hwf.
  - destruct Hs as [[Hc' ->]|(Hc' & Hlen & _)]; rewrite Hc' in Hn; simplify_eq. lia.
Qed.

Lemma step_ok_untouched p nodes p' nodes' m :
  step_ok p nodes p' nodes' -> m < length nodes -> spriteNode p ≠ Some m ->
  nodes' !! m = nodes !! m /\ spriteNode p' ≠ Some m.
Proof.
  unfold step_ok. intros Hs Hm Hne.
  destruct (spriteNode p) as [n0|] eqn:Hc.
  - destruct Hs as (Hc' & _ & Hoth & _). rewrite Hc'. split; [|done].
    apply Hoth. congruence.
  - destruct Hs as [[Hc' ->]|(Hc' & Hlen & Htake)]; rewrite Hc'; split; try done.
    + rewrite <- (lookup_take_lt nodes' (length nodes) m) by done. by rewrite Htake.
    + intros [= Heq]. lia.
Qed.

Lemma lifetime_spec frames : forall p nodes,
  cache_wf p nodes -> Forall has_vertices frames ->
  exists p' nodes' k,
    lifetime frames p nodes = Ok (p', nodes', k)
    /\ k <= 1
    /\ (forall n, spriteNode p = Some n -> k = 0 /\ spriteNode p' = Some n)
    /\ length nodes' = length nodes + others_count frames + k
    /\ (forall m, m < length nodes -> spriteNode p ≠ Some m -> nodes' !! m = nodes !! m).
Proof.
  induction frames as [|f fs IH]; intros p nodes Hwf Hall.
  { exists p, nodes, 0. simpl. split_and!; auto with lia. }
  inversion Hall as [|? ? Hf Hfs]; subst. simpl.
  set (nodes0 := nodes ++ fi_others f).
  set (q := carry p (fi_part f)).
  assert (Hq : spriteNode q = spriteNode p) by done.
  assert (Hwf0 : cache_wf q nodes0).
  { intros n Hn. rewrite Hq in Hn. apply Hwf in Hn.
    unfold nodes0. rewrite length_app. lia. }
  destruct (frame_part_ok (fi_options f) (fi_sleeping f) q nodes0)
    as (p1 & nodes1 & Hstep1 & Hs); [done|].
  pose proof (step_ok_wf _ _ _ _ Hwf0 Hs) as Hwf1.
  destruct (IH p1 nodes1 Hwf1 Hfs) as (p' & nodes' & k & Hrest & Hk & Hkeep & Hlen & Hun).
  rewrite Hstep1. cbn [mbind exc_bind]. rewrite Hrest. cbn [mbind exc_bind].
  eexists _, _, _. split; [done|].
  assert (Hlen0 : length nodes0 = length nodes + length (fi_others f))
    by (unfold nodes0; by rewrite length_app).
  assert (Hstep :
    (exists n, spriteNode p = Some n /\ spriteNode p1 = Some n
               /\ length nodes1 = length nodes0)
    \/ (spriteNode p = None /\ spriteNode p1 = None /\ nodes1 = nodes0)
    \/ (spriteNode p = None /\ spriteNode p1 = Some (length nodes0)
        /\ length nodes1 = S (length nodes0))).
  { unfold step_ok in Hs. rewrite Hq in Hs.
    destruct (spriteNode p) as [n|]; [left; exists n; tauto|right].
    destruct Hs as [[? ?]|(? & ? & ?)]; [left|right]; done. }
  split; [|split; [|split]].
  - destruct Hstep as [(n & _ & Hc1 & Hl)|[(_ & _ & ->)|(_ & Hc1 & Hl)]].
    + destruct (Hkeep n Hc1) as [-> _]. lia.
    + lia.
    + destruct (Hkeep _ Hc1) as [-> _]. lia.
  - intros n Hn.
    destruct Hstep as [(n' & Hc & Hc1 & Hl)|[(Hc & _)|(Hc & _)]]; [|congruence..].
    rewrite Hn in Hc. simplify_eq. destruct (Hkeep _ Hc1) as [-> ?]. split; [lia|done].
  - unfold others_count in *. simpl.
    destruct Hstep as [(n & _ & _ & Hl)|[(_ & _ & ->)|(_ & _ & Hl)]]; lia.
  - intros m Hm Hne.
    assert (Hm0 : m < length nodes0) by lia.
    destruct (step_ok_untouched _ _ _ _ m Hs Hm0) as [H1 H2]; [by rewrite Hq|].
    rewrite Hun, H1; [|by apply lookup_lt_is_Some; rewrite H1; apply lookup_lt_is_Some|done].
    unfold nodes0. by rewrite lookup_app_l.
Qed.

Lemma node_attr_pose_only p s :
  node_attr (pose p) s
  = mkNode (n_kind s)
      (mkAttrs (Some (pos_of (position p))) (Some (rotate_of (angle p)))
         (a_opacity (n_attrs s)) (a_rest (n_attrs s))).
Proof.
  destruct s as [k [? ? ? ?]]. unfold node_attr, attr_merge. simpl.
  by rewrite (left_id_L ∅ (∪)).
Qed.

Lemma fade_idle_id opts sl n p nodes :
  fade_idle opts sl p -> fade (flag opts "showSleeping") sl n p nodes = (p, nodes).
Proof.
  unfold fade_idle, fade. intros ->. by destruct (has_fullOpacity p).
Qed.

Lemma set_fullOpacity_id p fo : fullOpacity p = fo -> set_fullOpacity fo p = p.
Proof. destruct p. simpl. by intros <-. Qed.

Lemma alter_insert (f : Node -> Node) n nodes s :
  nodes !! n = Some s -> alter f n nodes = <[n := f s]> nodes.
Proof.
  revert n. induction nodes as [|x nodes IH]; intros [|n] Hs; simplify_eq/=; [done|].
  by rewrite (IH n Hs).
Qed.

Lemma node_attr_set_opacity o s :
  node_attr (set_opacity o) s
  = mkNode (n_kind s)
      (mkAttrs (a_pos (n_attrs s)) (a_rotate (n_attrs s)) (Some o) (a_rest (n_attrs s))).
Proof.
  destruct s as [k [? ? ? ?]]. unfold node_attr, attr_merge. simpl.
  by rewrite (left_id_L ∅ (∪)).
Qed.

(** the fade on a node that is on the layer *)
Lemma fade_cached sh sl n p nodes s :
  nodes !! n = Some s ->
  fade sh sl n p nodes
  = (set_fullOpacity (fullOpacity_after (sh && sl) p (a_opacity (n_attrs s))) p,
     <[n := mkNode (n_kind s)
              (mkAttrs (a_pos (n_attrs s)) (a_rotate (n_attrs s))
                 (opacity_after (sh && sl) p (a_opacity (n_attrs s)))
                 (a_rest (n_attrs s)))]> nodes).
Proof.
  intros Hs.
  assert (Hid : forall o, o = a_opacity (n_attrs s) ->
    <[n := mkNode (n_kind s)
             (mkAttrs (a_pos (n_attrs s)) (a_rotate (n_attrs s)) o
                (a_rest (n_attrs s)))]> nodes = nodes).
  { intros o ->. apply list_insert_id. rewrite Hs. by destruct s as [k [? ? ? ?]]. }
  unfold fade, fullOpacity_after, opacity_after, stored_opacity, has_fullOpacity, opacity_at.
  rewrite Hs. cbn [from_option].
  destruct (sh && sl); destruct (fullOpacity p) as [f|] eqn:Hf;
    [destruct (JSNum.truthy f)|..|destruct (JSNum.truthy f)|]; cbn [negb default];
    rewrite ?(alter_insert _ _ _ _ Hs), ?node_attr_set_opacity,
      ?(set_fullOpacity_id p _ Hf), ?Hid by done; done.
Qed.

Lemma wireframes_part_cached opts sl p nodes n s :
  spriteNode p = Some n -> nodes !! n = Some s ->
  wireframes_part opts sl p nodes
  = Ok (set_fullOpacity
          (fullOpacity_after (flag opts "showSleeping" && sl) p (a_opacity (n_attrs s))) p,
        <[n := wire_update (flag opts "showSleeping" && sl) p s]> nodes).
Proof.
  intros Hc Hs. unfold wireframes_part.
  rewrite (wireframes_node_cached _ _ _ n) by done. cbn [mbind exc_bind].
  rewrite (alter_insert _ _ _ _ Hs), node_attr_pose_only.
  erewrite fade_cached by (apply list_lookup_insert_eq; by eapply lookup_lt_Some).
  cbn [n_kind n_attrs a_pos a_rotate a_opacity a_rest].
  by rewrite list_insert_insert_eq.
Qed.

Lemma node_attr_user p s :
  node_attr (user_attrs p) (node_attr (pose p) s)
  = mkNode (n_kind s)
      (mkAttrs (first_of (a_pos (user_attrs p)) (Some (pos_of (position p))))
         (first_of (a_rotate (user_attrs p)) (Some (rotate_of (angle p))))
         (first_of (a_opacity (user_attrs p)) (a_opacity (n_attrs s)))
         (a_rest (user_attrs p) ∪ a_rest (n_attrs s))).
Proof.
  rewrite node_attr_pose_only. unfold node_attr, attr_merge, first_of.
  cbn [n_kind n_attrs a_pos a_rotate a_opacity a_rest]. done.
Qed.

Lemma bodies_part_cached opts sl p nodes n s :
  spriteNode p = Some n -> nodes !! n = Some s ->
  visible (p_render p) = true ->
  bodies_part opts sl p nodes
  = Ok (set_fullOpacity
          (fullOpacity_after (flag opts "showSleeping" && sl) p
             (first_of (a_opacity (user_attrs p)) (a_opacity (n_attrs s)))) p,
        <[n := bodies_update (flag opts "showSleeping" && sl) p s]> nodes).
Proof.
  intros Hc Hs Hvis. unfold bodies_part. rewrite Hvis. cbn [negb].
  rewrite (bodies_node_cached _ _ n) by done. cbn [mbind exc_bind].
  assert (Hlt : n < length nodes) by by eapply lookup_lt_Some.
  rewrite apply_sprite_attrs_eq, (alter_insert _ _ _ _ Hs).
  erewrite alter_insert by by apply list_lookup_insert_eq.
  rewrite list_insert_insert_eq, node_attr_user.
  erewrite fade_cached by (apply list_lookup_insert_eq; by eapply lookup_lt_Some).
  cbn [n_kind n_attrs a_pos a_rotate a_opacity a_rest].
  by rewrite list_insert_insert_eq.
Qed.

(** C1, as stated, fails: on a frame where the part has its node
    already, more than [pos] and [rotate] may be written. In wireframe
    mode the frame on which the body is first seen asleep writes
    [opacity]; [Render.bodies] writes the part's [sprite.attrs] on every
    frame. In both cases no node is added. *)
Lemma cached_frame_writes_more_than_the_pose :
  wireframes_part (Frame.default_options false) true
    (set_spriteNode 0 (polygon_at 1 2 0))
    [posed_node KPath 1 2 0 None]
  = Ok (set_fullOpacity (Some 1%float) (set_spriteNode 0 (polygon_at 1 2 0)),
        [posed_node KPath 1 2 0 (Some 0.5%float)])
  /\ bodies_part shaded false
       (set_spriteNode 0 (textured_with_opacity 0.3))
       [posed_node KSprite 5 5 0 None]
     = Ok (set_spriteNode 0 (textured_with_opacity 0.3),
           [posed_node KSprite 5 5 0 (Some 0.3%float)]).
Proof. split; vm_compute; reflexivity. Qed.

(** C1, amended. A part never has more than one node on the layer.
    Over any sequence of frames, in either drawing mode, whatever the
    simulation does to the part in between and whatever other parts
    append: the part's own steps add at most one node, none at all when
    the part starts with a cached node (which then stays its node), and
    they leave every node that is not the part's own untouched. On a
    frame where [part.spriteNode] is set, [Render.bodies] and
    [Render.bodyWireframes] both return, keep the reference, keep the
    layer's length and change the layer at that one index only. What
    they write there is more than the pose: [Render.bodyWireframes]
    leaves the node as [wire_update] has it, [pos] and [rotate] set and
    [opacity] halved or restored on the frames where the sleeping fade
    starts or ends; [Render.bodies] on a visible part leaves it as
    [bodies_update] has it, the part's [sprite.attrs] written over the
    pose and the other attributes before the fade, and does nothing at
    all on a part that is not visible. With no user attributes and no
    fade to apply the node changes in [pos] and [rotate] alone. A step
    that lengthens the layer started without a cached node. *)
Theorem node_cache_one_node_per_part frames p nodes :
  cache_wf p nodes -> Forall has_vertices frames ->
  (exists p' nodes' k,
     lifetime frames p nodes = Ok (p', nodes', k)
     /\ k <= 1
     /\ (forall n, spriteNode p = Some n -> k = 0 /\ spriteNode p' = Some n)
     /\ (k = 1 -> spriteNode p = None)
     /\ length nodes' = length nodes + others_count frames + k
     /\ (forall m, m < length nodes -> spriteNode p ≠ Some m -> nodes' !! m = nodes !! m))
  /\ (forall opts sl n, spriteNode p = Some n ->
        (exists p1 nodes1, bodies_part opts sl p nodes = Ok (p1, nodes1)
                           /\ step_ok p nodes p1 nodes1)
        /\ (exists p1 nodes1, wireframes_part opts sl p nodes = Ok (p1, nodes1)
                              /\ step_ok p nodes p1 nodes1)
        /\ (fade_idle opts sl p ->
            wireframes_part opts sl p nodes = Ok (p, alter (node_attr (pose p)) n nodes)
            /\ (visible (p_render p) = true -> user_attrs p = no_attrs ->
                bodies_part opts sl p nodes = Ok (p, alter (node_attr (pose p)) n nodes))
            /\ (forall s, nodes !! n = Some s ->
                  alter (node_attr (pose p)) n nodes !! n
                  = Some (mkNode (n_kind s)
                            (mkAttrs (Some (pos_of (position p)))
                               (Some (rotate_of (angle p)))
                               (a_opacity (n_attrs s)) (a_rest (n_attrs s)))))))
  /\ (forall opts sl n s, spriteNode p = Some n -> nodes !! n = Some s ->
        let fading := flag opts "showSleeping" && sl in
        wireframes_part opts sl p nodes
        = Ok (set_fullOpacity (fullOpacity_after fading p (a_opacity (n_attrs s))) p,
              <[n := wire_update fading p s]> nodes)
        /\ (visible (p_render p) = true ->
            bodies_part opts sl p nodes
            = Ok (set_fullOpacity
                    (fullOpacity_after fading p
                       (first_of (a_opacity (user_attrs p)) (a_opacity (n_attrs s)))) p,
                  <[n := bodies_update fading p s]> nodes))
        /\ (visible (p_render p) = false -> bodies_part opts sl p nodes = Ok (p, nodes)))
  /\ (forall opts sl p1 nodes1,
        bodies_part opts sl p nodes = Ok (p1, nodes1)
        \/ wireframes_part opts sl p nodes = Ok (p1, nodes1) ->
        length nodes1 ≠ length nodes -> spriteNode p = None).
Proof.
  intros Hwf Hall. split; [|split; [|split]].
  - destruct (lifetime_spec frames p nodes Hwf Hall)
      as (p' & nodes' & k & Hl & Hk & Hkeep & Hlen & Hun).
    exists p', nodes', k. split_and!; try done.
    intros ->. destruct (spriteNode p) as [n|] eqn:Hc; [|done].
    by destruct (Hkeep n eq_refl).
  - intros opts sl n Hc. split; [|split].
    + apply bodies_part_ok. congruence.
    + apply wireframes_part_ok. congruence.
    + intros Hidle. split; [|split].
      * unfold wireframes_part. rewrite (wireframes_node_cached _ _ _ n) by done.
        simpl. by rewrite fade_idle_id.
      * intros Hvis Hua. unfold bodies_part. rewrite Hvis. simpl.
        rewrite (bodies_node_cached _ _ n) by done. simpl.
        rewrite apply_sprite_attrs_eq, Hua, fade_idle_id by done.
        do 2 f_equal. apply list_alter_id. intros [k [? ? ? ?]].
        unfold node_attr, attr_merge. simpl. by rewrite (left_id_L ∅ (∪)).
      * intros s Hs. by rewrite list_lookup_alter_eq, Hs, <- node_attr_pose_only.
  - intros opts sl n s Hc Hs. cbn zeta. split; [|split].
    + by apply wireframes_part_cached.
    + intros Hvis. by apply bodies_part_cached.
    + intros Hvis. unfold bodies_part. by rewrite Hvis.
  - intros opts sl p1 nodes1 Hstep Hlen.
    destruct (spriteNode p) as [n|] eqn:Hc; [exfalso|done].
    destruct Hstep as [Hb|Hw].
    + destruct (bodies_part_ok opts sl p nodes) as (p2 & nodes2 & Hb' & Hs); [congruence|].
      rewrite Hb in Hb'. simplify_eq. unfold step_ok in Hs. rewrite Hc in Hs. tauto.
    + destruct (wireframes_part_ok opts sl p nodes) as (p2 & nodes2 & Hw' & Hs); [congruence|].
      rewrite Hw in Hw'. simplify_eq. unfold step_ok in Hs. rewrite Hc in Hs. tauto.
Qed.

(** two frames of a polygon's life, and the second of them looked at
    on its own: the node made by the first frame is there, the body has
    fallen asleep, and the frame halves the node's opacity *)
Lemma node_cache_one_node_per_part_witness :
  cache_wf (polygon_at 1 2 0) []
  /\ Forall has_vertices two_frames
  /\ (exists p' nodes' k,
       lifetime two_frames (polygon_at 1 2 0) [] = Ok (p', nodes', k) /\ k <= 1)
  /\ exists p1,
       wireframes_part (Frame.default_options false) true
         (set_spriteNode 0 (polygon_at 1 2 0))
         [posed_node KPath 1 2 0 None]
       = Ok (p1, [posed_node KPath 1 2 0 (Some 0.5%float)]).
Proof.
  assert (H1 : cache_wf (polygon_at 1 2 0) []) by (intros n Hn; discriminate Hn).
  assert (H2 : Forall has_vertices two_frames)
    by (repeat constructor; intros H; discriminate H).
  split; [exact H1|]. split; [exact H2|]. split.
  - destruct (node_cache_one_node_per_part two_frames (polygon_at 1 2 0) [] H1 H2)
      as [(p' & nodes' & k & Hl & Hk & _) _].
    exists p', nodes', k. split; [exact Hl|exact Hk].
  - assert (H3 : cache_wf (set_spriteNode 0 (polygon_at 1 2 0))
                   [posed_node KPath 1 2 0 None])
      by (intros n [= <-]; simpl; lia).
    destruct (node_cache_one_node_per_part [] _ _ H3 (List.Forall_nil _))
      as (_ & _ & Hc & _).
    destruct (Hc (Frame.default_options false) true 0 _ eq_refl eq_refl) as [Hw _].
    eexists. rewrite Hw. reflexivity.
Defined.

Lemma pose_at_alter p n nodes :
  n < length nodes -> pose_at (alter (node_attr (pose p)) n nodes) n = quantized p.
Proof.
  intros Hn. unfold pose_at. rewrite list_lookup_alter_eq.
  destruct (lookup_lt_is_Some_2 nodes n Hn) as [s ->]. done.
Qed.

Lemma pose_at_new p nodes k a :
  posed p a -> pose_at (nodes ++ [mkNode k a]) (length nodes) = quantized p.
Proof.
  intros (Hp & Hr & _). unfold pose_at. rewrite list_lookup_middle by done.
  simpl. by rewrite Hp, Hr.
Qed.

Lemma pose_at_user a n nodes :
  a_pos a = None -> a_rotate a = None ->
  pose_at (alter (node_attr a) n nodes) n = pose_at nodes n.
Proof.
  intros Hp Hr. unfold pose_at. rewrite list_lookup_alter_eq.
  destruct (nodes !! n) as [s|]; [|done]. simpl. by rewrite Hp, Hr.
Qed.

Lemma bodies_node_pose p nodes :
  cache_wf p nodes -> (spriteNode p = None -> vertices p ≠ []) ->
  exists n p1 nodes1,
    bodies_node p nodes = Ok (n, p1, nodes1)
    /\ spriteNode p1 = Some n /\ user_attrs p1 = user_attrs p
    /\ pose_at nodes1 n = quantized p.
Proof.
  intros Hwf Hv. destruct (spriteNode p) as [n|] eqn:Hc.
  - exists n, p, (alter (node_attr (pose p)) n nodes).
    split; [by apply bodies_node_cached|]. split_and!; try done.
    apply pose_at_alter. by apply Hwf.
  - destruct (bodies_node_new p nodes Hc (Hv eq_refl)) as (k & a & Hb & Hposed).
    eexists _, _, _. split; [exact Hb|]. split_and!; try done.
    by apply pose_at_new.
Qed.

Lemma wireframes_node_pose opts p nodes :
  cache_wf p nodes -> (spriteNode p = None -> vertices p ≠ []) ->
  exists n p1 nodes1,
    wireframes_node opts p nodes = Ok (n, p1, nodes1)
    /\ spriteNode p1 = Some n
    /\ pose_at nodes1 n = quantized p.
Proof.
  intros Hwf Hv. destruct (spriteNode p) as [n|] eqn:Hc.
  - exists n, p, (alter (node_attr (pose p)) n nodes).
    split; [by apply wireframes_node_cached|]. split; [done|].
    apply pose_at_alter. by apply Hwf.
  - destruct (wireframes_node_new opts p nodes Hc (Hv eq_refl)) as (k & a & Hb & Hposed).
    eexists _, _, _. split; [exact Hb|]. split; [done|].
    by apply pose_at_new.
Qed.

(** C4. The pose written to a part's node is quantized. For every
    visible part, the [if]/[else] chain of [Render.bodies] leaves on the
    part's node [pos = [round(x*10)/10, round(y*10)/10]] and
    [rotate = round(180*angle*10/PI)/10], a cached node and a new one
    alike; the pose is still there when the iteration ends unless the
    part's own sprite attributes carry a [pos] or [rotate]; and
    [Render.bodyWireframes] leaves the same pose. For the position
    (12.34, 56.78) and the angle [Math.PI/4] the pose is (12.3, 56.8) and
    45 degrees. *)
Theorem pose_is_quantized opts sl p nodes :
  visible (p_render p) = true ->
  cache_wf p nodes ->
  (spriteNode p = None -> vertices p ≠ []) ->
  (exists n p1 nodes1,
     bodies_node p nodes = Ok (n, p1, nodes1)
     /\ spriteNode p1 = Some n /\ pose_at nodes1 n = quantized p)
  /\ (exists n p' nodes',
        bodies_part opts sl p nodes = Ok (p', nodes')
        /\ spriteNode p' = Some n
        /\ (a_pos (user_attrs p) = None -> a_rotate (user_attrs p) = None ->
            pose_at nodes' n = quantized p))
  /\ (exists n p' nodes',
        wireframes_part opts sl p nodes = Ok (p', nodes')
        /\ spriteNode p' = Some n /\ pose_at nodes' n = quantized p)
  /\ quantized p
     = (Some ((JSNum.Math_round (vx (position p) * 10) / 10)%float,
              (JSNum.Math_round (vy (position p) * 10) / 10)%float),
        Some (JSNum.Math_round (180 * angle p * 10 / JSNum.PI) / 10)%float)
  /\ (position p = mkVec 12.34 56.78 -> angle p = (JSNum.PI / 4)%float ->
      quantized p = (Some (12.3%float, 56.8%float), Some 45%float)).
Proof.
  intros Hvis Hwf Hv. split_and!.
  - destruct (bodies_node_pose p nodes Hwf Hv) as (n & p1 & nodes1 & Hb & Hc & _ & Hp).
    by exists n, p1, nodes1.
  - destruct (bodies_node_pose p nodes Hwf Hv) as (n & p1 & nodes1 & Hb & Hc & Hu & Hp).
    unfold bodies_part. rewrite Hvis, Hb. cbn [negb mbind exc_bind].
    exists n. eexists _, _. split; [by apply f_equal, surjective_pairing|].
    split; [by rewrite fade_spriteNode|].
    intros Hpos Hrot.
    rewrite fade_pose, apply_sprite_attrs_eq, pose_at_user; by rewrite ?Hu.
  - destruct (wireframes_node_pose opts p nodes Hwf Hv) as (n & p1 & nodes1 & Hb & Hc & Hp).
    unfold wireframes_part. rewrite Hb. cbn [mbind exc_bind].
    exists n. eexists _, _. split; [by apply f_equal, surjective_pairing|].
    split; [by rewrite fade_spriteNode|]. by rewrite fade_pose.
  - done.
  - intros Hpos Hang. unfold quantized. rewrite Hpos, Hang. reflexivity.
Qed.

(** the scenario of the claim, drawn by both loops *)
Lemma pose_is_quantized_witness :
  visible (p_render (polygon_at 12.34 56.78 (JSNum.PI / 4))) = true
  /\ cache_wf (polygon_at 12.34 56.78 (JSNum.PI / 4)) []
  /\ quantized (polygon_at 12.34 56.78 (JSNum.PI / 4))
     = (Some (12.3%float, 56.8%float), Some 45%float).
Proof.
  assert (H1 : cache_wf (polygon_at 12.34 56.78 (JSNum.PI / 4)) [])
    by (intros n Hn; discriminate Hn).
  split; [reflexivity|]. split; [exact H1|].
  refine (proj2 (proj2 (proj2 (proj2
    (pose_is_quantized shaded false (polygon_at 12.34 56.78 (JSNum.PI / 4)) []
       eq_refl H1 _)))) eq_refl eq_refl).
  intros _ H. discriminate H.
Defined.
End NodeCache.

(** ** The sleeping fade *)

Section SleepingFade.
Import MainPass.

(** C5 at its failing input. A textured part whose sprite attributes set
    [opacity: 0.8], its body asleep, [showSleeping] on, drawn by
    [Render.bodies]: the first frame halves the opacity to 0.4 and
    remembers 0.8; the second frame, the body still asleep, re-applies
    the sprite attributes and leaves the opacity at 0.8. *)
Lemma sleeping_fade_lost_to_sprite_opacity :
  let p := textured_with_opacity 0.8 in
  opacity_of (lifetime (asleep_frames 0.8 1) p []) = Some 0.4%float
  /\ fullOpacity_of (lifetime (asleep_frames 0.8 1) p []) = Some 0.8%float
  /\ opacity_of (lifetime (asleep_frames 0.8 2) p []) = Some 0.8%float
  /\ fullOpacity_of (lifetime (asleep_frames 0.8 2) p []) = Some 0.8%float.
Proof. cbn zeta. split_and!; vm_compute; reflexivity. Qed.


Lemma opacity_at_alter a n nodes :
  n < length nodes ->
  opacity_at (alter (node_attr a) n nodes) n = default (opacity_at nodes n) (a_opacity a).
Proof.
  intros Hn. unfold opacity_at. rewrite list_lookup_alter_eq.
  destruct (lookup_lt_is_Some_2 nodes n Hn) as [s ->]. simpl.
  unfold node_opacity. simpl. by destruct (a_opacity a).
Qed.

Lemma opacity_at_app nodes more n :
  n < length nodes -> opacity_at (nodes ++ more) n = opacity_at nodes n.
Proof. intros Hn. unfold opacity_at. by rewrite lookup_app_l. Qed.

(** the fade, read off the part's node *)
Lemma fade_effect sh sl n p nodes :
  n < length nodes ->
  let r := fade sh sl n p nodes in
  (fullOpacity r.1, opacity_at r.2 n)
  = if sh && sl then
      if has_fullOpacity p then (fullOpacity p, opacity_at nodes n)
      else (Some (opacity_at nodes n), (0.5 * opacity_at nodes n)%float)
    else
      if has_fullOpacity p then (None, default 0%float (fullOpacity p))
      else (fullOpacity p, opacity_at nodes n).
Proof.
  intros Hn. unfold fade. cbn zeta.
  destruct (sh && sl), (has_fullOpacity p); simpl; try done.
  all: by rewrite opacity_at_alter.
Qed.

(** one frame, read off the part's node *)
Lemma frame_part_fade opts sl q nodes :
  visible (p_render q) = true ->
  cache_wf q nodes ->
  (spriteNode q = None -> vertices q ≠ []) ->
  a_opacity (user_attrs q) = None ->
  exists n q' nodes',
    frame_part opts sl q nodes = Ok (q', nodes')
    /\ spriteNode q' = Some n /\ n < length nodes'
    /\ (fullOpacity q', opacity_at nodes' n)
       = if flag opts "showSleeping" && sl then
           if has_fullOpacity q then (fullOpacity q, opacity_before q nodes)
           else (Some (opacity_before q nodes), (0.5 * opacity_before q nodes)%float)
         else
           if has_fullOpacity q then (None, default 0%float (fullOpacity q))
           else (fullOpacity q, opacity_before q nodes).
Proof.
  intros Hvis Hwf Hv Hua.
  assert (Hnode : exists n q1 nodes1 (touch : list Node -> list Node),
    frame_part opts sl q nodes
    = Ok (fade (flag opts "showSleeping") sl n q1 (touch nodes1))
    /\ spriteNode q1 = Some n /\ n < length nodes1
    /\ fullOpacity q1 = fullOpacity q
    /\ opacity_at nodes1 n = opacity_before q nodes
    /\ length (touch nodes1) = length nodes1
    /\ opacity_at (touch nodes1) n = opacity_at nodes1 n).
  { unfold frame_part, opacity_before.
    destruct (negb (flag opts "wireframes")).
    - unfold bodies_part. rewrite Hvis. cbn [negb].
      destruct (spriteNode q) as [n|] eqn:Hc.
      + rewrite (bodies_node_cached _ _ n) by done. cbn [mbind exc_bind].
        exists n, q, (alter (node_attr (pose q)) n nodes),
          (alter (node_attr (user_attrs q)) n).
        rewrite apply_sprite_attrs_eq, !length_alter.
        pose proof (Hwf n Hc).
        rewrite !opacity_at_alter, Hua by (by rewrite ?length_alter). done.
      + destruct (bodies_node_new q nodes Hc (Hv eq_refl)) as (k & a & -> & _ & _ & Ho).
        cbn [mbind exc_bind].
        exists (length nodes), (set_spriteNode (length nodes) q), (nodes ++ [mkNode k a]),
          (alter (node_attr (user_attrs q)) (length nodes)).
        rewrite apply_sprite_attrs_eq, !length_alter, length_app.
        rewrite opacity_at_alter, Hua by (rewrite length_app; simpl; lia).
        split_and!; try done; [simpl; lia|].
        unfold opacity_at. rewrite list_lookup_middle by done. simpl.
        unfold node_opacity. simpl. by rewrite Ho.
    - unfold wireframes_part.
      destruct (spriteNode q) as [n|] eqn:Hc.
      + rewrite (wireframes_node_cached _ _ _ n) by done. cbn [mbind exc_bind].
        exists n, q, (alter (node_attr (pose q)) n nodes), (fun l => l).
        rewrite !length_alter. pose proof (Hwf n Hc).
        rewrite !opacity_at_alter by done. done.
      + destruct (wireframes_node_new opts q nodes Hc (Hv eq_refl))
          as (k & a & -> & _ & _ & Ho).
        cbn [mbind exc_bind].
        exists (length nodes), (set_spriteNode (length nodes) q), (nodes ++ [mkNode k a]),
          (fun l => l).
        rewrite length_app. split_and!; try done; [simpl; lia|].
        unfold opacity_at. rewrite list_lookup_middle by done. simpl.
        unfold node_opacity. simpl. by rewrite Ho. }
  destruct Hnode as (n & q1 & nodes1 & touch & -> & Hc & Hn & Hfo & Ho & Hlen & Hto).
  exists n. eexists _, _. split; [by apply f_equal, surjective_pairing|].
  rewrite fade_spriteNode, fade_length, Hlen. split; [done|]. split; [done|].
  rewrite (fade_effect _ _ _ _ _ (eq_ind_r (fun k => n < k) Hn Hlen)).
  unfold has_fullOpacity. by rewrite Hfo, Hto, Ho.
Qed.

(** The fade on a part whose sprite attributes leave the opacity alone
    (every part drawn by [Render.bodyWireframes] is one): asleep, the
    opacity [o] of its node is halved and remembered; asleep again, it
    stays halved; awake, it is [o] again and nothing is remembered. *)
Lemma sleeping_fade_round_trip f1 f2 f3 p nodes :
  plain f1 -> plain f2 -> plain f3 ->
  fading f1 = true -> fading f2 = true -> fading f3 = false ->
  cache_wf p nodes -> fullOpacity p = None ->
  let o := opacity_before p (nodes ++ fi_others f1) in
  JSNum.truthy o = true ->
  (opacity_of (lifetime [f1] p nodes) = Some (0.5 * o)%float
   /\ fullOpacity_of (lifetime [f1] p nodes) = Some o)
  /\ (opacity_of (lifetime [f1; f2] p nodes) = Some (0.5 * o)%float
      /\ fullOpacity_of (lifetime [f1; f2] p nodes) = Some o)
  /\ (opacity_of (lifetime [f1; f2; f3] p nodes) = Some o
      /\ fullOpacity_of (lifetime [f1; f2; f3] p nodes) = None).
Proof.
  intros (Hv1 & Hx1 & Hu1) (Hv2 & Hx2 & Hu2) (Hv3 & Hx3 & Hu3) Hf1 Hf2 Hf3 Hwf Hfo o Ho.
  unfold fading in *.
  (* frame 1 *)
  set (nodes0 := nodes ++ fi_others f1) in *.
  assert (Hwf0 : cache_wf (carry p (fi_part f1)) nodes0).
  { intros n Hn. apply Hwf in Hn. unfold nodes0. rewrite length_app. lia. }
  destruct (frame_part_fade (fi_options f1) (fi_sleeping f1) (carry p (fi_part f1)) nodes0)
    as (n1 & p1 & nodes1 & E1 & Hc1 & Hn1 & R1); try done.
  rewrite Hf1 in R1. unfold has_fullOpacity in R1. simpl in R1. rewrite Hfo in R1.
  change (opacity_before (carry p (fi_part f1)) nodes0) with o in R1.
  injection R1 as Hfo1 Hop1.
  (* frame 2 *)
  set (nodes1' := nodes1 ++ fi_others f2) in *.
  assert (Hwf1 : cache_wf (carry p1 (fi_part f2)) nodes1').
  { intros n Hn. simpl in Hn. rewrite Hc1 in Hn. simplify_eq.
    unfold nodes1'. rewrite length_app. lia. }
  destruct (frame_part_fade (fi_options f2) (fi_sleeping f2) (carry p1 (fi_part f2)) nodes1')
    as (n2 & p2 & nodes2 & E2 & Hc2 & Hn2 & R2); try done.
  rewrite Hf2 in R2. unfold has_fullOpacity, opacity_before in R2. simpl in R2.
  rewrite Hfo1, Ho, Hc1 in R2. unfold nodes1' in R2.
  rewrite opacity_at_app, Hop1 in R2 by done.
  injection R2 as Hfo2 Hop2.
  pose proof (frame_part_ok (fi_options f2) (fi_sleeping f2) (carry p1 (fi_part f2)) nodes1')
    as (p2' & nodes2' & E2' & Hs2); [done|].
  rewrite E2 in E2'. injection E2' as <- <-. unfold step_ok in Hs2. simpl in Hs2.
  rewrite Hc1 in Hs2. destruct Hs2 as (Hc2' & _). rewrite Hc2 in Hc2'.
  injection Hc2' as ->.
  (* frame 3 *)
  set (nodes2' := nodes2 ++ fi_others f3) in *.
  assert (Hwf2 : cache_wf (carry p2 (fi_part f3)) nodes2').
  { intros n Hn. simpl in Hn. rewrite Hc2 in Hn. simplify_eq.
    unfold nodes2'. rewrite length_app. lia. }
  destruct (frame_part_fade (fi_options f3) (fi_sleeping f3) (carry p2 (fi_part f3)) nodes2')
    as (n3 & p3 & nodes3 & E3 & Hc3 & Hn3 & R3); try done.
  rewrite Hf3 in R3. unfold has_fullOpacity in R3. simpl in R3.
  rewrite Hfo2, Ho in R3. simpl in R3.
  injection R3 as Hfo3 Hop3.
  pose proof (frame_part_ok (fi_options f3) (fi_sleeping f3) (carry p2 (fi_part f3)) nodes2')
    as (p3' & nodes3' & E3' & Hs3); [done|].
  rewrite E3 in E3'. injection E3' as <- <-. unfold step_ok in Hs3. simpl in Hs3.
  rewrite Hc2 in Hs3. destruct Hs3 as (Hc3' & _). rewrite Hc3 in Hc3'.
  injection Hc3' as ->.
  (* read the three results *)
  cbn [lifetime]. fold nodes0. rewrite E1. cbn [mbind exc_bind]. fold nodes1'.
  rewrite E2. cbn [mbind exc_bind]. fold nodes2'. rewrite E3. cbn [mbind exc_bind].
  unfold opacity_of, fullOpacity_of. rewrite Hc1, Hc2, Hc3. simpl.
  by rewrite Hop1, Hop2, Hop3, Hfo1, Hfo2, Hfo3.
Qed.

End SleepingFade.

(** ** The constraint renderer *)

Section ConstraintFacts.
Import Constraints.

Lemma spring_loop_app fuel : forall j s d nrm coils c,
  spring_loop fuel j s d nrm coils c
  = ((c ++ (spring_loop fuel j s d nrm coils []).1),
     (spring_loop fuel j s d nrm coils []).2).
Proof.
  induction fuel as [|fuel IH]; intros j s d nrm coils c; simpl.
  - destruct (_ <? _)%float; simpl; by rewrite (right_id_L [] (++)).
  - destruct (_ <? _)%float; simpl; [|by rewrite (right_id_L [] (++))].
    rewrite (IH _ _ _ _ _ (c ++ _)), (IH _ _ _ _ _ [_]). simpl.
    by rewrite <- (assoc_L (++)).
Qed.

Lemma small_cases n :
  12 <= n <= 20 ->
  n = 12 \/ n = 13 \/ n = 14 \/ n = 15 \/ n = 16 \/ n = 17 \/ n = 18 \/ n = 19 \/ n = 20.
Proof. lia. Qed.

(** the loop exits by itself, after [n - 1] rounds *)
Lemma spring_loop_points n s d nrm :
  12 <= n <= 20 ->
  spring_loop spring_fuel 1 s d nrm (JSNum.of_nat n) [] = done (coil_points s d nrm n).
Proof.
  intros Hn. destruct s, d, nrm.
  destruct (small_cases n Hn) as [->|[->|[->|[->|[->|[->|[->|[->| ->]]]]]]]];
    vm_compute; reflexivity.
Qed.

Lemma of_nat_small_inj a b :
  12 <= a <= 20 -> 12 <= b <= 20 -> JSNum.of_nat a = JSNum.of_nat b -> a = b.
Proof.
  intros Ha Hb Heq. apply (f_equal Prim2SF) in Heq.
  destruct (small_cases a Ha) as [->|[->|[->|[->|[->|[->|[->|[->| ->]]]]]]]];
    destruct (small_cases b Hb) as [->|[->|[->|[->|[->|[->|[->|[->| ->]]]]]]]];
    try reflexivity; vm_compute in Heq; discriminate Heq.
Qed.

Lemma segments_cons op c :
  segments (op :: c) = (if is_LineTo op then 1 else 0) + segments c.
Proof.
  unfold segments. destruct (is_LineTo op) eqn:E.
  - by rewrite filter_cons_True.
  - rewrite filter_cons_False; [done|]. by rewrite E.
Qed.

Lemma segments_app a b : segments (a ++ b) = segments a + segments b.
Proof.
  induction a as [|op a IH]; [done|].
  rewrite <- app_comm_cons, !segments_cons, IH. lia.
Qed.

Lemma segments_coil_points s d nrm n : segments (coil_points s d nrm n) = n - 1.
Proof.
  assert (H : forall l : list nat,
    segments (coil_point s d nrm (JSNum.of_nat n) <$> l) = length l).
  { induction l as [|j l IH]; [reflexivity|].
    rewrite fmap_cons, segments_cons, IH. reflexivity. }
  unfold coil_points. by rewrite H, length_seq.
Qed.

Lemma is_nan_eq v : PrimFloat.is_nan v = true -> v = nan.
Proof.
  intros H. apply Prim2SF_inj. unfold Prim2SF at 1. by rewrite H.
Qed.

Lemma trace_path_spring bodies k pA pB c :
  cr_type (c_render k) = "spring" ->
  PrimFloat.is_nan (c_length k / 5) = false ->
  let start := anchor bodies (bodyA k) pA in
  let end_ := anchor bodies (bodyB k) pB in
  let delta := Vector.sub end_ start in
  let normal := Vector.perp (Vector.normalise delta) in
  exists n, 12 <= n <= 20
    /\ coils_of k = JSNum.of_nat n
    /\ trace_path bodies k pA pB c
       = (done (c ++ [BeginPath; MoveTo (vx start) (vy start)]
                  ++ coil_points start delta normal n
                  ++ [LineTo (vx end_) (vy end_)]),
          Some end_).
Proof.
  intros Hty Hnan. cbn zeta.
  destruct (FloatFacts.ceil_clamp_range _ Hnan) as (n & Hn & Hceil).
  exists n. split; [done|]. split; [done|].
  unfold trace_path, spring. rewrite Hty. cbn [String.eqb Ascii.eqb Bool.eqb].
  unfold coils_of. rewrite Hceil, spring_loop_app, spring_loop_points by done.
  cbn [fst snd done and_then]. by rewrite <- !(assoc_L (++)).
Qed.

Lemma not_skipped k pA pB :
  cr_visible (c_render k) = true -> pointA k = Some pA -> pointB k = Some pB ->
  skipped k = false.
Proof. unfold skipped. by intros -> -> ->. Qed.

Lemma coil_point_zigzag s d n j :
  coil_point s d (Vector.perp (Vector.normalise d)) (JSNum.of_nat n) j
  = zigzag_point (vx s) (vy s) (vx d) (vy d) n j.
Proof.
  unfold coil_point, zigzag_point, unit_of.
  unfold Vector.perp, Vector.normalise, Vector.magnitude.
  destruct (_ =? 0)%float; destruct (Nat.even j); cbn [vx vy];
    rewrite !FloatFacts.mul_1_l, ?FloatFacts.mul_1_r, ?FloatFacts.mul_neg1_r,
      ?FloatFacts.opp_opp; reflexivity.
Qed.

Lemma coil_points_zigzag s d n :
  coil_points s d (Vector.perp (Vector.normalise d)) n
  = zigzag (vx s) (vy s) (vx d) (vy d) n.
Proof.
  unfold coil_points, zigzag. generalize (seq 1 (n - 1)). intros l.
  induction l as [|j l IH]; [done|].
  by rewrite !fmap_cons, IH, coil_point_zigzag.
Qed.

Lemma segments_zigzag sx sy dx dy n : segments (zigzag sx sy dx dy n) = n - 1.
Proof.
  assert (H : forall l : list nat,
    segments (zigzag_point sx sy dx dy n <$> l) = length l).
  { induction l as [|j l IH]; [reflexivity|].
    rewrite fmap_cons, segments_cons, IH. unfold zigzag_point.
    destruct (unit_of dx dy), (Nat.even j); reflexivity. }
  unfold zigzag. by rewrite H, length_seq.
Qed.

(** a spring whose [length / 5] is [NaN]: the loop does not run *)
Lemma trace_path_spring_nan bodies k pA pB c :
  cr_type (c_render k) = "spring" ->
  PrimFloat.is_nan (c_length k / 5) = true ->
  let start := anchor bodies (bodyA k) pA in
  let end_ := anchor bodies (bodyB k) pB in
  coils_of k = nan
  /\ trace_path bodies k pA pB c
     = (done (c ++ [BeginPath; MoveTo (vx start) (vy start);
                    LineTo (vx end_) (vy end_)]),
        Some end_).
Proof.
  intros Hty Hnan. cbn zeta.
  assert (Hcoils : coils_of k = nan).
  { unfold coils_of. by rewrite (is_nan_eq _ Hnan). }
  split; [done|].
  unfold trace_path, spring. rewrite Hty. cbn [String.eqb Ascii.eqb Bool.eqb].
  rewrite Hcoils. unfold spring_fuel. cbn [spring_loop].
  rewrite FloatFacts.ltb_nan_r. cbn [fst snd done and_then].
  by rewrite <- !(assoc_L (++)).
Qed.

(** the two quarter turns of a direction are at right angles to it *)
Lemma quarter_turn_perp (ux uy : float) :
  PrimFloat.is_nan (ux * uy) = false -> PrimFloat.is_infinity (ux * uy) = false ->
  (ux * (- uy) + uy * ux = 0)%float /\ (ux * uy + uy * (- ux) = 0)%float.
Proof.
  intros Hn Hi.
  rewrite !FloatFacts.mul_opp_r, (FloatFacts.mul_comm uy ux).
  split; [by apply FloatFacts.add_opp_l|by apply FloatFacts.add_opp_r].
Qed.

Lemma draw_spring_segments bodies k pA pB c path end_ :
  cr_visible (c_render k) = true ->
  pointA k = Some pA -> pointB k = Some pB ->
  trace_path bodies k pA pB c = (done (c ++ path), Some end_) ->
  returned (draw bodies k c) = true
  /\ segments (draw bodies k c).1 = segments c + segments path.
Proof.
  intros Hvis HA HB Hpath.
  unfold draw. rewrite (not_skipped k pA pB), HA, HB, Hpath by done.
  cbn [block and_then done]. unfold when, stroke_line, fill_anchors.
  destruct (JSNum.truthy _), (cr_anchors _); cbn [and_then done fst]; (split; [done|]);
    rewrite !segments_app, ?segments_cons;
    change (segments []) with 0; cbn [is_LineTo]; lia.
Qed.

(** C6, as stated, fails: a spring whose anchors coincide is drawn as
    twelve segments from the anchor to itself, with no offset at all;
    and a spring whose [length] is not a number is drawn as the single
    segment from start to end, [Math.ceil(Common.clamp(NaN, 12, 20))]
    being [NaN]. *)
Lemma spring_without_offset :
  draw ∅ (spring_between (mkVec 5 5) (mkVec 5 5) 0) []
    = done ([BeginPath; MoveTo 5 5] ++ replicate 11 (LineTo 5 5)
            ++ [LineTo 5 5; SetLineWidth 2; SetStrokeStyle "#ccc"; Stroke])
  /\ coils_of (spring_between (mkVec 0 0) (mkVec 40 0) nan) = nan
  /\ draw ∅ (spring_between (mkVec 0 0) (mkVec 40 0) nan) []
    = done [BeginPath; MoveTo 0 0; LineTo 40 0;
            SetLineWidth 2; SetStrokeStyle "#ccc"; Stroke].
Proof. split_and!; vm_compute; reflexivity. Qed.

(** C6, amended. A spring constraint that is drawn is drawn without a
    fault, the loop ending by itself. When its [length / 5] is a number,
    [Math.ceil(Common.clamp(length / 5, 12, 20))] is an integer [n]
    between 12 and 20 and the path is [moveTo(start)], the [n - 1] coil
    points of iterations [1 .. n-1] and [lineTo(end)]: [n] [lineTo]
    calls in all. Coil point [j] is the point [j / n] of the way from
    start to end moved by [4 * (-uy, ux)] for even [j] and by
    [4 * (uy, -ux)] for odd [j], where [(ux, uy)] is the direction from
    start to end scaled to length one in doubles; each of the two
    offsets is at right angles to [(ux, uy)], exactly, as long as
    [ux * uy] is finite. When the anchors are so close that their
    distance is [0] as a double, [(ux, uy)] is [(0, 0)] and the offsets
    are zero. When [length / 5] is [NaN] the loop does not run and the
    path is the one segment from start to end. A length of 40 gives 12
    segments, a length of 200 gives 20. *)
Theorem spring_coil_count bodies k pA pB c :
  cr_visible (c_render k) = true ->
  pointA k = Some pA -> pointB k = Some pB ->
  cr_type (c_render k) = "spring" ->
  let start := anchor bodies (bodyA k) pA in
  let end_ := anchor bodies (bodyB k) pB in
  let dx := (vx end_ - vx start)%float in
  let dy := (vy end_ - vy start)%float in
  let u := unit_of dx dy in
  returned (draw bodies k c) = true
  /\ (PrimFloat.is_nan (c_length k / 5) = false ->
      exists n, 12 <= n <= 20
        /\ coils_of k = JSNum.of_nat n
        /\ trace_path bodies k pA pB c
           = (done (c ++ [BeginPath; MoveTo (vx start) (vy start)]
                      ++ zigzag (vx start) (vy start) dx dy n
                      ++ [LineTo (vx end_) (vy end_)]),
              Some end_)
        /\ segments (draw bodies k c).1 = segments c + n
        /\ (c_length k = 40%float -> n = 12)
        /\ (c_length k = 200%float -> n = 20))
  /\ (PrimFloat.is_nan (c_length k / 5) = true ->
      coils_of k = nan
      /\ trace_path bodies k pA pB c
         = (done (c ++ [BeginPath; MoveTo (vx start) (vy start);
                        LineTo (vx end_) (vy end_)]),
            Some end_)
      /\ segments (draw bodies k c).1 = segments c + 1)
  /\ (PrimFloat.is_nan (u.1 * u.2) = false ->
      PrimFloat.is_infinity (u.1 * u.2) = false ->
      (u.1 * (- u.2) + u.2 * u.1 = 0)%float
      /\ (u.1 * u.2 + u.2 * (- u.1) = 0)%float)
  /\ ((sqrt (dx * dx + dy * dy) =? 0)%float = true ->
      u = (0, 0)%float
      /\ forall n j,
          zigzag_point (vx start) (vy start) dx dy n j
          = let t := (JSNum.of_nat j / JSNum.of_nat n)%float in
            if Nat.even j
            then LineTo (vx start + dx * t + (-0))%float (vy start + dy * t + 0)%float
            else LineTo (vx start + dx * t + 0)%float (vy start + dy * t + (-0))%float).
Proof.
  intros Hvis HA HB Hty. cbn zeta.
  assert (Hpaths :
    (PrimFloat.is_nan (c_length k / 5) = false ->
      exists n, 12 <= n <= 20 /\ coils_of k = JSNum.of_nat n
        /\ trace_path bodies k pA pB c
           = (done (c ++ [BeginPath;
                          MoveTo (vx (anchor bodies (bodyA k) pA))
                                 (vy (anchor bodies (bodyA k) pA))]
                      ++ zigzag (vx (anchor bodies (bodyA k) pA))
                           (vy (anchor bodies (bodyA k) pA))
                           (vx (anchor bodies (bodyB k) pB)
                            - vx (anchor bodies (bodyA k) pA))%float
                           (vy (anchor bodies (bodyB k) pB)
                            - vy (anchor bodies (bodyA k) pA))%float n
                      ++ [LineTo (vx (anchor bodies (bodyB k) pB))
                                 (vy (anchor bodies (bodyB k) pB))]),
              Some (anchor bodies (bodyB k) pB)))).
  { intros Hnan.
    destruct (trace_path_spring bodies k pA pB c Hty Hnan) as (n & Hn & Hcoils & Hpath).
    exists n. split; [done|]. split; [done|].
    by rewrite Hpath, coil_points_zigzag. }
  split_and!.
  - destruct (PrimFloat.is_nan (c_length k / 5)) eqn:Hnan.
    + destruct (trace_path_spring_nan bodies k pA pB c Hty Hnan) as [_ Hpath].
      by destruct (draw_spring_segments bodies k pA pB c _ _ Hvis HA HB Hpath).
    + destruct (Hpaths eq_refl) as (n & _ & _ & Hpath).
      by destruct (draw_spring_segments bodies k pA pB c _ _ Hvis HA HB Hpath).
  - intros Hnan. destruct (Hpaths Hnan) as (n & Hn & Hcoils & Hpath).
    exists n. split_and!; try (done || lia).
    + destruct (draw_spring_segments bodies k pA pB c _ _ Hvis HA HB Hpath) as [_ ->].
      rewrite !segments_app, !segments_cons. change (segments []) with 0.
      cbn [is_LineTo]. rewrite segments_zigzag. lia.
    + intros Hlen. apply (of_nat_small_inj n 12); [done|lia|].
      rewrite <- Hcoils. unfold coils_of. rewrite Hlen. reflexivity.
    + intros Hlen. apply (of_nat_small_inj n 20); [done|lia|].
      rewrite <- Hcoils. unfold coils_of. rewrite Hlen. reflexivity.
  - intros Hnan.
    destruct (trace_path_spring_nan bodies k pA pB c Hty Hnan) as [Hcoils Hpath].
    split_and!; try done.
    destruct (draw_spring_segments bodies k pA pB c _ _ Hvis HA HB Hpath) as [_ ->].
    rewrite !segments_cons. reflexivity.
  - apply quarter_turn_perp.
  - intros Hm. unfold zigzag_point, unit_of. rewrite Hm. split; [done|].
    intros n j. by destruct (Nat.even j).
Qed.

(** the two lengths of the claim, drawn, and the coil points of the
    first: eleven points, alternately 4 below and 4 above the axis *)
Lemma spring_coil_count_witness :
  segments (draw ∅ (spring_of_length 40) []).1 = 12
  /\ segments (draw ∅ (spring_of_length 200) []).1 = 20
  /\ trace_path ∅ (spring_of_length 40) (mkVec 0 0) (mkVec 40 0) []
     = (done ([BeginPath; MoveTo 0 0] ++ zigzag 0 0 40 0 12 ++ [LineTo 40 0]),
        Some (mkVec 40 0))
  /\ omap lineTo_y (zigzag 0 0 40 0 12)
     = [-4; 4; -4; 4; -4; 4; -4; 4; -4; 4; -4]%float.
Proof.
  destruct (spring_coil_count ∅ (spring_of_length 40) (mkVec 0 0) (mkVec 40 0) []
              eq_refl eq_refl eq_refl eq_refl)
    as (_ & H40 & _).
  destruct (H40 eq_refl) as (n & _ & _ & Hpath & Hseg & Hn & _).
  destruct (spring_coil_count ∅ (spring_of_length 200) (mkVec 0 0) (mkVec 200 0) []
              eq_refl eq_refl eq_refl eq_refl)
    as (_ & H200 & _).
  destruct (H200 eq_refl) as (n' & _ & _ & _ & Hseg' & _ & Hn').
  split_and!.
  - rewrite Hseg, (Hn eq_refl). reflexivity.
  - rewrite Hseg', (Hn' eq_refl). reflexivity.
  - rewrite Hpath, (Hn eq_refl). reflexivity.
  - reflexivity.
Defined.

(** every step of [draw] only adds calls to the log *)
Lemma draw_appends bodies k c :
  exists ops, (draw bodies k c).1 = c ++ ops /\ (skipped k = false -> ops ≠ []).
Proof.
  unfold draw. destruct (skipped k) eqn:Hs.
  { exists []. split; [by rewrite (right_id_L [] (++))|done]. }
  destruct (pointA k) as [pA|] eqn:HA; [|by unfold skipped in Hs; rewrite HA in Hs;
    destruct (cr_visible _)].
  destruct (pointB k) as [pB|] eqn:HB; [|by unfold skipped in Hs; rewrite HA, HB in Hs;
    destruct (cr_visible _)].
  assert (Hpath : exists ops, ops ≠ []
    /\ (trace_path bodies k pA pB c).1.1 = c ++ ops).
  { unfold trace_path. destruct (String.eqb _ "pin").
    - eexists. split; [|reflexivity]. done.
    - destruct (String.eqb _ "spring"); cbn [fst].
      + unfold spring. rewrite spring_loop_app.
        destruct (spring_loop _ _ _ _ _ _ []) as [ops [e|]]; cbn [and_then fst snd done].
        * exists ([BeginPath; MoveTo (vx (anchor bodies (bodyA k) pA))
                               (vy (anchor bodies (bodyA k) pA))] ++ ops).
          split; [done|]. by rewrite <- (assoc_L (++)).
        * exists ([BeginPath; MoveTo (vx (anchor bodies (bodyA k) pA))
                               (vy (anchor bodies (bodyA k) pA))] ++ ops
                  ++ [LineTo (vx (anchor bodies (bodyB k) pB))
                             (vy (anchor bodies (bodyB k) pB))]).
          split; [done|]. by rewrite <- !(assoc_L (++)).
      + eexists. split; [|cbn; by rewrite <- (assoc_L (++))]. done. }
  destruct Hpath as (ops & Hne & Hops).
  destruct (trace_path bodies k pA pB c) as [[c1 err] end_]. cbn [fst] in Hops. subst c1.
  cbn [block and_then done].
  destruct err as [e|].
  { exists ops. done. }
  unfold when, stroke_line, fill_anchors.
  destruct (JSNum.truthy _), (cr_anchors _), end_; cbn [and_then done fst];
    rewrite <- ?(assoc_L (++)); eexists; (split; [reflexivity|]);
    intros _; by destruct ops.
Qed.

(** C7, as stated, fails: a visible constraint with [pointA] defined and
    [pointB] undefined has one defined anchor, and nothing is drawn for
    it. *)
Lemma constraint_with_one_anchor_is_skipped :
  cr_visible (c_render one_anchor) = true
  /\ pointA one_anchor = Some (mkVec 0 0)
  /\ pointB one_anchor = None
  /\ draw ∅ one_anchor [] = done []
  /\ Render_constraints ∅ [one_anchor] [] = done [].
Proof. split_and!; reflexivity. Qed.

(** C7, amended. [Render.constraints] draws nothing for a constraint if
    and only if its [render.visible] flag is false or at least one of
    its two anchors, [pointA] or [pointB], is undefined; for a visible
    constraint with both anchors defined it adds calls to the context. *)
Theorem constraint_skip_rule bodies k c :
  (draw bodies k c = done c
   <-> cr_visible (c_render k) = false \/ pointA k = None \/ pointB k = None)
  /\ (cr_visible (c_render k) = true -> is_Some (pointA k) -> is_Some (pointB k) ->
      exists ops, ops ≠ [] /\ (draw bodies k c).1 = c ++ ops).
Proof.
  assert (Hsk : skipped k = true
    <-> cr_visible (c_render k) = false \/ pointA k = None \/ pointB k = None).
  { unfold skipped.
    destruct (cr_visible _), (pointA k), (pointB k); cbn; intuition congruence. }
  destruct (draw_appends bodies k c) as (ops & Hops & Hne).
  split.
  - rewrite <- Hsk. split.
    + intros Hd. destruct (skipped k) eqn:Hs; [done|].
      rewrite Hd in Hops. cbn in Hops.
      apply (f_equal length) in Hops. rewrite length_app in Hops.
      specialize (Hne eq_refl). destruct ops; [done|simpl in Hops; lia].
    + intros Hs. unfold draw. by rewrite Hs.
  - intros Hvis [pA HA] [pB HB]. exists ops. split; [|done].
    apply Hne. by apply (not_skipped k pA pB).
Qed.
End ConstraintFacts.

(** ** The frame protocol *)

Section FrameFacts.
Import Frame.



(** C8, as stated, fails: with [showMousePosition] on and no mouse, the
    overlay pass faults in [Render.mousePosition]; [Render.constraints],
    next in line, draws nothing, the view transform is not reverted, the
    callback stays registered and [afterRender] is not emitted. With the
    option off the same pass draws the spring and finishes. *)
Lemma overlay_fault_ends_the_pass :
  let r1 := (Render_world (demo_render mouse_shown)).1 in
  let res := update_signal silent r1 in
  res.2 = Some (TypeError "mouse.position")
  /\ Constraints.segments (context res.1) = 0
  /\ has_SetTransform (context res.1) = false
  /\ extraDraw res.1 = extraDraw r1 /\ pending res.1 = 1
  /\ length (l_update (layer res.1)) = 1
  /\ passes_done res.1 = 0
  /\ (let r1' := (Render_world (demo_render {["hasBounds" := VBool true]})).1 in
      let res' := update_signal silent r1' in
      res'.2 = None
      /\ Constraints.segments (context res'.1) = 12
      /\ has_SetTransform (context res'.1) = true
      /\ pending res'.1 = 0 /\ l_update (layer res'.1) = []
      /\ passes_done res'.1 = 1).
Proof. cbn zeta. split_and!; vm_compute; reflexivity. Qed.


Lemma block_app {S : Type} (a b : list (S -> Res S)) (s : S) :
  block (a ++ b) s = and_then (block a s) (block b).
Proof.
  revert s. induction a as [|stmt a IH]; intros s; [done|].
  simpl. destruct (stmt s) as [s1 [e|]]; simpl; [done|]. apply IH.
Qed.

(** a fault in one statement of a block is the block's result: the
    statements after it do not run *)
Lemma block_fault {S : Type} (pre post : list (S -> Res S)) stmt (s s1 s2 : S) e :
  block pre s = done s1 -> stmt s1 = fault e s2 ->
  block (pre ++ stmt :: post) s = fault e s2.
Proof. intros Hpre Hst. rewrite block_app, Hpre. simpl. by rewrite Hst. Qed.

Lemma block_keeps {S : Type} (R : S -> S -> Prop) (stmts : list (S -> Res S)) :
  (forall s, R s s) -> (forall a b c, R a b -> R b c -> R a c) ->
  Forall (fun stmt => forall s, R s (stmt s).1) stmts ->
  forall s, R s (block stmts s).1.
Proof.
  intros Hrefl Htrans Hall. induction Hall as [|stmt stmts Hst _ IH]; intros s.
  - apply Hrefl.
  - simpl. specialize (Hst s). destruct (stmt s) as [s1 [e|]]; simpl in *; [done|].
    eapply Htrans; [exact Hst|apply IH].
Qed.

Lemma same_frame_refl r : same_frame r r.
Proof. by unfold same_frame. Qed.

Lemma same_frame_trans a b c : same_frame a b -> same_frame b c -> same_frame a c.
Proof. unfold same_frame. intuition congruence. Qed.

Lemma draw_on_same_frame f r : same_frame r (draw_on f r).1.
Proof. unfold draw_on. by destruct (f (context r)). Qed.

Lemma when_same_frame c (m : Render -> Res Render) r :
  (forall r, same_frame r (m r).1) -> same_frame r (when c m r).1.
Proof. intros H. unfold when. destruct c; [apply H|apply same_frame_refl]. Qed.

Lemma with_engine_same_frame (f : Engine -> Render -> Res Render) r :
  (forall e r, same_frame r (f e r).1) -> same_frame r (with_engine f r).1.
Proof. intros H. unfold with_engine. destruct (engine r); [apply H|apply same_frame_refl]. Qed.

(** no overlay statement touches the callback's registration, the event
    log, the nodes or the world, whatever the overlays draw *)
Lemma overlays_same_frame ov h :
  Forall (fun stmt => forall r, same_frame r (stmt r).1) (overlays ov h).
Proof.
  unfold overlays. repeat apply Forall_cons_2; try apply Forall_nil_2; intros r.
  all: try (apply when_same_frame; intros r0).
  all: try (apply with_engine_same_frame; intros e0 r1).
  all: try (apply when_same_frame; intros r2).
  all: try apply draw_on_same_frame.
  destruct (debug ov r0 (debugState r0, context r0)) as [[d c] err]. done.
Qed.

Lemma finish_eq h r :
  block (finish h) r
  = done (trigger (AfterRender (h_timestamp h))
            (set_extraDraw None
               (set_layer
                  (off_update h
                     (layer (if flag (options r) "hasBounds"
                             then endViewTransform r else r)))
                  (if flag (options r) "hasBounds" then endViewTransform r else r)))).
Proof. unfold finish. simpl. unfold when. by destruct (flag (options r) "hasBounds"). Qed.

(** the callback: its overlays, then, if they all returned, the rest *)
Lemma run_extraDraw_cases ov h r :
  let ro := block (overlays ov h) r in
  same_frame r ro.1
  /\ match ro.2 with
     | Some e => run_extraDraw ov h r = fault e ro.1
     | None => run_extraDraw ov h r = block (finish h) ro.1
     end.
Proof.
  cbn zeta. split.
  - apply (block_keeps same_frame); auto using same_frame_refl, overlays_same_frame.
    apply same_frame_trans.
  - unfold run_extraDraw. rewrite block_app.
    by destruct (block (overlays ov h) r) as [r1 [e|]].
Qed.

(** C8, amended. Nothing isolates the overlays from one another. If the
    overlay renderers before a given one have returned and that one
    faults, the callback ends there with that fault: the overlay
    renderers after it do not run, the view transform is not reverted,
    the callback stays registered and remembered in [render.extraDraw],
    and [afterRender] is not emitted. The main pass has run before the
    callback and is not undone: the layer's nodes and the world are as
    the callback found them. Only when every overlay renderer returns
    does the pass revert the view transform (under [hasBounds]),
    deregister the callback, clear [render.extraDraw] and then emit
    [afterRender]. *)
Theorem overlay_fault_propagates ov h r :
  let res := run_extraDraw ov h r in
  (forall pre stmt post r1 r2 e,
     overlays ov h = pre ++ stmt :: post ->
     block pre r = done r1 -> stmt r1 = fault e r2 -> res = fault e r2)
  /\ l_nodes (layer res.1) = l_nodes (layer r)
  /\ engine res.1 = engine r
  /\ (forall e, res.2 = Some e ->
        extraDraw res.1 = extraDraw r
        /\ l_update (layer res.1) = l_update (layer r)
        /\ events res.1 = events r)
  /\ (res.2 = None ->
        exists r1, same_frame r r1
          /\ res.1 = trigger (AfterRender (h_timestamp h))
                       (set_extraDraw None
                          (set_layer
                             (off_update h
                                (layer (if flag (options r) "hasBounds"
                                        then endViewTransform r1 else r1)))
                             (if flag (options r) "hasBounds"
                              then endViewTransform r1 else r1)))).
Proof.
  cbn zeta. destruct (run_extraDraw_cases ov h r) as [Hsame Hres].
  destruct (block (overlays ov h) r) as [ro err] eqn:Hro. cbn [fst snd] in *.
  destruct Hsame as (Hx & Hu & Hn & Hev & Hen & Hop & Htk).
  split_and!.
  - intros pre stmt post r1 r2 e Hov Hpre Hst.
    unfold run_extraDraw. rewrite Hov, <- (assoc_L (++)), <- app_comm_cons.
    by apply (block_fault pre (post ++ finish h) stmt r r1 r2 e).
  - destruct err as [e|]; rewrite Hres; [done|]. rewrite finish_eq. cbn.
    by destruct (flag (options ro) "hasBounds").
  - destruct err as [e|]; rewrite Hres; [done|]. rewrite finish_eq. cbn.
    by destruct (flag (options ro) "hasBounds").
  - intros e He. destruct err as [e'|]; rewrite Hres in *; [done|].
    rewrite finish_eq in He. done.
  - intros He. destruct err as [e'|]; rewrite Hres in *; [done|].
    exists ro. split; [done|]. rewrite finish_eq, Hop. done.
Qed.



Lemma same_protocol_refl r : same_protocol r r.
Proof. by unfold same_protocol. Qed.

Lemma same_protocol_trans a b c :
  same_protocol a b -> same_protocol b c -> same_protocol a c.
Proof. unfold same_protocol. intuition congruence. Qed.

Lemma pass_now_same_protocol f r : same_protocol r (pass_now f r).1.
Proof.
  unfold pass_now, with_engine, pass. destruct (engine r); [|apply same_protocol_refl].
  by destruct (f _).
Qed.

(** the main pass of [Render.world], in either mode *)
Lemma main_pass_same_protocol opts bodies r :
  same_protocol r
    ((if negb (flag opts "wireframes")
      then pass_now (MainPass.Render_bodies opts bodies) r
      else block [ when (flag opts "showConvexHulls")
                     (pass_now (MainPass.Render_bodyConvexHulls bodies));
                   pass_now (MainPass.Render_bodyWireframes opts bodies) ] r).1).
Proof.
  destruct (negb _); [apply pass_now_same_protocol|].
  apply (block_keeps same_protocol); auto using same_protocol_refl.
  - apply same_protocol_trans.
  - repeat apply Forall_cons_2; try apply Forall_nil_2; intros r0.
    + unfold when. destruct (flag _ _); auto using pass_now_same_protocol, same_protocol_refl.
    + apply pass_now_same_protocol.
Qed.

(** [Render.world] on a renderer with an engine: [beforeRender], then
    the passes; a fault ends the call there; otherwise the block under
    [if (!render.extraDraw)] is the last thing that happens *)
Lemma Render_world_cases r e :
  engine r = Some e ->
  let res := Render_world r in
  match res.2 with
  | Some _ => same_protocol (trigger (BeforeRender (timestamp e)) r) res.1
  | None =>
      exists rm bodies constraints,
        same_protocol (trigger (BeforeRender (timestamp e)) r) rm
        /\ res.1 = schedule bodies constraints (timestamp e) rm
  end.
Proof.
  intros He. cbn zeta. unfold Render_world. rewrite He.
  set (r1 := trigger (BeforeRender (timestamp e)) r).
  set (bg := if flag (options r) "wireframes" then _ else _).
  set (r2 := if bool_decide (currentBackground r1 = bg) then r1 else _applyBackground bg r1).
  assert (H2 : same_protocol r1 r2).
  { unfold r2. by destruct (bool_decide _). }
  set (culled := if flag (options r) "hasBounds" then _ else _).
  assert (Hc : (culled.1.1.2 = None /\ same_protocol r1 culled.1.1.1)
               \/ (exists err, culled.1.1 = fault err r2)).
  { unfold culled. destruct (flag (options r) "hasBounds"); [|left; done].
    destruct (visible_constraints _ _ _); [left; done|right; by eexists]. }
  destruct culled as [[[r3 err3] bodies] constraints]. cbn [fst snd] in Hc.
  destruct Hc as [[-> H3]|[err [= -> ->]]]; cbn [and_then fst snd]; [|done].
  cbn [block and_then].
  pose proof (main_pass_same_protocol (options r) bodies r3) as Hm.
  destruct (if negb (flag (options r) "wireframes") then _ else _) as [rm [errm|]];
    cbn [fst snd and_then done] in *.
  - by eapply same_protocol_trans.
  - exists rm, bodies, constraints. split; [by eapply same_protocol_trans|done].
Qed.

Lemma schedule_cases bodies constraints ts r :
  events (schedule bodies constraints ts r) = events r
  /\ match extraDraw r with
     | Some h => schedule bodies constraints ts r = r
     | None =>
         exists h, extraDraw (schedule bodies constraints ts r) = Some h
           /\ l_update (layer (schedule bodies constraints ts r))
              = l_update (layer r) ++ [h]
     end.
Proof. unfold schedule. destruct (extraDraw r); [done|]. split; [done|]. by eexists. Qed.

Lemma count_after_before evs ts :
  length (filter (fun ev => is_before ev = false) (evs ++ [BeforeRender ts]))
  = length (filter (fun ev => is_before ev = false) evs)
  /\ length (filter (fun ev => is_before ev = true) (evs ++ [BeforeRender ts]))
     = length (filter (fun ev => is_before ev = true) evs) + 1.
Proof.
  rewrite !filter_app, !length_app. split.
  - rewrite filter_cons_False, filter_nil by (cbn; congruence). simpl. lia.
  - rewrite filter_cons_True, filter_nil by (cbn; congruence). simpl. lia.
Qed.


(** a frame, read on the protocol *)
Lemma frame_protocol r :
  let r' := (Render_world r).1 in
  (pending_ok r -> pending_ok r')
  /\ passes_done r' = passes_done r
  /\ frames_begun r' = frames_begun r + (match engine r with Some _ => 1 | None => 0 end)
  /\ pending r <= pending r'
  /\ (forall h, extraDraw r = Some h ->
        extraDraw r' = Some h /\ l_update (layer r') = l_update (layer r))
  /\ ((Render_world r).2 = None -> pending r' = 1).
Proof.
  cbn zeta. destruct (engine r) as [e|] eqn:He.
  2:{ unfold Render_world. rewrite He. cbn. split_and!; try done; lia. }
  pose proof (Render_world_cases r e He) as Hc. cbn zeta in Hc.
  assert (Hcount : forall rm, same_protocol (trigger (BeforeRender (timestamp e)) r) rm ->
    passes_done rm = passes_done r /\ frames_begun rm = frames_begun r + 1).
  { intros rm (_ & _ & Hev & _). unfold passes_done, frames_begun. rewrite Hev.
    apply count_after_before. }
  destruct (Render_world r) as [r' [err|]]; cbn [fst snd] in *.
  - destruct (Hcount r' Hc) as [Hp Hf]. destruct Hc as (Hx & Hu & _ & _). cbn in Hx, Hu.
    unfold pending_ok, pending. rewrite Hx, Hu. split_and!; done.
  - destruct Hc as (rm & bodies & constraints & Hsame & ->).
    destruct (Hcount rm Hsame) as [Hp Hf]. destruct Hsame as (Hx & Hu & Hev & _).
    cbn in Hx, Hu.
    destruct (schedule_cases bodies constraints (timestamp e) rm) as [Hse Hsx].
    unfold passes_done, frames_begun in *. rewrite Hse.
    unfold pending_ok, pending. rewrite Hx in Hsx.
    destruct (extraDraw r) as [h|] eqn:Hxr.
    + rewrite Hsx, Hx, Hu. split_and!; done.
    + destruct Hsx as (h & -> & ->). rewrite Hu. split_and!; try done; try lia.
      by intros ->.
Qed.

Lemma off_update_self h :
  filter (fun h' => h_token h' ≠ h_token h) [h] = [].
Proof. by rewrite filter_cons_False, filter_nil by (intros H; by apply H). Qed.

(** an ['update'] signal, read on the protocol *)
Lemma update_protocol ov r :
  pending_ok r ->
  let res := update_signal ov r in
  match extraDraw r with
  | None => res = done r
  | Some h =>
      res = run_extraDraw ov h r
      /\ match res.2 with
         | Some _ => same_frame r res.1
         | None =>
             extraDraw res.1 = None /\ l_update (layer res.1) = []
             /\ exists r1, events r1 = events r /\ extraDraw r1 = None
                  /\ l_update (layer r1) = []
                  /\ res.1 = trigger (AfterRender (h_timestamp h)) r1
         end
  end.
Proof.
  intros Hp. cbn zeta. unfold pending_ok in Hp.
  destruct (extraDraw r) as [h|] eqn:Hx; cbn [option_list] in Hp;
    [|by unfold update_signal; rewrite Hp].
  assert (Hus : update_signal ov r = run_extraDraw ov h r).
  { unfold update_signal. rewrite Hp. simpl.
    by destruct (run_extraDraw ov h r) as [? [?|]]. }
  rewrite Hus. split; [done|].
  destruct (run_extraDraw_cases ov h r) as [Hsame Hres].
  destruct (block (overlays ov h) r) as [ro [e|]]; cbn [fst snd] in *; rewrite Hres.
  - done.
  - rewrite finish_eq. destruct Hsame as (Hxo & Huo & Hno & Hevo & _).
    assert (Hoff : l_update (off_update h (layer
              (if flag (options ro) "hasBounds" then endViewTransform ro else ro))) = []).
    { unfold off_update. cbn [l_update].
      replace (l_update (layer (if flag (options ro) "hasBounds"
                                then endViewTransform ro else ro)))
        with [h]; [apply off_update_self|].
      destruct (flag _ _); cbn; by rewrite Huo, Hp. }
    cbn [fst snd done trigger set_events extraDraw layer set_extraDraw set_layer].
    split_and!; try done.
    eexists. split_and!; [| | |reflexivity]; try done.
    cbn. by destruct (flag _ _).
Qed.







End FrameFacts.

(** ** The passes over the bodies: what they keep *)

Section PassFacts.
Import MainPass.

Implicit Types (p : Part) (nodes : list Node) (n : nat) (b : Body) (sc : Scene).

Lemma keeps_nodes_refl nodes : keeps_nodes nodes nodes.
Proof. by split. Qed.

Lemma keeps_nodes_trans (l1 l2 l3 : list Node) :
  keeps_nodes l1 l2 -> keeps_nodes l2 l3 -> keeps_nodes l1 l3.
Proof.
  intros [Hl1 Hk1] [Hl2 Hk2]. split; [lia|].
  intros m Hm. rewrite Hk2 by lia. by apply Hk1.
Qed.

Lemma keeps_nodes_alter a n nodes : keeps_nodes nodes (alter (node_attr a) n nodes).
Proof.
  split; [by rewrite length_alter|]. intros m _.
  destruct (decide (n = m)) as [->|Hne]; [apply alter_attr_kind|].
  by rewrite list_lookup_alter_ne.
Qed.

Lemma keeps_nodes_app nodes more : keeps_nodes nodes (nodes ++ more).
Proof.
  split; [rewrite length_app; lia|]. intros m Hm. by rewrite lookup_app_l.
Qed.

Lemma keeps_nodes_fade sh sl n p nodes : keeps_nodes nodes (fade sh sl n p nodes).2.
Proof.
  unfold fade. repeat case_match; simpl; auto using keeps_nodes_refl, keeps_nodes_alter.
Qed.

Lemma keeps_nodes_sprite_attrs p n nodes : keeps_nodes nodes (apply_sprite_attrs p n nodes).
Proof. rewrite apply_sprite_attrs_eq. apply keeps_nodes_alter. Qed.

Lemma fade_render sh sl n p nodes : p_render (fade sh sl n p nodes).1 = p_render p.
Proof. unfold fade. by repeat case_match. Qed.

(** the node of a part, found or made *)
Lemma bodies_node_keeps p nodes n p' nodes' :
  bodies_node p nodes = Ok (n, p', nodes') ->
  keeps_nodes nodes nodes' /\ p_render p' = p_render p /\ spriteNode p' = Some n.
Proof.
  unfold bodies_node, create, first_vertex. intros H.
  destruct (spriteNode p) as [n0|] eqn:Hc.
  { injection H as <- <- <-. split; [apply keeps_nodes_alter|done]. }
  destruct (is_textured p).
  { injection H as <- <- <-. split; [apply keeps_nodes_app|done]. }
  destruct (JSNum.truthy (circleRadius p)).
  { injection H as <- <- <-. split; [apply keeps_nodes_app|done]. }
  destruct (vertices p) as [|v0 vs]; [done|]. cbn in H.
  injection H as <- <- <-. split; [apply keeps_nodes_app|done].
Qed.

Lemma wireframes_node_keeps opts p nodes n p' nodes' :
  wireframes_node opts p nodes = Ok (n, p', nodes') ->
  keeps_nodes nodes nodes' /\ p_render p' = p_render p /\ spriteNode p' = Some n.
Proof.
  unfold wireframes_node, create, first_vertex. intros H.
  destruct (spriteNode p) as [n0|] eqn:Hc.
  { injection H as <- <- <-. split; [apply keeps_nodes_alter|done]. }
  destruct (vertices p) as [|v0 vs]; [done|]. cbn in H.
  injection H as <- <- <-. split; [apply keeps_nodes_app|done].
Qed.

Lemma bodies_part_keeps opts sl p nodes p' nodes' :
  bodies_part opts sl p nodes = Ok (p', nodes') ->
  keeps_nodes nodes nodes' /\ p_render p' = p_render p
  /\ (visible (p_render p) = true -> is_Some (spriteNode p')).
Proof.
  unfold bodies_part. destruct (visible (p_render p)); simpl.
  2:{ intros [= <- <-]. split; [apply keeps_nodes_refl|done]. }
  destruct (bodies_node p nodes) as [[[n p1] nodes1]|e] eqn:Hn; [|done]. simpl.
  destruct (bodies_node_keeps _ _ _ _ _ Hn) as (Hk & Hr & Hc).
  intros [= Hfade].
  pose proof (keeps_nodes_fade (flag opts "showSleeping") sl n p1
                (apply_sprite_attrs p1 n nodes1)) as Hkf.
  pose proof (fade_render (flag opts "showSleeping") sl n p1
                (apply_sprite_attrs p1 n nodes1)) as Hrf.
  pose proof (fade_spriteNode (flag opts "showSleeping") sl n p1
                (apply_sprite_attrs p1 n nodes1)) as Hcf.
  rewrite Hfade in Hkf, Hrf, Hcf. cbn [fst snd] in *.
  split_and!.
  - eapply keeps_nodes_trans; [exact Hk|].
    eapply keeps_nodes_trans; [apply keeps_nodes_sprite_attrs|exact Hkf].
  - congruence.
  - intros _. rewrite Hcf, Hc. by eexists.
Qed.

Lemma wireframes_part_keeps opts sl p nodes p' nodes' :
  wireframes_part opts sl p nodes = Ok (p', nodes') ->
  keeps_nodes nodes nodes' /\ p_render p' = p_render p /\ is_Some (spriteNode p').
Proof.
  unfold wireframes_part.
  destruct (wireframes_node opts p nodes) as [[[n p1] nodes1]|e] eqn:Hn; [|done]. simpl.
  destruct (wireframes_node_keeps _ _ _ _ _ _ Hn) as (Hk & Hr & Hc).
  intros [= Hfade].
  pose proof (keeps_nodes_fade (flag opts "showSleeping") sl n p1 nodes1) as Hkf.
  pose proof (fade_render (flag opts "showSleeping") sl n p1 nodes1) as Hrf.
  pose proof (fade_spriteNode (flag opts "showSleeping") sl n p1 nodes1) as Hcf.
  rewrite Hfade in Hkf, Hrf, Hcf. cbn [fst snd] in *.
  split_and!.
  - by eapply keeps_nodes_trans.
  - congruence.
  - rewrite Hcf, Hc. by eexists.
Qed.

Lemma each_part_keeps step ps : forall nodes,
  (forall p nodes p' nodes', step p nodes = Ok (p', nodes') -> keeps_nodes nodes nodes') ->
  keeps_nodes nodes (each_part step ps nodes).1.2.
Proof.
  induction ps as [|p ps IH]; intros nodes Hs; simpl; [apply keeps_nodes_refl|].
  destruct (step p nodes) as [[p' nodes']|e] eqn:Hp; simpl; [|apply keeps_nodes_refl].
  specialize (IH nodes' Hs).
  destruct (each_part step ps nodes') as [[ps' nodes''] err]. simpl in *.
  eapply keeps_nodes_trans; [by eapply Hs|done].
Qed.

Lemma each_drawn_part_keeps step b nodes :
  (forall p nodes p' nodes', step p nodes = Ok (p', nodes') -> keeps_nodes nodes nodes') ->
  keeps_nodes nodes (each_drawn_part step b nodes).1.2.
Proof.
  intros Hs. unfold each_drawn_part. destruct (others b) as [|q qs].
  - pose proof (each_part_keeps step [self b] nodes Hs) as H.
    by destruct (each_part step [self b] nodes) as [[ps' nodes'] err].
  - pose proof (each_part_keeps step (q :: qs) nodes Hs) as H.
    by destruct (each_part step (q :: qs) nodes) as [[ps' nodes'] err].
Qed.

Lemma body_step_keeps part_step opts b nodes :
  (forall sl p nodes p' nodes',
     part_step opts sl p nodes = Ok (p', nodes') -> keeps_nodes nodes nodes') ->
  keeps_nodes nodes (body_step part_step opts b nodes).1.2.
Proof.
  intros Hs. unfold body_step. destruct (negb _); [apply keeps_nodes_refl|].
  apply each_drawn_part_keeps. intros. by eapply Hs.
Qed.

Lemma hull_step_keeps b nodes : keeps_nodes nodes (hull_step b nodes).1.2.
Proof.
  unfold hull_step, create. destruct (_ || _); [apply keeps_nodes_refl|].
  destruct (spriteNode (self b)); [apply keeps_nodes_alter|].
  destruct (first_vertex (self b)); [apply keeps_nodes_app|apply keeps_nodes_refl].
Qed.

Lemma each_body_keeps step refs :
  (forall b nodes, keeps_nodes nodes (step b nodes).1.2) ->
  forall sc, keeps_nodes (sc_nodes sc) (sc_nodes (each_body step refs sc).1).
Proof.
  intros Hs. induction refs as [|i refs IH]; intros sc; simpl; [apply keeps_nodes_refl|].
  destruct (sc_bodies sc !! i) as [b|]; [|apply IH].
  specialize (Hs b (sc_nodes sc)).
  destruct (step b (sc_nodes sc)) as [[b' nodes] [e|]]; simpl in *; [done|].
  eapply keeps_nodes_trans; [exact Hs|].
  apply (IH (mkScene (<[i := b']> (sc_bodies sc)) nodes (sc_ctx sc))).
Qed.

(** a pass changes the bodies it was given, and no other *)
Lemma each_body_other step refs i :
  i ∉ refs -> forall sc, sc_bodies (each_body step refs sc).1 !! i = sc_bodies sc !! i.
Proof.
  induction refs as [|j refs IH]; intros Hi sc; simpl; [done|].
  apply not_elem_of_cons in Hi as [Hne Hi].
  destruct (sc_bodies sc !! j) as [b|]; [|by apply IH].
  destruct (step b (sc_nodes sc)) as [[b' nodes] [e|]]; simpl.
  - by rewrite lookup_insert_ne.
  - rewrite IH by done. simpl. by rewrite lookup_insert_ne.
Qed.

Lemma Render_bodies_keeps opts refs sc :
  keeps_nodes (sc_nodes sc) (sc_nodes (Render_bodies opts refs sc).1).
Proof.
  apply each_body_keeps. intros b nodes. apply body_step_keeps.
  intros sl p n0 p' n' H. by destruct (bodies_part_keeps _ _ _ _ _ _ H).
Qed.

Lemma Render_bodyWireframes_keeps opts refs sc :
  keeps_nodes (sc_nodes sc) (sc_nodes (Render_bodyWireframes opts refs sc).1).
Proof.
  unfold Render_bodyWireframes.
  apply (each_body_keeps _ refs) with (sc := begin_path sc).
  intros b nodes. apply body_step_keeps.
  intros sl p n0 p' n' H. by destruct (wireframes_part_keeps _ _ _ _ _ _ H).
Qed.

Lemma Render_bodyConvexHulls_keeps refs sc :
  keeps_nodes (sc_nodes sc) (sc_nodes (Render_bodyConvexHulls refs sc).1).
Proof.
  unfold Render_bodyConvexHulls.
  apply (each_body_keeps _ refs) with (sc := begin_path sc). apply hull_step_keeps.
Qed.

(** ** The cache, pass by pass *)

Lemma bodies_part_caches : caches false bodies_part.
Proof.
  intros opts sl p nodes. split.
  - intros p' nodes' H. by destruct (bodies_part_keeps _ _ _ _ _ _ H) as (_ & ? & ?).
  - intros Hset. cbn in Hset.
    destruct (visible (p_render p)) eqn:Hv.
    + destruct (Hset eq_refl) as [n Hn].
      destruct (bodies_part_ok opts sl p nodes) as (p' & nodes' & Hs & Hok).
      { intros Hc. congruence. }
      exists p', nodes'. split; [done|].
      unfold step_ok in Hok. rewrite Hn in Hok. by destruct Hok as (_ & ? & _).
    + exists p, nodes. unfold bodies_part. by rewrite Hv.
Qed.

Lemma wireframes_part_caches : caches true wireframes_part.
Proof.
  intros opts sl p nodes. split.
  - intros p' nodes' H. by destruct (wireframes_part_keeps _ _ _ _ _ _ H) as (_ & ? & ?).
  - intros Hset. destruct (Hset eq_refl) as [n Hn].
    destruct (wireframes_part_ok opts sl p nodes) as (p' & nodes' & Hs & Hok).
    { intros Hc. congruence. }
    exists p', nodes'. split; [done|].
    unfold step_ok in Hok. rewrite Hn in Hok. by destruct Hok as (_ & ? & _).
Qed.

Section Cached.
Context (wire : bool)
  (part_step : Options -> bool -> Part -> list Node -> Exc (Part * list Node))
  (Hstep : caches wire part_step).

Lemma drawn_in_render p p' : p_render p' = p_render p -> drawn_in wire p' = drawn_in wire p.
Proof. unfold drawn_in. by intros ->. Qed.

Lemma each_part_caches opts sl ps : forall nodes ps' nodes',
  each_part (part_step opts sl) ps nodes = done (ps', nodes') ->
  length ps' = length ps
  /\ Forall (fun p => drawn_in wire p = true -> is_Some (spriteNode p)) ps'
  /\ (p_render <$> ps') = (p_render <$> ps).
Proof using Hstep.
  induction ps as [|p ps IH]; intros nodes ps' nodes'; simpl.
  { intros [= <- <-]. done. }
  destruct (part_step opts sl p nodes) as [[p1 nodes1]|e] eqn:Hp; [|done].
  destruct (each_part (part_step opts sl) ps nodes1) as [[ps1 nodes2] err] eqn:Hps.
  intros [= <- <- ->].
  destruct (IH _ _ _ Hps) as (Hl & Hall & Hr).
  destruct (Hstep opts sl p nodes) as [H1 _].
  destruct (H1 _ _ Hp) as [Hr1 Hc1].
  split_and!.
  - simpl. by rewrite Hl.
  - constructor; [|done]. intros Hd. apply Hc1. by rewrite <- (drawn_in_render p p1).
  - rewrite !fmap_cons. by rewrite Hr1, Hr.
Qed.

Lemma each_part_cached opts sl ps : forall nodes,
  Forall (fun p => drawn_in wire p = true -> is_Some (spriteNode p)) ps ->
  exists ps' nodes', each_part (part_step opts sl) ps nodes = done (ps', nodes')
    /\ length nodes' = length nodes.
Proof using Hstep.
  induction ps as [|p ps IH]; intros nodes Hall; simpl.
  { by eexists _, _. }
  apply Forall_cons in Hall as [Hp Hall].
  destruct (Hstep opts sl p nodes) as [_ H2].
  destruct (H2 Hp) as (p1 & nodes1 & -> & Hl1).
  destruct (IH nodes1 Hall) as (ps1 & nodes2 & -> & Hl2).
  eexists _, _. split; [done|]. congruence.
Qed.

Lemma body_step_caches opts b nodes b' nodes' :
  body_step part_step opts b nodes = done (b', nodes') -> settled wire b'.
Proof using Hstep.
  unfold body_step. destruct (visible (p_render (self b))) eqn:Hv; simpl.
  2:{ intros [= <- <-]. unfold settled. congruence. }
  unfold each_drawn_part. destruct (others b) as [|q qs] eqn:Ho.
  - destruct (each_part _ [self b] nodes) as [[ps1 nodes1] err] eqn:Hps.
    intros [= <- <- ->].
    destruct (each_part_caches _ _ _ _ _ _ Hps) as (Hl & Hall & _).
    destruct ps1 as [|p1 [|? ?]]; try done. intros _. done.
  - destruct (each_part _ (q :: qs) nodes) as [[ps1 nodes1] err] eqn:Hps.
    intros [= <- <- ->].
    destruct (each_part_caches _ _ _ _ _ _ Hps) as (Hl & Hall & _).
    intros _. unfold drawn_parts. simpl. by destruct ps1.
Qed.

Lemma body_step_cached opts b nodes :
  settled wire b ->
  exists b' nodes', body_step part_step opts b nodes = done (b', nodes')
    /\ length nodes' = length nodes.
Proof using Hstep.
  intros Hset. unfold body_step.
  destruct (visible (p_render (self b))) eqn:Hv; simpl; [|by eexists _, _].
  specialize (Hset Hv). unfold drawn_parts in Hset. unfold each_drawn_part.
  destruct (others b) as [|q qs].
  - destruct (each_part_cached opts (isSleeping (self b)) _ nodes Hset)
      as (ps1 & nodes1 & -> & Hl). by eexists _, _.
  - destruct (each_part_cached opts (isSleeping (self b)) _ nodes Hset)
      as (ps1 & nodes1 & -> & Hl). by eexists _, _.
Qed.

Lemma each_body_caches opts refs : forall sc sc' (P : nat -> Prop),
  each_body (body_step part_step opts) refs sc = done sc' ->
  (forall i b, P i -> sc_bodies sc !! i = Some b -> settled wire b) ->
  forall i b, P i \/ i ∈ refs -> sc_bodies sc' !! i = Some b -> settled wire b.
Proof using Hstep.
  induction refs as [|j refs IH]; intros sc sc' P; simpl.
  { intros [= <-] HP i b [Hi|Hi]; [by apply HP|by apply elem_of_nil in Hi]. }
  destruct (sc_bodies sc !! j) as [bj|] eqn:Hj.
  - destruct (body_step part_step opts bj (sc_nodes sc)) as [[b' nodes] [e|]] eqn:Hb;
      [done|].
    intros Hrun HP i b Hi.
    apply (IH _ _ (fun i => P i \/ i = j) Hrun).
    + intros i0 b0 Hi0. simpl. destruct (decide (i0 = j)) as [->|Hne].
      * rewrite lookup_insert_eq. intros [= <-]. by eapply body_step_caches.
      * rewrite lookup_insert_ne by done. destruct Hi0 as [Hi0|Hi0]; [by apply HP|done].
    + rewrite elem_of_cons in Hi. tauto.
  - intros Hrun HP i b Hi.
    apply (IH _ _ (fun i => P i \/ i = j) Hrun).
    + intros i0 b0 [Hi0| ->]; [by apply HP|congruence].
    + rewrite elem_of_cons in Hi. tauto.
Qed.

Lemma each_body_cached opts refs : forall sc,
  all_settled wire refs (sc_bodies sc) ->
  exists sc', each_body (body_step part_step opts) refs sc = done sc'
    /\ length (sc_nodes sc') = length (sc_nodes sc).
Proof using Hstep.
  induction refs as [|j refs IH]; intros sc Hall; simpl; [by eexists|].
  destruct (sc_bodies sc !! j) as [bj|] eqn:Hj.
  - destruct (body_step_cached opts bj (sc_nodes sc)) as (b' & nodes & Hb & Hl).
    { apply (Hall j); [apply elem_of_cons; by left|done]. }
    rewrite Hb. cbn [done].
    destruct (IH (mkScene (<[j := b']> (sc_bodies sc)) nodes (sc_ctx sc)))
      as (sc' & -> & Hl').
    { intros i b Hi. simpl. destruct (decide (i = j)) as [->|Hne].
      - rewrite lookup_insert_eq. intros [= <-]. by eapply body_step_caches.
      - rewrite lookup_insert_ne by done. apply Hall. apply elem_of_cons; by right. }
    exists sc'. split; [done|]. simpl in Hl'. congruence.
  - apply IH. intros i b Hi. apply Hall. apply elem_of_cons; by right.
Qed.

End Cached.

Lemma body_pass_unfold wire opts refs sc :
  body_pass wire opts refs sc
  = each_body (body_step (if wire then wireframes_part else bodies_part) opts) refs
      (if wire then begin_path sc else sc).
Proof. by destruct wire. Qed.

Lemma mode_caches wire : caches wire (if wire then wireframes_part else bodies_part).
Proof. destruct wire; [apply wireframes_part_caches|apply bodies_part_caches]. Qed.

(** X1. Once a pass over some bodies has returned, every part it draws
    in them has its node, and from then on the layer stops growing: as
    long as that holds of the bodies (the simulation moves them but does
    not touch [spriteNode] or the [render] settings), a pass over the same
    bodies, in the same mode and with any options, returns, adds no node
    to the layer and leaves the bodies in that condition. *)
Theorem steady_pass_adds_no_node wire opts refs sc sc' :
  body_pass wire opts refs sc = done sc' ->
  all_settled wire refs (sc_bodies sc')
  /\ forall opts2 sc2,
       all_settled wire refs (sc_bodies sc2) ->
       exists sc3, body_pass wire opts2 refs sc2 = done sc3
         /\ length (sc_nodes sc3) = length (sc_nodes sc2)
         /\ all_settled wire refs (sc_bodies sc3).
Proof.
  intros Hrun. rewrite body_pass_unfold in Hrun.
  assert (Hfrom : forall opts1 sc1 sc2,
    each_body (body_step (if wire then wireframes_part else bodies_part) opts1) refs sc1
      = done sc2 -> all_settled wire refs (sc_bodies sc2)).
  { intros opts1 sc1 sc2 H i b Hi.
    apply (each_body_caches wire _ (mode_caches wire) opts1 refs sc1 sc2 (fun _ => False) H).
    - done.
    - by right. }
  split; [by eapply Hfrom|].
  intros opts2 sc2 Hall. rewrite body_pass_unfold.
  destruct (each_body_cached wire _ (mode_caches wire) opts2 refs
              (if wire then begin_path sc2 else sc2)) as (sc3 & Hsc3 & Hl).
  { by destruct wire. }
  exists sc3. split; [done|]. split; [|by eapply Hfrom].
  rewrite Hl. by destruct wire.
Qed.

(** the demo world, drawn twice by [Render.bodies] *)
Lemma steady_pass_adds_no_node_witness :
  exists sc1 sc2,
    body_pass false shaded [1] (mkScene (e_bodies demo_engine) [] []) = done sc1
    /\ length (sc_nodes sc1) = 1
    /\ body_pass false shaded [1] sc1 = done sc2
    /\ length (sc_nodes sc2) = 1.
Proof.
  assert (H1 : exists sc1,
    body_pass false shaded [1] (mkScene (e_bodies demo_engine) [] []) = done sc1
    /\ length (sc_nodes sc1) = 1).
  { eexists. split; [vm_compute; reflexivity|reflexivity]. }
  destruct H1 as (sc1 & Hsc1 & Hlen).
  destruct (steady_pass_adds_no_node false shaded [1] _ sc1 Hsc1) as [Hset Hnext].
  destruct (Hnext shaded sc1 Hset) as (sc2 & Hsc2 & Hl2 & _).
  exists sc1, sc2. split_and!; try done. congruence.
Defined.

(** X2. The fault of a step on one part, exactly: [Render.bodies]
    faults on a part if and only if the part is visible, has no node yet,
    has neither a texture nor a truthy [circleRadius], and has no vertex;
    [Render.bodyWireframes] if and only if the part has no node yet and no
    vertex. The fault is the [TypeError] of destructuring [vertices[0]],
    and it comes before the step has changed anything: the loop that
    runs the step leaves the part and the layer as they were. *)
Theorem part_step_fault_condition opts sl p nodes :
  (is_ok (bodies_part opts sl p nodes) = false
   <-> visible (p_render p) = true /\ spriteNode p = None /\ is_textured p = false
       /\ JSNum.truthy (circleRadius p) = false /\ vertices p = [])
  /\ (is_ok (wireframes_part opts sl p nodes) = false
      <-> spriteNode p = None /\ vertices p = [])
  /\ (forall e, bodies_part opts sl p nodes = Throw e \/ wireframes_part opts sl p nodes = Throw e ->
        e = TypeError "vertices[0]")
  /\ (forall step ps,
        is_ok (step p nodes) = false ->
        exists e, each_part step (p :: ps) nodes = fault e (p :: ps, nodes)).
Proof.
  assert (Hb : forall r, bodies_part opts sl p nodes = r ->
    match r with
    | Ok _ => ~ (visible (p_render p) = true /\ spriteNode p = None /\ is_textured p = false
                 /\ JSNum.truthy (circleRadius p) = false /\ vertices p = [])
    | Throw e => e = TypeError "vertices[0]"
                 /\ visible (p_render p) = true /\ spriteNode p = None
                 /\ is_textured p = false
                 /\ JSNum.truthy (circleRadius p) = false /\ vertices p = []
    end).
  { intros r <-. unfold bodies_part, bodies_node, create, first_vertex.
    destruct (visible (p_render p)); simpl; [|intuition congruence].
    destruct (spriteNode p); simpl; [intuition congruence|].
    destruct (is_textured p); simpl; [intuition congruence|].
    destruct (JSNum.truthy (circleRadius p)); simpl; [intuition congruence|].
    destruct (vertices p); simpl; [done|intuition congruence]. }
  assert (Hw : forall r, wireframes_part opts sl p nodes = r ->
    match r with
    | Ok _ => ~ (spriteNode p = None /\ vertices p = [])
    | Throw e => e = TypeError "vertices[0]" /\ spriteNode p = None /\ vertices p = []
    end).
  { intros r <-. unfold wireframes_part, wireframes_node, create, first_vertex.
    destruct (spriteNode p); simpl; [intuition congruence|].
    destruct (vertices p); simpl; [done|intuition congruence]. }
  specialize (Hb _ eq_refl). specialize (Hw _ eq_refl).
  split_and!.
  - destruct (bodies_part opts sl p nodes); simpl; [split; [done|tauto]|].
    split; [tauto|done].
  - destruct (wireframes_part opts sl p nodes); simpl; [split; [done|tauto]|].
    split; [tauto|done].
  - intros e [He|He]; [rewrite He in Hb|rewrite He in Hw]; tauto.
  - intros step ps Hf. simpl. destruct (step p nodes) as [[? ?]|e]; [done|]. by exists e.
Qed.

End PassFacts.

(** ** A frame, statement by statement *)

Section WorldFacts.
Import Frame.

Lemma begun_fields r e :
  bounds (begun r e) = bounds r /\ engine (begun r e) = engine r
  /\ options (begun r e) = options r
  /\ l_nodes (layer (begun r e)) = l_nodes (layer r)
  /\ mouse (begun r e) = mouse r /\ context (begun r e) = context r.
Proof. unfold begun. by destruct (bool_decide _). Qed.

(** [Render.world] on a renderer with an engine *)
Lemma Render_world_unfold r e :
  engine r = Some e ->
  Render_world r
  = match frame_constraints r e with
    | Ok constraints =>
        block [ frame_main (options r) (frame_bodies r e);
                fun s => done (schedule (frame_bodies r e) constraints (timestamp e) s) ]
          (viewed r e)
    | Throw err => fault err (begun r e)
    end.
Proof.
  intros He. unfold Render_world, frame_constraints, viewed, frame_bodies, frame_main.
  rewrite He. unfold begun, mode_background.
  destruct (bool_decide _); destruct (flag (options r) "hasBounds"); try reflexivity.
  - cbn [bounds trigger set_events].
    by destruct (visible_constraints e (bounds r) (allConstraints e)).
  - cbn [bounds trigger set_events _applyBackground set_currentBackground set_layer].
    by destruct (visible_constraints e (bounds r) (allConstraints e)).
Qed.

Lemma frame_main_keeps (R : Render -> Render -> Prop) r e :
  (forall s, R s s) -> (forall a b c, R a b -> R b c -> R a c) ->
  Forall (fun f => forall s, R s (pass_now f s).1) (frame_passes r e) ->
  forall s, R s (frame_main (options r) (frame_bodies r e) s).1.
Proof.
  intros Hrefl Htrans Hpass s. unfold frame_passes in Hpass.
  apply Forall_cons in Hpass as [Hb Hpass].
  apply Forall_cons in Hpass as [Hh Hpass].
  apply Forall_cons in Hpass as [Hw _].
  unfold frame_main. destruct (negb _); [apply Hb|].
  apply (block_keeps R); [done|done|].
  repeat apply Forall_cons_2; try apply Forall_nil_2; intros s0; [|apply Hw].
  unfold when. destruct (flag _ _); [apply Hh|apply Hrefl].
Qed.

(** what the statements after the background keep, the frame keeps *)
Lemma Render_world_keeps (R : Render -> Render -> Prop) r e :
  engine r = Some e ->
  (forall s, R s s) -> (forall a b c, R a b -> R b c -> R a c) ->
  (forall s, R s (startViewTransform s)) -> (forall s, R s (refresh_mouse s)) ->
  Forall (fun f => forall s, R s (pass_now f s).1) (frame_passes r e) ->
  (forall bodies constraints ts s, R s (schedule bodies constraints ts s)) ->
  R (begun r e) (Render_world r).1.
Proof.
  intros He Hrefl Htrans Hsv Hrm Hpass Hsch.
  rewrite (Render_world_unfold r e He).
  destruct (frame_constraints r e) as [constraints|err]; [|apply Hrefl].
  apply (Htrans _ (viewed r e)).
  { unfold viewed. destruct (flag _ _); [|apply Hrefl].
    eapply Htrans; [apply Hsv|apply Hrm]. }
  apply (block_keeps R); [done|done|].
  repeat apply Forall_cons_2; try apply Forall_nil_2; intros s.
  - by apply frame_main_keeps.
  - apply Hsch.
Qed.

Lemma nodes_kept_refl r : nodes_kept r r.
Proof. apply keeps_nodes_refl. Qed.

Lemma nodes_kept_trans a b c : nodes_kept a b -> nodes_kept b c -> nodes_kept a c.
Proof. apply keeps_nodes_trans. Qed.

Lemma nodes_kept_eq r r' : l_nodes (layer r') = l_nodes (layer r) -> nodes_kept r r'.
Proof. unfold nodes_kept. intros ->. apply keeps_nodes_refl. Qed.

Lemma pass_now_nodes_kept f :
  (forall sc, keeps_nodes (sc_nodes sc) (sc_nodes (f sc).1)) ->
  forall s, nodes_kept s (pass_now f s).1.
Proof.
  intros Hf s. unfold pass_now, with_engine, pass.
  destruct (engine s) as [e|]; [|apply nodes_kept_refl].
  specialize (Hf (scene_of e s)). by destruct (f (scene_of e s)).
Qed.

Lemma Render_world_nodes_kept r : nodes_kept r (Render_world r).1.
Proof.
  destruct (engine r) as [e|] eqn:He.
  2:{ unfold Render_world. rewrite He. apply nodes_kept_refl. }
  apply (nodes_kept_trans _ (begun r e)).
  { apply nodes_kept_eq. apply begun_fields. }
  apply (Render_world_keeps nodes_kept r e He).
  - apply nodes_kept_refl.
  - apply nodes_kept_trans.
  - intros s. by apply nodes_kept_eq.
  - intros s. by apply nodes_kept_eq.
  - unfold frame_passes. repeat apply Forall_cons_2; try apply Forall_nil_2;
      apply pass_now_nodes_kept; intros sc.
    + apply Render_bodies_keeps.
    + apply Render_bodyConvexHulls_keeps.
    + apply Render_bodyWireframes_keeps.
  - intros bodies constraints ts s. apply nodes_kept_eq.
    unfold schedule. by destruct (extraDraw s).
Qed.

Lemma run_extraDraw_nodes ov h r :
  l_nodes (layer (run_extraDraw ov h r).1) = l_nodes (layer r).
Proof.
  destruct (run_extraDraw_cases ov h r) as [Hsame Hres].
  destruct (block (overlays ov h) r) as [ro err]. cbn [fst snd] in *.
  destruct Hsame as (_ & _ & Hn & _).
  destruct err as [e|]; rewrite Hres; [done|]. rewrite finish_eq. cbn.
  by destruct (flag (options ro) "hasBounds").
Qed.

Lemma update_signal_nodes_kept ov r : nodes_kept r (update_signal ov r).1.
Proof.
  unfold update_signal. apply (block_keeps nodes_kept).
  - apply nodes_kept_refl.
  - apply nodes_kept_trans.
  - apply Forall_fmap, Forall_forall. intros h _ s. simpl.
    apply nodes_kept_eq, run_extraDraw_nodes.
Qed.

(** X3. Whatever the frames and ['update'] signals, whatever the
    overlays draw and whichever calls fault, the renderer never removes a
    node from the layer and never turns a node into one of the other
    kind: the layer has at least the nodes it had, each of the kind it
    was. *)
Theorem layer_never_loses_a_node ov trace r :
  keeps_nodes (l_nodes (layer r)) (l_nodes (layer (run ov trace r))).
Proof.
  revert r. induction trace as [|a trace IH]; intros r; [apply keeps_nodes_refl|].
  simpl. eapply keeps_nodes_trans; [|apply IH].
  destruct a; [apply Render_world_nodes_kept|apply update_signal_nodes_kept].
Qed.

Lemma bodies_kept_outside_refl refs r : bodies_kept_outside refs r r.
Proof. intros e He. by exists e. Qed.

Lemma bodies_kept_outside_trans refs a b c :
  bodies_kept_outside refs a b -> bodies_kept_outside refs b c ->
  bodies_kept_outside refs a c.
Proof.
  intros Hab Hbc e He. destruct (Hab e He) as (e1 & He1 & H1).
  destruct (Hbc e1 He1) as (e2 & He2 & H2). exists e2. split; [done|].
  intros i Hi. by rewrite H2, H1.
Qed.

Lemma bodies_kept_outside_eq refs r r' :
  engine r' = engine r -> bodies_kept_outside refs r r'.
Proof. intros Heq e He. exists e. split; [congruence|done]. Qed.

Lemma pass_now_bodies_kept refs f :
  (forall sc i, i ∉ refs -> sc_bodies (f sc).1 !! i = sc_bodies sc !! i) ->
  forall s, bodies_kept_outside refs s (pass_now f s).1.
Proof.
  intros Hf s e He. unfold pass_now, with_engine, pass. rewrite He.
  specialize (Hf (scene_of e s)). destruct (f (scene_of e s)) as [sc err].
  eexists. split; [reflexivity|]. intros i Hi. cbn. by apply Hf.
Qed.

(** X4. A frame changes the bodies in its array and no other. With
    [options.hasBounds] set these are the bodies of the world whose
    bounds overlap [render.bounds]: a body that does not overlap the view
    is, after [Render.world], the object it was before, so no node is
    made for it and nothing is remembered on it. Without [hasBounds] the
    array is the list of all the bodies of the world. *)
Theorem culled_body_untouched r e :
  engine r = Some e ->
  (exists e', engine (Render_world r).1 = Some e'
     /\ forall i, i ∉ frame_bodies r e -> e_bodies e' !! i = e_bodies e !! i)
  /\ (flag (options r) "hasBounds" = true ->
      forall i b, e_bodies e !! i = Some b ->
        BoundsOps.overlaps (p_bounds (self b)) (bounds r) = false ->
        i ∉ frame_bodies r e)
  /\ (flag (options r) "hasBounds" = false -> frame_bodies r e = allBodies e).
Proof.
  intros He. split_and!.
  - assert (H : bodies_kept_outside (frame_bodies r e) r (Render_world r).1).
    { apply (bodies_kept_outside_trans _ _ (begun r e)).
      { apply bodies_kept_outside_eq, begun_fields. }
      apply (Render_world_keeps (bodies_kept_outside (frame_bodies r e)) r e He).
      - apply bodies_kept_outside_refl.
      - apply bodies_kept_outside_trans.
      - intros s. by apply bodies_kept_outside_eq.
      - intros s. by apply bodies_kept_outside_eq.
      - unfold frame_passes. repeat apply Forall_cons_2; try apply Forall_nil_2;
          apply pass_now_bodies_kept; intros sc i Hi.
        + by apply each_body_other.
        + unfold MainPass.Render_bodyConvexHulls.
          by rewrite each_body_other.
        + unfold MainPass.Render_bodyWireframes.
          by rewrite each_body_other.
      - intros bodies constraints ts s. apply bodies_kept_outside_eq.
        unfold schedule. by destruct (extraDraw s). }
    by apply H.
  - intros Hb i b Hi Hov. unfold frame_bodies. rewrite Hb.
    rewrite list_elem_of_filter. unfold in_view. rewrite Hi. intros [Hin _]. congruence.
  - intros Hb. unfold frame_bodies. by rewrite Hb.
Qed.

(** the body far off the canvas, under [hasBounds] *)
Lemma culled_body_untouched_witness :
  let r := render_800x600 (Some far_bodies) None clipped in
  exists e', engine (Render_world r).1 = Some e'
    /\ e_bodies e' !! 2 = Some (body_in 2 5000 5000 5010 5010)
    /\ frame_bodies r far_bodies = [1].
Proof.
  intros r.
  destruct (culled_body_untouched r far_bodies eq_refl) as ((e' & He' & Hout) & Hcull & _).
  exists e'. split; [done|]. split; [|vm_compute; reflexivity].
  rewrite Hout; [reflexivity|].
  apply (Hcull eq_refl 2 (body_in 2 5000 5000 5010 5010)); reflexivity.
Defined.

Lemma same_canvas_refl r : same_canvas r r.
Proof. by split. Qed.

Lemma same_canvas_trans a b c : same_canvas a b -> same_canvas b c -> same_canvas a c.
Proof. unfold same_canvas. intuition congruence. Qed.

Lemma pass_now_same_canvas f s : same_canvas s (pass_now f s).1.
Proof.
  unfold pass_now, with_engine, pass. destruct (engine s); [|apply same_canvas_refl].
  by destruct (f _).
Qed.

Lemma Render_world_same_canvas r e :
  engine r = Some e -> same_canvas (begun r e) (Render_world r).1.
Proof.
  intros He. apply (Render_world_keeps same_canvas r e He).
  - apply same_canvas_refl.
  - apply same_canvas_trans.
  - done.
  - done.
  - unfold frame_passes. repeat apply Forall_cons_2; try apply Forall_nil_2;
      apply pass_now_same_canvas.
  - intros bodies constraints ts s. unfold schedule. by destruct (extraDraw s).
Qed.

Lemma length_append_le (s t : string) : String.length t <= String.length (s +:+ t).
Proof.
  induction s as [|a s IH]; [done|].
  change (String a s +:+ t) with (String a (s +:+ t)). simpl. lia.
Qed.

Lemma substring_all (t : string) : String.substring 0 (String.length t) t = t.
Proof. induction t as [|a t IH]; simpl; [done|]. by rewrite IH. Qed.

Lemma substring_append_r (s t : string) :
  String.substring (String.length (s +:+ t) - String.length t) (String.length t) (s +:+ t)
  = t.
Proof.
  induction s as [|a s IH].
  - change ("" +:+ t) with t. rewrite Nat.sub_diag. apply substring_all.
  - change (String a s +:+ t) with (String a (s +:+ t)).
    pose proof (length_append_le s t) as Hle.
    replace (String.length (String a (s +:+ t)) - String.length t)
      with (S (String.length (s +:+ t) - String.length t)) by (simpl; lia).
    exact IH.
Qed.

Lemma ends_with_append s t : ends_with t (s +:+ t) = true.
Proof.
  unfold ends_with. rewrite substring_append_r, String.eqb_refl, andb_true_r.
  apply Nat.leb_le, length_append_le.
Qed.

(** X5. The canvas background follows the mode. After a frame on a
    renderer with an engine, [render.currentBackground] is
    [options.wireframeBackground] when [options.wireframes] is set and
    [options.background] otherwise, whether or not the frame faulted
    later. The canvas style is written only when that value differs from
    the one remembered: then the background is the value itself, wrapped
    in [url(...)] when it ends in [jpg], [gif] or [png], the background
    size is [contain] and the canvas keeps its size; when the value is
    the one remembered the canvas is left as it is. *)
Theorem background_follows_mode r e :
  engine r = Some e ->
  let r' := (Render_world r).1 in
  let bg := mode_background (options r) in
  currentBackground r' = bg
  /\ (currentBackground r = bg -> canvas r' = canvas r)
  /\ (currentBackground r ≠ bg ->
      cv_background (canvas r') = css_background <$> bg
      /\ cv_backgroundSize (canvas r') = Some "contain"
      /\ cv_width (canvas r') = cv_width (canvas r)
      /\ cv_height (canvas r') = cv_height (canvas r))
  /\ (forall name ext, ext ∈ ["jpg"; "gif"; "png"] ->
        css_background (name +:+ ext) = "url(" +:+ (name +:+ ext) +:+ ")").
Proof.
  intros He. cbn zeta.
  destruct (Render_world_same_canvas r e He) as [Hcv Hbg].
  unfold canvas. rewrite Hcv, Hbg. unfold begun.
  split_and!.
  - destruct (bool_decide _) eqn:Hd; [|done]. by apply bool_decide_eq_true in Hd.
  - intros Heq. by rewrite bool_decide_eq_true_2.
  - intros Hne. rewrite bool_decide_eq_false_2 by done. cbn.
    split; [|done]. by destruct (mode_background (options r)).
  - intros name ext Hext. unfold css_background, is_image.
    assert (H : ends_with ext (name +:+ ext) = true) by apply ends_with_append.
    repeat (apply elem_of_cons in Hext as [->|Hext]);
      [..|by apply elem_of_nil in Hext]; rewrite H; by rewrite ?orb_true_r.
Qed.

(** the first frame of a renderer with the default options *)
Lemma background_follows_mode_witness :
  let r' := (Render_world (demo_render ∅)).1 in
  currentBackground r' = Some "#0f0f13"
  /\ cv_background (canvas r') = Some "#0f0f13"
  /\ cv_backgroundSize (canvas r') = Some "contain".
Proof.
  cbn zeta.
  destruct (background_follows_mode (demo_render ∅) demo_engine eq_refl)
    as (Hbg & _ & Hcss & _).
  split; [exact Hbg|]. destruct Hcss as (H1 & H2 & _); [done|]. split; [exact H1|exact H2].
Defined.

(** the loop that keeps the constraints in view, and its fault *)
Lemma visible_constraints_cases e view refs :
  match visible_constraints e view refs with
  | Ok cs => Forall (fun i => dangling_at e i = false) refs /\ sublist cs refs
  | Throw err => err = TypeError "vecB.x" /\ Exists (fun i => dangling_at e i = true) refs
  end.
Proof.
  induction refs as [|i refs IH]; simpl; [done|].
  assert (Hi : match
      match e_constraints e !! i with
      | Some k =>
          a ← world_point e (bodyA k) (pointA k);
          b ← world_point e (bodyB k) (pointB k);
          Ok match a, b with
             | Some a, Some b => BoundsOps.contains view a || BoundsOps.contains view b
             | _, _ => false
             end
      | None => Ok false
      end
    with
    | Ok _ => dangling_at e i = false
    | Throw err => err = TypeError "vecB.x" /\ dangling_at e i = true
    end).
  { unfold dangling_at, dangling_point, world_point.
    destruct (e_constraints e !! i) as [k|]; [|done]. simpl.
    destruct (Constraints.body_of (e_bodies e) (bodyA k)), (pointA k),
      (Constraints.body_of (e_bodies e) (bodyB k)), (pointB k); done. }
  destruct (match e_constraints e !! i with Some _ => _ | None => _ end) as [keep|err];
    simpl.
  - destruct (visible_constraints e view refs) as [cs|err]; simpl.
    + destruct IH as [Hall Hsub]. split; [by constructor|].
      destruct keep; by constructor.
    + destruct IH as [-> Hex]. split; [done|]. by apply Exists_cons_tl.
  - destruct Hi as [-> Hd]. split; [done|]. by apply Exists_cons_hd.
Qed.

(** X6. Under [hasBounds] a constraint that is tied to a body on a
    side where it has no point faults the frame: the culling loop adds
    the body's position to [undefined]. The fault comes right after
    [beforeRender] and the background: no body is drawn, no callback is
    scheduled and the view transform is not applied. It is the only fault
    of the culling, which otherwise keeps a sub-list of the world's
    constraints, in their order. Without [hasBounds] the same constraint
    does no harm: [Render.constraints] skips it. *)
Theorem dangling_constraint_faults_the_clipped_frame r e :
  engine r = Some e ->
  (flag (options r) "hasBounds" = true ->
     (Exists (fun i => dangling_at e i = true) (allConstraints e) ->
        Render_world r = fault (TypeError "vecB.x") (begun r e))
     /\ (Forall (fun i => dangling_at e i = false) (allConstraints e) ->
        exists cs, frame_constraints r e = Ok cs /\ sublist cs (allConstraints e)))
  /\ (flag (options r) "hasBounds" = false ->
        frame_constraints r e = Ok (allConstraints e))
  /\ (forall k bodies c, dangling_point e k = true ->
        Constraints.draw bodies k c = done c).
Proof.
  intros He. split_and!.
  - intros Hb.
    pose proof (visible_constraints_cases e (bounds r) (allConstraints e)) as Hc.
    split.
    + intros Hex. rewrite (Render_world_unfold r e He). unfold frame_constraints.
      rewrite Hb. destruct (visible_constraints _ _ _) as [cs|err].
      * destruct Hc as [Hall _]. apply Exists_exists in Hex as (i & Hi & Hd).
        rewrite Forall_forall in Hall. specialize (Hall i Hi). congruence.
      * by destruct Hc as [-> _].
    + intros Hall. unfold frame_constraints. rewrite Hb.
      destruct (visible_constraints _ _ _) as [cs|err].
      * exists cs. by destruct Hc.
      * destruct Hc as [_ Hex]. apply Exists_exists in Hex as (i & Hi & Hd).
        rewrite Forall_forall in Hall. specialize (Hall i Hi). congruence.
  - intros Hb. unfold frame_constraints. by rewrite Hb.
  - intros k bodies c Hd. unfold Constraints.draw.
    assert (Hs : Constraints.skipped k = true).
    { unfold dangling_point in Hd. unfold Constraints.skipped.
      destruct (cr_visible _), (pointA k), (pointB k); simpl in *; try done.
      all: by rewrite ?andb_false_r in Hd. }
    by rewrite Hs.
Qed.

(** a constraint tied to body 1 with no [pointA], the view clipped or not *)
Lemma dangling_constraint_faults_the_clipped_frame_witness :
  (Render_world (render_800x600 (Some far_engine) None clipped)).2
    = Some (TypeError "vecB.x")
  /\ l_nodes (layer (Render_world (render_800x600 (Some far_engine) None clipped)).1) = []
  /\ frame_constraints (render_800x600 (Some far_engine) None ∅) far_engine = Ok [1].
Proof.
  destruct (dangling_constraint_faults_the_clipped_frame
              (render_800x600 (Some far_engine) None clipped) far_engine eq_refl)
    as (Hclip & _ & _).
  destruct (Hclip eq_refl) as [Hfault _].
  rewrite Hfault.
  - split; [reflexivity|]. split; [reflexivity|].
    destruct (dangling_constraint_faults_the_clipped_frame
                (render_800x600 (Some far_engine) None ∅) far_engine eq_refl)
      as (_ & Hfree & _).
    apply Hfree. reflexivity.
  - apply Exists_cons_hd. reflexivity.
Defined.

End WorldFacts.

(** ** [Render.constraints]: its only fault *)

Section ConstraintFaults.
Import Constraints.

(** the loop of a spring ends by itself, whatever the length *)
Lemma spring_returns k s e c : (spring k s e c).2 = None.
Proof.
  unfold spring. rewrite spring_loop_app. cbn [snd].
  destruct (PrimFloat.is_nan (c_length k / 5)) eqn:Hnan.
  - unfold coils_of. rewrite (is_nan_eq _ Hnan).
    change (JSNum.Math_ceil (JSNum.clamp nan 12 20)) with nan.
    unfold spring_fuel. cbn [spring_loop]. by rewrite FloatFacts.ltb_nan_r.
  - destruct (FloatFacts.ceil_clamp_range _ Hnan) as (n & Hn & Hceil).
    unfold coils_of. by rewrite Hceil, spring_loop_points.
Qed.

Lemma draw_fault bodies k c :
  (draw bodies k c).2 = if faults_at_end k then Some (TypeError "end.x") else None.
Proof.
  unfold draw, faults_at_end. destruct (skipped k) eqn:Hs; [done|].
  destruct (pointA k) as [pA|] eqn:HA; [|by unfold skipped in Hs; rewrite HA in Hs;
    destruct (cr_visible _)].
  destruct (pointB k) as [pB|] eqn:HB; [|by unfold skipped in Hs; rewrite HA, HB in Hs;
    destruct (cr_visible _)].
  unfold trace_path. cbn [negb andb].
  destruct (String.eqb (cr_type (c_render k)) "pin").
  - cbn [block and_then done]. unfold when, stroke_line, fill_anchors.
    by destruct (JSNum.truthy _), (cr_anchors _).
  - assert (Hr : forall c0, ((if String.eqb (cr_type (c_render k)) "spring"
                    then spring k (anchor bodies (bodyA k) pA) (anchor bodies (bodyB k) pB) c0
                    else done c0).2 = None)).
    { intros c0. destruct (String.eqb _ _); [apply spring_returns|done]. }
    specialize (Hr (c ++ [BeginPath; MoveTo (vx (anchor bodies (bodyA k) pA))
                                       (vy (anchor bodies (bodyA k) pA))])).
    destruct (if String.eqb (cr_type (c_render k)) "spring" then _ else _) as [c1 err].
    cbn [snd] in Hr. subst err.
    cbn [block and_then done]. unfold when, stroke_line, fill_anchors.
    by destruct (JSNum.truthy _), (cr_anchors _).
Qed.

(** X7. [Render.constraints] has one fault: a drawn pin constraint
    (visible, both points defined, [render.type] equal to ['pin']) with
    [render.anchors] set, for which [end] is never assigned and [end.x]
    is read. The call returns if and only if no constraint of the list is
    of that sort; every other constraint, springs of any length included,
    is drawn to the end. On the fault the calls made so far stay on the
    context, and the constraints after the faulting one are not drawn:
    the context is the one the loop had reached, with the pin's circle,
    its stroke if it has a line width, and the first anchor's marker. *)
Theorem constraints_fault_only_at_pin_anchors bodies ks c :
  ((Render_constraints bodies ks c).2 = None
   <-> Forall (fun k => faults_at_end k = false) ks)
  /\ (forall e, (Render_constraints bodies ks c).2 = Some e -> e = TypeError "end.x")
  /\ (forall pre k post,
        ks = pre ++ k :: post ->
        Forall (fun k => faults_at_end k = false) pre ->
        faults_at_end k = true ->
        exists c1, Render_constraints bodies pre c = done c1
          /\ Render_constraints bodies ks c
             = fault (TypeError "end.x") (draw bodies k c1).1).
Proof.
  split_and!.
  - revert c. induction ks as [|k ks IH]; intros c; simpl; [by split|].
    pose proof (draw_fault bodies k c) as Hk.
    destruct (draw bodies k c) as [c1 err]. cbn [snd] in Hk. subst err.
    rewrite Forall_cons.
    destruct (faults_at_end k); cbn [and_then snd].
    + split; [done|]. by intros [? _].
    + rewrite IH. tauto.
  - revert c. induction ks as [|k ks IH]; intros c e; simpl; [done|].
    pose proof (draw_fault bodies k c) as Hk.
    destruct (draw bodies k c) as [c1 err]. cbn [snd] in Hk. subst err.
    destruct (faults_at_end k); cbn [and_then snd]; [congruence|apply IH].
  - intros pre k post -> Hpre Hk. revert c.
    induction Hpre as [|k0 pre Hk0 _ IH]; intros c; simpl.
    + exists c. split; [done|].
      pose proof (draw_fault bodies k c) as Hd. rewrite Hk in Hd.
      destruct (draw bodies k c) as [c1 err]. cbn [snd] in Hd. by subst err.
    + pose proof (draw_fault bodies k0 c) as Hd. rewrite Hk0 in Hd.
      destruct (draw bodies k0 c) as [c1 err]. cbn [snd] in Hd. subst err.
      cbn [and_then]. apply IH.
Qed.

End ConstraintFaults.

(** ** The view transform and [Render.lookAt] *)

Section ViewFacts.
Import Frame.
Local Open Scope float_scope.

Lemma default_options_sizes b name :
  name ∈ ["width"; "height"; "pixelRatio"] -> default_options b !! name = None.
Proof.
  intros H. repeat (apply elem_of_cons in H as [->|H]); [..|by apply elem_of_nil in H];
    by destruct b.
Qed.

Lemma div_one_nan : 1 / nan = nan.
Proof. reflexivity. Qed.

(** X8. [Render.create] gives [options.width], [options.height] and
    [options.pixelRatio] no default. On a renderer created without them
    the view transform is not a number: [Render.startViewTransform] calls
    [context.scale] with [NaN] for the axis whose size is missing,
    whatever the bounds, and [Render.endViewTransform] calls
    [context.setTransform(NaN, 0, 0, NaN, 0, 0)]; the translation is by
    the bounds' minimum, negated. *)
Theorem view_transform_needs_sizes o r :
  Render_create o = Ok r ->
  (co_options o !! "width" = None ->
     exists sy, context (startViewTransform r)
       = [Scale nan sy; Translate (- vx (bmin (bounds r))) (- vy (bmin (bounds r)))])
  /\ (co_options o !! "height" = None ->
     exists sx, context (startViewTransform r)
       = [Scale sx nan; Translate (- vx (bmin (bounds r))) (- vy (bmin (bounds r)))])
  /\ (co_options o !! "pixelRatio" = None ->
     context (endViewTransform r) = [SetTransform nan 0 0 nan 0 0]).
Proof.
  unfold Render_create. destruct (extend_engine (co_engine o)) as [[]|]; [|done].
  cbn [mbind exc_bind]. destruct (co_layer o) as [l|]; [|done]. intros [= <-].
  assert (Hnum : forall name, name ∈ ["width"; "height"; "pixelRatio"] ->
    co_options o !! name = None ->
    opt_num (co_options o ∪ default_options (bool_decide (is_Some (co_bounds o)))) name
    = nan).
  { intros name Hin Hn. unfold opt_num.
    by rewrite lookup_union_r, default_options_sizes. }
  split_and!; intros Hn.
  - eexists. unfold startViewTransform. cbn [options context bounds set_context].
    rewrite (Hnum "width") by (done || set_solver).
    by rewrite FloatFacts.div_nan_r, div_one_nan.
  - eexists. unfold startViewTransform. cbn [options context bounds set_context].
    rewrite (Hnum "height") by (done || set_solver).
    by rewrite FloatFacts.div_nan_r, div_one_nan.
  - unfold endViewTransform. cbn [options context set_context].
    by rewrite (Hnum "pixelRatio") by (done || set_solver).
Qed.

(** a renderer created with no options at all *)
Lemma view_transform_needs_sizes_witness :
  context (startViewTransform (render_800x600 None None ∅))
    = [Scale nan nan; Translate (-0) (-0)]
  /\ context (endViewTransform (render_800x600 None None ∅))
     = [SetTransform nan 0 0 nan 0 0].
Proof.
  destruct (view_transform_needs_sizes
              (mkCreateOptions None (Some layer_800x600) None None ∅)
              (render_800x600 None None ∅) eq_refl) as (Hw & Hh & Hp).
  split; [|by apply Hp].
  destruct (Hw eq_refl) as (sy & Hsy). destruct (Hh eq_refl) as (sx & Hsx).
  rewrite Hsy in Hsx. injection Hsx as <- ->. exact Hsy.
Defined.

Lemma update_mouse_twice cv b m :
  LookAt.update_mouse cv b (LookAt.update_mouse cv b m) = LookAt.update_mouse cv b m.
Proof. reflexivity. Qed.

(** X9. [Render.lookAt] is idempotent, and reads nothing of the view
    it replaces: the bounds it writes depend on the canvas, the objects,
    the padding and the centring only, so calling it again with the same
    arguments leaves the renderer as the first call left it, the mouse
    mapping included. It switches [options.hasBounds] on, and changes
    nothing else: not the engine, the layer, the context, the pending
    callback or any other option. *)
Theorem lookAt_idempotent r objects padding center :
  let r1 := LookAt.lookAt r objects padding center in
  LookAt.lookAt r1 objects padding center = r1
  /\ (forall b, bounds (LookAt.lookAt (set_bounds b r) objects padding center) = bounds r1)
  /\ flag (options r1) "hasBounds" = true
  /\ (forall name, name ≠ "hasBounds" -> options r1 !! name = options r !! name)
  /\ engine r1 = engine r /\ layer r1 = layer r /\ context r1 = context r
  /\ extraDraw r1 = extraDraw r /\ events r1 = events r.
Proof.
  cbn zeta. unfold LookAt.lookAt. split_and!; try done.
  - cbn [canvas layer options mouse bounds set_mouse set_bounds set_options].
    rewrite insert_insert_eq.
    destruct (mouse r) as [m|]; cbn [fmap option_fmap option_map]; [|done].
    by rewrite update_mouse_twice.
  - cbn [options set_mouse set_bounds set_options]. unfold flag.
    by rewrite lookup_insert_eq.
  - intros name Hne. cbn [options set_mouse set_bounds set_options].
    by rewrite lookup_insert_ne.
Qed.

End ViewFacts.

(** ** The diagnostic overlays *)

Section DiagnosticFacts.
Import Diagnostics.

Lemma count_app kind (a b : Ctx) : count kind (a ++ b) = count kind a + count kind b.
Proof. unfold count. by rewrite filter_app, length_app. Qed.

Lemma count_flat_map {A : Type} kind (f : A -> list CanvasOp) (l : list A) :
  count kind (flat_map f l) = sum_list_with (fun x => count kind (f x)) l.
Proof.
  induction l as [|x l IH]; [done|]. simpl. by rewrite count_app, IH.
Qed.

Lemma count_imap {A : Type} kind (l : list A) : forall (f : nat -> A -> list CanvasOp) g,
  (forall i x, count kind (f i x) = g x) ->
  count kind (mjoin (imap f l)) = sum_list_with g l.
Proof.
  induction l as [|x l IH]; intros f g Hf; [done|].
  rewrite imap_cons.
  change (mjoin (f 0 x :: imap (f ∘ S) l)) with (f 0 x ++ mjoin (imap (f ∘ S) l)).
  rewrite count_app, Hf. simpl. f_equal.
  apply IH. intros i y. apply Hf.
Qed.

Lemma sum_visible {A : Type} (f g : Body -> nat) (bodies : list Body) :
  (forall b, f b = if visible (p_render (self b)) then g b else 0) ->
  sum_list_with f bodies = sum_list_with g (visible_bodies bodies).
Proof.
  intros Hf. unfold visible_bodies. induction bodies as [|b bodies IH]; [done|].
  simpl. rewrite Hf, IH. destruct (visible (p_render (self b))) eqn:Hv.
  - by rewrite filter_cons_True.
  - rewrite filter_cons_False; [done|]. by rewrite Hv.
Qed.

Lemma part_labels_count i p : count is_FillText (part_labels i p) = length (vertices p).
Proof.
  unfold part_labels.
  rewrite (count_imap _ _ _ (fun _ => 1)) by done.
  generalize (vertices p). intros vs.
  induction vs as [|v vs IH]; [done|]. cbn [sum_list_with length]. by rewrite IH.
Qed.

(** X10. Three overlays and [render.visible]. [Render.bodyVelocity]
    draws one segment for each visible body of its array and nothing for
    the others; [Render.bodyPositions] draws, for each visible body, one
    circle for each of its parts, the body itself included even when it
    is compound, and one more for its previous position;
    [Render.vertexNumbers] does not look at [render.visible]: it labels
    every vertex of every part it visits, of hidden bodies too. None of
    them removes a call from the context. *)
Theorem overlays_and_visibility opts bodies c :
  Constraints.segments (Render_bodyVelocity bodies c)
    = Constraints.segments c + length (visible_bodies bodies)
  /\ count is_Arc (Render_bodyPositions opts bodies c)
     = count is_Arc c + sum_list_with (fun b => S (length (parts b))) (visible_bodies bodies)
  /\ count is_FillText (Render_vertexNumbers bodies c)
     = count is_FillText c
       + sum_list_with
           (fun b => sum_list_with (fun p => length (vertices p)) (drawn_parts b)) bodies
  /\ Render_vertexNumbers (hidden <$> bodies) c = Render_vertexNumbers bodies c
  /\ Render_bodyVelocity (hidden <$> bodies) c
     = c ++ [BeginPath; SetLineWidth 3; SetStrokeStyle "cornflowerblue"; Stroke]
  /\ (exists ops1 ops2 ops3,
        Render_bodyVelocity bodies c = c ++ ops1
        /\ Render_bodyPositions opts bodies c = c ++ ops2
        /\ Render_vertexNumbers bodies c = c ++ ops3).
Proof.
  split_and!.
  - unfold Render_bodyVelocity. change Constraints.segments with (count Constraints.is_LineTo).
    rewrite !count_app, count_flat_map.
    rewrite (sum_visible (A := unit) _ (fun _ => 1)).
    + change (count Constraints.is_LineTo [BeginPath]) with 0.
      change (count Constraints.is_LineTo [SetLineWidth 3; _; _]) with 0.
      assert (H : forall l : list Body, sum_list_with (fun _ => 1) l = length l).
      { induction l as [|? ? IH]; [done|]. simpl. by rewrite IH. }
      rewrite H. lia.
    + intros b. unfold velocity_ops. by destruct (visible _).
  - unfold Render_bodyPositions. rewrite !count_app, !count_flat_map.
    rewrite (sum_visible (A := unit) _ (fun b => length (parts b))).
    2:{ intros b. unfold position_ops. destruct (visible _); [|done]. simpl negb. cbv iota.
        rewrite count_flat_map. generalize (parts b). intros ps.
        induction ps as [|p ps IH]; [done|]. cbn [sum_list_with length].
        rewrite IH. reflexivity. }
    rewrite (sum_visible (A := unit) (fun b => count is_Arc (positionPrev_ops b)) (fun _ => 1)).
    2:{ intros b. unfold positionPrev_ops. by destruct (visible _). }
    change (count is_Arc [BeginPath]) with 0.
    change (count is_Arc [SetFillStyle _; Fill; BeginPath]) with 0.
    change (count is_Arc [SetFillStyle _; Fill]) with 0.
    assert (H : forall (f : Body -> nat) (l : list Body),
      sum_list_with (fun b => S (f b)) l = sum_list_with f l + sum_list_with (fun _ => 1) l).
    { intros f l. induction l as [|? ? IH]; [done|]. simpl. rewrite IH. lia. }
    rewrite (H (fun b => length (parts b))). lia.
  - unfold Render_vertexNumbers. rewrite count_app. f_equal.
    apply count_imap. intros i b. rewrite count_flat_map.
    generalize (drawn_parts b). intros ps.
    induction ps as [|p ps IH]; [done|]. cbn [sum_list_with].
    by rewrite part_labels_count, IH.
  - unfold Render_vertexNumbers. f_equal. f_equal.
    rewrite imap_fmap. apply imap_ext. intros i b _. simpl.
    unfold drawn_parts, hidden. simpl. by destruct (others b).
  - unfold Render_bodyVelocity. f_equal.
    assert (H : flat_map velocity_ops (hidden <$> bodies) = []).
    { induction bodies as [|b bodies IH]; [done|].
      rewrite fmap_cons. cbn [flat_map]. by rewrite IH. }
    by rewrite H.
  - by eexists _, _, _.
Qed.

Lemma share_cases (static other : bool) :
  share static other
  = if static then 0%float else if other then 1%float else 0.5%float.
Proof. by destruct static, other. Qed.

Lemma separation_resolved bodies pr c :
  resolves bodies pr ->
  exists ops, separation bodies pr c = done (c ++ ops)
    /\ Constraints.segments ops = if pr_isActive pr then 2 else 0.
Proof.
  intros [[bA HA] [bB HB]]. unfold separation. rewrite HA, HB.
  destruct (pr_isActive pr); simpl.
  - eexists. split; [reflexivity|]. done.
  - exists []. by rewrite (right_id_L [] (++)).
Qed.

Lemma separations_loop_resolved bodies pairs : forall c,
  Forall (resolves bodies) pairs ->
  exists ops, separations_loop bodies pairs c = done (c ++ ops)
    /\ Constraints.segments ops
       = 2 * length (filter (fun pr => pr_isActive pr = true) pairs).
Proof.
  induction pairs as [|pr pairs IH]; intros c Hall; simpl.
  { exists []. by rewrite (right_id_L [] (++)). }
  apply Forall_cons in Hall as [Hpr Hall].
  destruct (separation_resolved bodies pr c Hpr) as (ops1 & -> & Hseg1).
  cbn [and_then done].
  destruct (IH (c ++ ops1) Hall) as (ops2 & -> & Hseg2).
  exists (ops1 ++ ops2). split; [by rewrite (assoc_L (++))|].
  rewrite segments_app, Hseg1, Hseg2.
  destruct (pr_isActive pr) eqn:Ha.
  - rewrite filter_cons_True by done. simpl. lia.
  - rewrite filter_cons_False; [lia|]. by rewrite Ha.
Qed.

(** X11. [Render.separations] splits the penetration between the two
    bodies of a contact: a static body's line has factor 0, a body that
    faces a static one takes the whole penetration (factor 1), and two
    bodies that both move take half each, so the two factors add up to 1
    unless both bodies are static, when both are 0. When every pair
    refers to bodies of the world the call returns, having added, between
    [beginPath] and the stroke, two segments for each active pair and
    nothing for an inactive one. An active pair whose [bodyB] is no
    object faults the call there, the stroke not being made. *)
Theorem separations_split opts bodies pairs c :
  (forall a b : bool,
     (share a b = if a then 0 else if b then 1 else 0.5)%float
     /\ (a && b = false -> (share a b + share b a = 1)%float)
     /\ (a && b = true -> share a b = 0%float /\ share b a = 0%float))
  /\ (Forall (resolves bodies) pairs ->
      exists ops,
        Render_separations opts bodies pairs c
        = done (c ++ [BeginPath] ++ ops
                  ++ [SetStrokeStyle (if flag opts "wireframes"
                                      then "rgba(255,165,0,0.5)" else "orange");
                      Stroke])
        /\ Constraints.segments ops
           = 2 * length (filter (fun pr => pr_isActive pr = true) pairs))
  /\ (forall pre pr post,
        pairs = pre ++ pr :: post -> Forall (resolves bodies) pre ->
        pr_isActive pr = true -> bodies !! col_bodyB (pr_collision pr) = None ->
        exists c1, Render_separations opts bodies pairs c
                   = fault (TypeError "bodyB.isStatic") (c ++ BeginPath :: c1)).
Proof.
  split_and!.
  - intros a b. split; [apply share_cases|]. by destruct a, b.
  - intros Hall. unfold Render_separations.
    destruct (separations_loop_resolved bodies pairs (c ++ [BeginPath]) Hall)
      as (ops & -> & Hseg).
    exists ops. split; [|done]. cbn [and_then done]. by rewrite <- !(assoc_L (++)).
  - intros pre pr post -> Hpre Ha HB. unfold Render_separations.
    assert (H : forall c0, exists c1,
      separations_loop bodies (pre ++ pr :: post) c0
      = fault (TypeError "bodyB.isStatic") (c0 ++ c1)).
    { induction Hpre as [|p0 pre Hp0 _ IH]; intros c0; simpl.
      - exists []. unfold separation. rewrite Ha, HB. simpl.
        by rewrite (right_id_L [] (++)).
      - destruct (separation_resolved bodies p0 c0 Hp0) as (ops1 & -> & _).
        cbn [and_then done]. destruct (IH (c0 ++ ops1)) as (c1 & ->).
        exists (ops1 ++ c1). by rewrite (assoc_L (++)). }
    destruct (H (c ++ [BeginPath])) as (c1 & ->). exists c1.
    cbn [and_then fault]. by rewrite <- (assoc_L (++)).
Qed.

End DiagnosticFacts.

(** ** The cache of the whole world *)

Section WorldCache.
Import MainPass Frame.

Implicit Types (p : Part) (nodes : list Node) (n k : nat) (b : Body) (sc : Scene).

Lemma fresh_below_perm k (l l' : list nat) : l ≡ₚ l' -> fresh_below k l -> fresh_below k l'.
Proof. intros Hp [Hn Hf]. split; by rewrite <- Hp. Qed.

Lemma fresh_below_add k (l : list nat) : fresh_below k l -> fresh_below (S k) (k :: l).
Proof.
  intros [Hn Hf]. split.
  - constructor; [|done]. intros Hin. rewrite Forall_forall in Hf.
    specialize (Hf k Hin). lia.
  - constructor; [lia|]. eapply Forall_impl; [exact Hf|]. intros; simpl in *; lia.
Qed.

Lemma bodies_node_shape p nodes n p1 nodes1 :
  bodies_node p nodes = Ok (n, p1, nodes1) ->
  (spriteNode p = Some n /\ p1 = p /\ length nodes1 = length nodes)
  \/ (spriteNode p = None /\ n = length nodes
      /\ p1 = set_spriteNode (length nodes) p /\ length nodes1 = S (length nodes)).
Proof.
  unfold bodies_node, create, first_vertex. intros H.
  destruct (spriteNode p) as [n0|] eqn:Hc.
  { injection H as <- <- <-. left. by rewrite length_alter. }
  right.
  destruct (is_textured p).
  { injection H as <- <- <-. rewrite length_app. simpl. split_and!; try done; lia. }
  destruct (JSNum.truthy (circleRadius p)).
  { injection H as <- <- <-. rewrite length_app. simpl. split_and!; try done; lia. }
  destruct (vertices p) as [|v0 vs]; [done|]. cbn in H.
  injection H as <- <- <-. rewrite length_app. simpl. split_and!; try done; lia.
Qed.

Lemma wireframes_node_shape opts p nodes n p1 nodes1 :
  wireframes_node opts p nodes = Ok (n, p1, nodes1) ->
  (spriteNode p = Some n /\ p1 = p /\ length nodes1 = length nodes)
  \/ (spriteNode p = None /\ n = length nodes
      /\ p1 = set_spriteNode (length nodes) p /\ length nodes1 = S (length nodes)).
Proof.
  unfold wireframes_node, create, first_vertex. intros H.
  destruct (spriteNode p) as [n0|] eqn:Hc.
  { injection H as <- <- <-. left. by rewrite length_alter. }
  right. destruct (vertices p) as [|v0 vs]; [done|]. cbn in H.
  injection H as <- <- <-. rewrite length_app. simpl. split_and!; try done; lia.
Qed.

Lemma bodies_part_cache_step opts sl p nodes p' nodes' :
  bodies_part opts sl p nodes = Ok (p', nodes') -> cache_step p nodes p' nodes'.
Proof.
  unfold bodies_part. destruct (visible (p_render p)); simpl.
  2:{ intros [= <- <-]. by left. }
  destruct (bodies_node p nodes) as [[[n p1] nodes1]|e] eqn:Hn; [|done]. simpl.
  intros [= Hfade].
  pose proof (fade_length (flag opts "showSleeping") sl n p1
                (apply_sprite_attrs p1 n nodes1)) as Hlf.
  pose proof (fade_spriteNode (flag opts "showSleeping") sl n p1
                (apply_sprite_attrs p1 n nodes1)) as Hcf.
  rewrite Hfade in Hlf, Hcf. cbn [fst snd] in *.
  rewrite apply_sprite_attrs_length in Hlf.
  destruct (bodies_node_shape _ _ _ _ _ Hn) as [(Hc & -> & Hl)|(Hc & -> & -> & Hl)].
  - left. split; congruence.
  - right. split_and!; [done|by rewrite Hcf|congruence].
Qed.

Lemma wireframes_part_cache_step opts sl p nodes p' nodes' :
  wireframes_part opts sl p nodes = Ok (p', nodes') -> cache_step p nodes p' nodes'.
Proof.
  unfold wireframes_part.
  destruct (wireframes_node opts p nodes) as [[[n p1] nodes1]|e] eqn:Hn; [|done]. simpl.
  intros [= Hfade].
  pose proof (fade_length (flag opts "showSleeping") sl n p1 nodes1) as Hlf.
  pose proof (fade_spriteNode (flag opts "showSleeping") sl n p1 nodes1) as Hcf.
  rewrite Hfade in Hlf, Hcf. cbn [fst snd] in *.
  destruct (wireframes_node_shape _ _ _ _ _ _ Hn) as [(Hc & -> & Hl)|(Hc & -> & -> & Hl)].
  - left. split; congruence.
  - right. split_and!; [done|by rewrite Hcf|congruence].
Qed.

Lemma each_part_sound step ps :
  (forall p nodes p' nodes', step p nodes = Ok (p', nodes') -> cache_step p nodes p' nodes') ->
  forall nodes (pre post : list nat),
    fresh_below (length nodes) (pre ++ omap spriteNode ps ++ post) ->
    let res := each_part step ps nodes in
    fresh_below (length res.1.2) (pre ++ omap spriteNode res.1.1 ++ post)
    /\ length res.1.1 = length ps.
Proof.
  intros Hstep. induction ps as [|p ps IH]; intros nodes pre post Hf; [done|].
  cbn zeta. simpl each_part.
  destruct (step p nodes) as [[p' nodes']|e] eqn:Hp; [|done].
  assert (Hf' : fresh_below (length nodes')
                  ((pre ++ option_list (spriteNode p')) ++ omap spriteNode ps ++ post)).
  { destruct (Hstep _ _ _ _ Hp) as [[Hc Hl]|(Hc & Hc' & Hl)].
    - rewrite Hc, Hl. simpl in Hf.
      destruct (spriteNode p) as [n|]; simpl in *.
      + by rewrite <- (assoc_L (++)).
      + by rewrite (right_id_L [] (++)).
    - rewrite Hc', Hl. simpl in Hf. rewrite Hc in Hf. simpl.
      apply (fresh_below_perm _ (length nodes :: pre ++ omap spriteNode ps ++ post)).
      + rewrite <- (assoc_L (++)). simpl. apply Permutation_middle.
      + by apply fresh_below_add. }
  specialize (IH nodes' _ post Hf'). cbn zeta in IH.
  destruct (each_part step ps nodes') as [[ps' nodes''] err]. cbn [fst snd] in *.
  destruct IH as [IH Hlen]. split; [|simpl; by rewrite Hlen].
  simpl. destruct (spriteNode p') as [n|]; simpl in *.
  - by rewrite <- (assoc_L (++)) in IH.
  - by rewrite (right_id_L [] (++)) in IH.
Qed.

Lemma body_step_sound part_step opts b nodes (rest : list nat) :
  (forall sl p nodes p' nodes',
     part_step opts sl p nodes = Ok (p', nodes') -> cache_step p nodes p' nodes') ->
  fresh_below (length nodes) (cached_nodes b ++ rest) ->
  let res := body_step part_step opts b nodes in
  fresh_below (length res.1.2) (cached_nodes res.1.1 ++ rest).
Proof.
  intros Hstep Hf. cbn zeta. unfold body_step. destruct (negb _); [done|].
  unfold each_drawn_part, cached_nodes, parts in *.
  destruct (others b) as [|q qs] eqn:Ho.
  - pose proof (each_part_sound (part_step opts (isSleeping (self b))) [self b]
                  (Hstep _) nodes [] rest) as H.
    cbn zeta in H.
    destruct (each_part _ [self b] nodes) as [[ps' nodes'] err]. cbn [fst snd] in *.
    destruct H as [H Hlen]; [done|].
    destruct ps' as [|p1 [|? ?]]; try done.
  - pose proof (each_part_sound (part_step opts (isSleeping (self b))) (q :: qs)
                  (Hstep _) nodes (option_list (spriteNode (self b))) rest) as H.
    cbn zeta in H.
    destruct (each_part _ (q :: qs) nodes) as [[ps' nodes'] err]. cbn [fst snd] in *.
    destruct H as [H Hlen].
    + simpl in Hf. simpl. destruct (spriteNode (self b)); simpl in *;
        by rewrite <- ?(assoc_L (++)).
    + simpl. destruct (spriteNode (self b)); simpl in *; by rewrite <- ?(assoc_L (++)) in H.
Qed.

Lemma hull_step_sound b nodes (rest : list nat) :
  fresh_below (length nodes) (cached_nodes b ++ rest) ->
  let res := hull_step b nodes in
  fresh_below (length res.1.2) (cached_nodes res.1.1 ++ rest).
Proof.
  intros Hf. cbn zeta. unfold hull_step, create. destruct (_ || _); [done|].
  destruct (spriteNode (self b)) as [n|] eqn:Hc; simpl.
  { by rewrite length_alter. }
  destruct (first_vertex (self b)); simpl; [|done].
  rewrite length_app. simpl. rewrite Nat.add_1_r.
  unfold cached_nodes, parts in *. simpl in *. rewrite Hc in Hf.
  by apply fresh_below_add.
Qed.

Lemma world_nodes_insert (bodies : gmap nat Body) i b b' :
  bodies !! i = Some b ->
  world_nodes bodies ≡ₚ cached_nodes b ++ world_nodes (delete i bodies)
  /\ world_nodes (<[i := b']> bodies) ≡ₚ cached_nodes b' ++ world_nodes (delete i bodies).
Proof.
  intros Hi. unfold world_nodes. split.
  - by rewrite <- (map_to_list_delete bodies i b Hi).
  - rewrite <- insert_delete_eq.
    by rewrite (map_to_list_insert (delete i bodies) i b') by apply lookup_delete_eq.
Qed.

Lemma each_body_sound step refs :
  (forall b nodes (rest : list nat),
     fresh_below (length nodes) (cached_nodes b ++ rest) ->
     fresh_below (length (step b nodes).1.2) (cached_nodes (step b nodes).1.1 ++ rest)) ->
  forall sc, cache_sound (sc_bodies sc) (sc_nodes sc) ->
    cache_sound (sc_bodies (each_body step refs sc).1) (sc_nodes (each_body step refs sc).1).
Proof.
  intros Hstep. induction refs as [|i refs IH]; intros sc Hs; [done|]. simpl.
  destruct (sc_bodies sc !! i) as [b|] eqn:Hi; [|by apply IH].
  specialize (Hstep b (sc_nodes sc) (world_nodes (delete i (sc_bodies sc)))).
  destruct (step b (sc_nodes sc)) as [[b' nodes] err]. cbn [fst snd] in Hstep.
  destruct (world_nodes_insert (sc_bodies sc) i b b' Hi) as [H1 H2].
  assert (Hs' : cache_sound (<[i := b']> (sc_bodies sc)) nodes).
  { unfold cache_sound in *. apply (fresh_below_perm _ _ _ (symmetry H2)).
    apply Hstep. by apply (fresh_below_perm _ _ _ H1). }
  destruct err as [e|]; [done|].
  by apply (IH (mkScene (<[i := b']> (sc_bodies sc)) nodes (sc_ctx sc))).
Qed.

Lemma pass_now_cache_ok f :
  (forall sc, cache_sound (sc_bodies sc) (sc_nodes sc) ->
     cache_sound (sc_bodies (f sc).1) (sc_nodes (f sc).1)) ->
  forall s, cache_ok s -> cache_ok (pass_now f s).1.
Proof.
  intros Hf s Hs. unfold pass_now, with_engine, pass, cache_ok in *.
  destruct (engine s) as [e|] eqn:He; simpl; [|by rewrite He].
  specialize (Hf (scene_of e s) Hs). by destruct (f (scene_of e s)).
Qed.

Lemma cache_ok_eq r r' :
  engine r' = engine r -> l_nodes (layer r') = l_nodes (layer r) ->
  cache_ok r -> cache_ok r'.
Proof. unfold cache_ok. by intros -> ->. Qed.

Lemma Render_world_cache_ok r : cache_ok r -> cache_ok (Render_world r).1.
Proof.
  destruct (engine r) as [e|] eqn:He.
  2:{ unfold Render_world. by rewrite He. }
  intros Hr.
  assert (Hb : cache_ok (begun r e)).
  { destruct (begun_fields r e) as (_ & H1 & _ & H2 & _). by apply (cache_ok_eq r). }
  revert Hb.
  apply (Render_world_keeps (fun s s' => cache_ok s -> cache_ok s') r e He).
  - done.
  - auto.
  - intros s. by apply cache_ok_eq.
  - intros s. by apply cache_ok_eq.
  - unfold frame_passes. repeat apply Forall_cons_2; try apply Forall_nil_2;
      apply pass_now_cache_ok; intros sc.
    + apply each_body_sound. intros b nodes rest.
      apply body_step_sound. intros sl. apply bodies_part_cache_step.
    + intros Hs. unfold Render_bodyConvexHulls.
      apply (each_body_sound hull_step); [|done]. intros b nodes rest. apply hull_step_sound.
    + intros Hs. unfold Render_bodyWireframes.
      apply (each_body_sound (body_step wireframes_part _)); [|done].
      intros b nodes rest. apply body_step_sound. intros sl. apply wireframes_part_cache_step.
  - intros bodies constraints ts s. apply cache_ok_eq; unfold schedule;
      by destruct (extraDraw s).
Qed.

Lemma update_signal_cache_ok ov r : cache_ok r -> cache_ok (update_signal ov r).1.
Proof.
  unfold update_signal.
  apply (block_keeps (fun s s' => cache_ok s -> cache_ok s')); [done|auto|].
  apply Forall_fmap, Forall_forall. intros h _ s. simpl.
  apply cache_ok_eq; [|apply run_extraDraw_nodes].
  destruct (run_extraDraw_cases ov h s) as [Hsame Hres].
  destruct (block (overlays ov h) s) as [ro err]. cbn [fst snd] in *.
  destruct Hsame as (_ & _ & _ & _ & He & _).
  destruct err as [e|]; rewrite Hres; [done|]. rewrite finish_eq. cbn.
  by destruct (flag (options ro) "hasBounds").
Qed.

(** X12. The cache of the whole world stays sound. If no two parts
    of the world refer to the same node and every [spriteNode] points
    into the layer, as is the case when nothing has been drawn yet,
    then this is so after any sequence of frames and ['update'] signals,
    in any mode, with the hulls or without, whichever calls fault and
    whatever the overlays draw: a node belongs to one part for good. *)
Theorem no_two_parts_share_a_node ov trace r :
  cache_ok r -> cache_ok (run ov trace r).
Proof.
  revert r. induction trace as [|a trace IH]; intros r Hr; [done|].
  simpl. apply IH. destruct a; [by apply Render_world_cache_ok|].
  by apply update_signal_cache_ok.
Qed.

(** two frames and the signal on the demo world, from nothing drawn *)
Lemma no_two_parts_share_a_node_witness :
  cache_ok (demo_render ∅)
  /\ cache_ok (run silent [Frame; Frame; Update] (demo_render ∅)).
Proof.
  assert (H : cache_ok (demo_render ∅)).
  { split; [vm_compute; constructor|vm_compute; constructor]. }
  split; [exact H|]. exact (no_two_parts_share_a_node silent _ _ H).
Defined.

End WorldCache.

(** ** The event log *)

Section EventFacts.
Import Frame.

Lemma answered_snoc_before evs ts : answered evs -> answered (evs ++ [BeforeRender ts]).
Proof.
  intros Ha k ts' Hk. destruct (decide (k < length evs)) as [Hlt|Hge].
  - rewrite lookup_app_l in Hk by done. destruct (Ha k ts' Hk) as (j & Hj & Hev).
    exists j. split; [done|]. rewrite lookup_app_l by lia. done.
  - rewrite lookup_app_r in Hk by lia.
    destruct (k - length evs) as [|?]; simpl in Hk; [congruence|done].
Qed.

Lemma answered_snoc_after evs ts :
  answered evs -> BeforeRender ts ∈ evs -> answered (evs ++ [AfterRender ts]).
Proof.
  intros Ha Hin k ts' Hk. destruct (decide (k < length evs)) as [Hlt|Hge].
  - rewrite lookup_app_l in Hk by done. destruct (Ha k ts' Hk) as (j & Hj & Hev).
    exists j. split; [done|]. rewrite lookup_app_l by lia. done.
  - rewrite lookup_app_r in Hk by lia.
    destruct (k - length evs) as [|?] eqn:Hd; simpl in Hk; [|done].
    injection Hk as <-. apply list_elem_of_lookup in Hin as [j Hj].
    pose proof (lookup_lt_Some _ _ _ Hj). exists j. split; [lia|].
    by rewrite lookup_app_l.
Qed.

(** a frame, read on the event log *)
Lemma frame_events r :
  pending_ok r -> scheduled r -> answered (events r) ->
  let r' := (Render_world r).1 in
  pending_ok r' /\ scheduled r' /\ answered (events r') /\ events r `prefix_of` events r'.
Proof.
  intros Hp Hs Ha. cbn zeta.
  destruct (frame_protocol r) as (Hp' & _).
  split; [by apply Hp'|].
  destruct (engine r) as [e|] eqn:He.
  2:{ unfold Render_world. rewrite He. done. }
  pose proof (Render_world_cases r e He) as Hc. cbn zeta in Hc.
  destruct (Render_world r) as [r' [err|]]; cbn [fst snd] in *.
  - destruct Hc as (Hx & _ & Hev & _). cbn in Hx, Hev.
    split_and!.
    + intros h Hh. rewrite Hev. apply elem_of_app. left. apply Hs. congruence.
    + rewrite Hev. by apply answered_snoc_before.
    + rewrite Hev. by apply prefix_app_r.
  - destruct Hc as (rm & bodies & constraints & (Hx & _ & Hev & _) & ->).
    cbn in Hx, Hev.
    assert (Hse : events (schedule bodies constraints (timestamp e) rm)
                  = events r ++ [BeforeRender (timestamp e)]).
    { unfold schedule. by destruct (extraDraw rm). }
    split_and!.
    + intros h Hh. rewrite Hse. unfold schedule in Hh.
      destruct (extraDraw rm) as [h0|] eqn:Hx0.
      * apply elem_of_app. left. apply Hs. congruence.
      * cbn in Hh. injection Hh as <-. cbn. apply elem_of_app. right.
        apply elem_of_cons. by left.
    + rewrite Hse. by apply answered_snoc_before.
    + rewrite Hse. by apply prefix_app_r.
Qed.

(** an ['update'] signal, read on the event log *)
Lemma update_events ov r :
  pending_ok r -> scheduled r -> answered (events r) ->
  let r' := (update_signal ov r).1 in
  pending_ok r' /\ scheduled r' /\ answered (events r') /\ events r `prefix_of` events r'.
Proof.
  intros Hp Hs Ha. cbn zeta.
  pose proof (update_protocol ov r Hp) as Hu. cbn zeta in Hu.
  destruct (extraDraw r) as [h|] eqn:Hx; [|by rewrite Hu].
  destruct Hu as [_ Hu].
  destruct (update_signal ov r) as [r' [e|]]; cbn [fst snd] in *.
  - destruct Hu as (Hx' & Hu' & _ & Hev & _).
    split_and!.
    + unfold pending_ok in *. by rewrite Hx', Hu'.
    + intros h0 Hh0. rewrite Hev. apply Hs. congruence.
    + by rewrite Hev.
    + by rewrite Hev.
  - destruct Hu as (Hx' & Hu' & r1 & Hev & _ & _ & ->).
    split_and!.
    + unfold pending_ok. by rewrite Hu', Hx'.
    + intros h0 Hh0. congruence.
    + cbn. rewrite Hev. apply answered_snoc_after; [done|]. by apply Hs.
    + cbn. rewrite Hev. by apply prefix_app_r.
Qed.

(** X13. The event log is append-only, and every [afterRender] in it
    answers a frame: it carries the timestamp of a [beforeRender] emitted
    earlier, the one of the frame that scheduled the callback (the event
    object is created once per call of [Render.world] and shared with the
    closure), not the engine's timestamp at the time of the signal. This
    holds over every sequence of frames and ['update'] signals, with or
    without faults. *)
Theorem afterRender_answers_a_frame ov trace r0 :
  pending_ok r0 -> scheduled r0 -> answered (events r0) ->
  let r := run ov trace r0 in
  answered (events r) /\ scheduled r /\ events r0 `prefix_of` events r.
Proof.
  cbn zeta. revert r0. induction trace as [|a trace IH]; intros r0 Hp Hs Ha.
  { done. }
  assert (Hstep : pending_ok (step ov a r0) /\ scheduled (step ov a r0)
                  /\ answered (events (step ov a r0))
                  /\ events r0 `prefix_of` events (step ov a r0)).
  { destruct a; [by apply frame_events|by apply update_events]. }
  destruct Hstep as (Hp1 & Hs1 & Ha1 & Hpre).
  destruct (IH (step ov a r0) Hp1 Hs1 Ha1) as (Ha2 & Hs2 & Hpre2).
  split_and!; try done. simpl. by etrans.
Qed.

(** a frame, the signal, and a frame again, on a new renderer *)
Lemma afterRender_answers_a_frame_witness :
  events (run silent [Frame; Update; Frame] (demo_render ∅))
    = [BeforeRender 1000; AfterRender 1000; BeforeRender 1000]
  /\ answered (events (run silent [Frame; Update; Frame] (demo_render ∅))).
Proof.
  split; [vm_compute; reflexivity|].
  apply (afterRender_answers_a_frame silent [Frame; Update; Frame] (demo_render ∅)).
  - reflexivity.
  - intros h Hh. vm_compute in Hh. discriminate Hh.
  - intros k ts Hk. vm_compute in Hk. destruct k; discriminate Hk.
Defined.

End EventFacts.

(** ** The sleeping fade over any number of frames *)

Section FadeFacts.
Import MainPass.

Lemma lifetime_app fs gs : forall p nodes,
  lifetime (fs ++ gs) p nodes
  = match lifetime fs p nodes with
    | Ok (p1, nodes1, k1) =>
        match lifetime gs p1 nodes1 with
        | Ok (p2, nodes2, k2) => Ok (p2, nodes2, k1 + k2)
        | Throw e => Throw e
        end
    | Throw e => Throw e
    end.
Proof.
  induction fs as [|f fs IH]; intros p nodes.
  { simpl. by destruct (lifetime gs p nodes) as [[[? ?] ?]|]. }
  simpl.
  destruct (frame_part _ _ _ _) as [[p1 nodes1]|e]; cbn [mbind exc_bind]; [|done].
  rewrite IH.
  destruct (lifetime fs p1 nodes1) as [[[p2 nodes2] k2]|e]; cbn [mbind exc_bind]; [|done].
  destruct (lifetime gs p2 nodes2) as [[[p3 nodes3] k3]|e]; cbn [mbind exc_bind]; [|done].
  do 2 f_equal. lia.
Qed.

(** a frame asleep under [showSleeping] keeps a faded part as it is *)
Lemma sleep_step f p nodes n o :
  plain f -> fading f = true -> JSNum.truthy o = true ->
  spriteNode p = Some n -> n < length nodes ->
  fullOpacity p = Some o -> opacity_at nodes n = (0.5 * o)%float ->
  exists p' nodes' n',
    frame_part (fi_options f) (fi_sleeping f) (carry p (fi_part f)) (nodes ++ fi_others f)
    = Ok (p', nodes')
    /\ spriteNode p' = Some n' /\ n' < length nodes'
    /\ fullOpacity p' = Some o /\ opacity_at nodes' n' = (0.5 * o)%float.
Proof.
  intros (Hv & Hx & Hu) Hf Ho Hc Hn Hfo Hop. unfold fading in Hf.
  assert (Hwf : cache_wf (carry p (fi_part f)) (nodes ++ fi_others f)).
  { intros m Hm. simpl in Hm. rewrite Hc in Hm. injection Hm as <-.
    rewrite length_app. lia. }
  destruct (frame_part_fade (fi_options f) (fi_sleeping f) (carry p (fi_part f))
              (nodes ++ fi_others f)) as (n' & p' & nodes' & E & Hc' & Hn' & R); try done.
  rewrite Hf in R. unfold has_fullOpacity, opacity_before in R. simpl in R.
  rewrite Hfo, Ho, Hc in R. rewrite opacity_at_app, Hop in R by done.
  injection R as Hfo' Hop'. by exists p', nodes', n'.
Qed.

(** X14. The sleeping fade never compounds. For a part whose sprite
    attributes leave the opacity alone, in either mode: however many
    frames in a row its body sleeps under [showSleeping], the node's
    opacity is half of what it was before the first of them, once, and
    that opacity is remembered in [part.fullOpacity]; the first frame in
    which the body is awake, or [showSleeping] is off, sets the opacity
    back to exactly that value and forgets it. The opacity before the
    fade must be truthy (an opacity of 0 is remembered as 0, which the
    test [!part.fullOpacity] reads as nothing remembered). *)
Theorem sleeping_fade_never_compounds f fs awake p nodes :
  Forall plain (f :: fs) -> Forall (fun f => fading f = true) (f :: fs) ->
  plain awake -> fading awake = false ->
  cache_wf p nodes -> fullOpacity p = None ->
  let o := opacity_before p (nodes ++ fi_others f) in
  JSNum.truthy o = true ->
  (opacity_of (lifetime (f :: fs) p nodes) = Some (0.5 * o)%float
   /\ fullOpacity_of (lifetime (f :: fs) p nodes) = Some o)
  /\ (opacity_of (lifetime ((f :: fs) ++ [awake]) p nodes) = Some o
      /\ fullOpacity_of (lifetime ((f :: fs) ++ [awake]) p nodes) = None).
Proof.
  intros Hplain Hfading Hpa Hfa Hwf Hfo o Ho.
  apply Forall_cons in Hplain as [Hp1 Hplain].
  apply Forall_cons in Hfading as [Hf1 Hfading].
  (* the first frame asleep *)
  assert (Hfirst : exists p1 nodes1 n1,
    frame_part (fi_options f) (fi_sleeping f) (carry p (fi_part f)) (nodes ++ fi_others f)
    = Ok (p1, nodes1)
    /\ spriteNode p1 = Some n1 /\ n1 < length nodes1
    /\ fullOpacity p1 = Some o /\ opacity_at nodes1 n1 = (0.5 * o)%float).
  { destruct Hp1 as (Hv & Hx & Hu). unfold fading in Hf1.
    assert (Hwf0 : cache_wf (carry p (fi_part f)) (nodes ++ fi_others f)).
    { intros m Hm. apply Hwf in Hm. rewrite length_app. lia. }
    destruct (frame_part_fade (fi_options f) (fi_sleeping f) (carry p (fi_part f))
                (nodes ++ fi_others f)) as (n1 & p1 & nodes1 & E & Hc1 & Hn1 & R); try done.
    rewrite Hf1 in R. unfold has_fullOpacity in R. simpl in R. rewrite Hfo in R.
    change (opacity_before (carry p (fi_part f)) (nodes ++ fi_others f)) with o in R.
    injection R as Hfo1 Hop1. by exists p1, nodes1, n1. }
  destruct Hfirst as (p1 & nodes1 & n1 & E1 & Hc1 & Hn1 & Hfo1 & Hop1).
  (* the frames asleep after it *)
  assert (Hrest : forall gs q ns m,
    Forall plain gs -> Forall (fun f => fading f = true) gs ->
    spriteNode q = Some m -> m < length ns ->
    fullOpacity q = Some o -> opacity_at ns m = (0.5 * o)%float ->
    exists q' ns' m' k,
      lifetime gs q ns = Ok (q', ns', k)
      /\ spriteNode q' = Some m' /\ m' < length ns'
      /\ fullOpacity q' = Some o /\ opacity_at ns' m' = (0.5 * o)%float).
  { induction gs as [|g gs IH]; intros q ns m Hpl Hfd Hc Hm Hq Hop.
    { exists q, ns, m, 0. done. }
    apply Forall_cons in Hpl as [Hpg Hpl]. apply Forall_cons in Hfd as [Hfg Hfd].
    destruct (sleep_step g q ns m o Hpg Hfg Ho Hc Hm Hq Hop)
      as (q1 & ns1 & m1 & E & Hc' & Hm' & Hq' & Hop').
    destruct (IH q1 ns1 m1 Hpl Hfd Hc' Hm' Hq' Hop')
      as (q2 & ns2 & m2 & k & E2 & ?).
    exists q2, ns2, m2. eexists. split; [|done].
    simpl. rewrite E. cbn [mbind exc_bind]. rewrite E2. cbn [mbind exc_bind]. done. }
  destruct (Hrest fs p1 nodes1 n1 Hplain Hfading Hc1 Hn1 Hfo1 Hop1)
    as (p2 & nodes2 & n2 & k & E2 & Hc2 & Hn2 & Hfo2 & Hop2).
  assert (Hsleep : lifetime (f :: fs) p nodes
                   = Ok (p2, nodes2, length nodes1 - length (nodes ++ fi_others f) + k)).
  { simpl. rewrite E1. cbn [mbind exc_bind]. rewrite E2. done. }
  (* the frame awake *)
  destruct Hpa as (Hva & Hxa & Hua). unfold fading in Hfa.
  assert (Hwf2 : cache_wf (carry p2 (fi_part awake)) (nodes2 ++ fi_others awake)).
  { intros m Hm. simpl in Hm. rewrite Hc2 in Hm. injection Hm as <-.
    rewrite length_app. lia. }
  destruct (frame_part_fade (fi_options awake) (fi_sleeping awake)
              (carry p2 (fi_part awake)) (nodes2 ++ fi_others awake))
    as (n3 & p3 & nodes3 & E3 & Hc3 & Hn3 & R3); try done.
  rewrite Hfa in R3. unfold has_fullOpacity in R3. simpl in R3.
  rewrite Hfo2, Ho in R3. simpl in R3. injection R3 as Hfo3 Hop3.
  split.
  - rewrite Hsleep. unfold opacity_of, fullOpacity_of. rewrite Hc2. simpl.
    by rewrite Hop2, Hfo2.
  - rewrite lifetime_app, Hsleep. simpl lifetime. rewrite E3. cbn [mbind exc_bind].
    unfold opacity_of, fullOpacity_of. rewrite Hc3. simpl. by rewrite Hop3, Hfo3.
Qed.

(** a polygon asleep for three frames in wireframe mode, then awake *)
Lemma sleeping_fade_never_compounds_witness :
  let asleep := mkFrameInput (Frame.default_options false) true (polygon_at 1 2 0) [] in
  let awake := mkFrameInput (Frame.default_options false) false (polygon_at 1 2 0) [] in
  opacity_of (lifetime [asleep; asleep; asleep] (polygon_at 1 2 0) []) = Some 0.5%float
  /\ opacity_of (lifetime [asleep; asleep; asleep; awake] (polygon_at 1 2 0) [])
     = Some 1%float
  /\ fullOpacity_of (lifetime [asleep; asleep; asleep; awake] (polygon_at 1 2 0) []) = None.
Proof.
  intros asleep awake.
  assert (Hplain : forall sl, plain (mkFrameInput (Frame.default_options false) sl
                                        (polygon_at 1 2 0) [])).
  { intros sl. split_and!; done. }
  destruct (sleeping_fade_never_compounds asleep [asleep; asleep] awake (polygon_at 1 2 0) [])
    as ((H1 & _) & (H2 & H3)).
  - repeat constructor; apply Hplain.
  - repeat constructor.
  - apply Hplain.
  - reflexivity.
  - intros n Hn. discriminate Hn.
  - reflexivity.
  - reflexivity.
  - split_and!; [exact H1|exact H2|exact H3].
Defined.

End FadeFacts.

(** ** The nodes the passes make *)

Section NewNodes.
Import MainPass Frame.

Implicit Types (p : Part) (nodes : list Node) (n : nat) (b : Body).

Lemma fade_path sh sl n p nodes m :
  path_of <$> (fade sh sl n p nodes).2 !! m = path_of <$> nodes !! m.
Proof.
  unfold fade. repeat case_match; simpl; try done.
  all: destruct (decide (n = m)) as [->|Hne];
    [rewrite list_lookup_alter_eq|by rewrite list_lookup_alter_ne].
  all: destruct (nodes !! m) as [s|]; [|done]; simpl; f_equal.
  all: unfold path_of, node_attr, attr_merge; simpl; by rewrite (left_id_L ∅ (∪)).
Qed.

(** X15. The outline of a wireframe. A part drawn for the first time
    by [Render.bodyWireframes] gets a [Path] node whose path starts at
    [vertices[0]], taken before the internal vertices are filtered out,
    and goes on through the vertices of index 1 and up of the list that
    is left. With [showInternalEdges] these are all the other vertices.
    Without it they are the other vertices that are not internal when
    [vertices[0]] is not internal; when [vertices[0]] is internal the
    path still starts there and the first vertex that is not internal is
    left out. *)
Theorem wireframe_outline opts sl p nodes v0 vs :
  spriteNode p = None -> vertices p = v0 :: vs ->
  exists p' nodes' s,
    wireframes_part opts sl p nodes = Ok (p', nodes')
    /\ spriteNode p' = Some (length nodes)
    /\ nodes' !! length nodes = Some s
    /\ n_kind s = KPath
    /\ path_of s
       = Some (VObj [("d", VPathData (coords v0)
                             (coords <$> outline (flag opts "showInternalEdges") v0 vs));
                     ("trim", VBool true)]).
Proof.
  intros Hc Hv.
  unfold wireframes_part, wireframes_node, first_vertex, create. rewrite Hc, Hv.
  cbn [mbind exc_bind].
  set (a := wireframe_attrs (flag opts "showInternalEdges") v0 p).
  pose proof (fade_path (flag opts "showSleeping") sl (length nodes)
                (set_spriteNode (length nodes) p) (nodes ++ [mkNode KPath a])
                (length nodes)) as Hpath.
  pose proof (fade_kind (flag opts "showSleeping") sl (length nodes)
                (set_spriteNode (length nodes) p) (nodes ++ [mkNode KPath a])) as Hkind.
  pose proof (fade_spriteNode (flag opts "showSleeping") sl (length nodes)
                (set_spriteNode (length nodes) p) (nodes ++ [mkNode KPath a])) as Hsn.
  destruct (fade _ _ _ _ _) as [p' nodes']. cbn [fst snd] in *.
  rewrite list_lookup_middle in Hpath, Hkind by done.
  destruct (nodes' !! length nodes) as [s|] eqn:Hs; [|done].
  exists p', nodes', s. split_and!; try done.
  - simpl in Hkind. congruence.
  - simpl in Hpath. injection Hpath as ->.
    unfold path_of, a, wireframe_attrs, attr_merge, pose, path_val, outline. simpl.
    rewrite Hv. destruct (flag opts "showInternalEdges"); [done|].
    destruct (isInternal v0) eqn:Hi.
    + by rewrite filter_cons_False by congruence.
    + by rewrite filter_cons_True by done.
Qed.

(** a square whose first corner is internal: the second corner is lost *)
Lemma wireframe_outline_witness :
  exists p' nodes' s,
    wireframes_part (default_options false) false notched [] = Ok (p', nodes')
    /\ nodes' !! 0 = Some s
    /\ path_of s = Some (VObj [("d", VPathData (0%float, 0%float)
                                        [(10%float, 10%float); (0%float, 10%float)]);
                               ("trim", VBool true)]).
Proof.
  destruct (wireframe_outline (default_options false) false notched []
              (mkVertex 0 0 true)
              [mkVertex 10 0 false; mkVertex 10 10 false; mkVertex 0 10 false]
              eq_refl eq_refl) as (p' & nodes' & s & H1 & _ & H2 & _ & H3).
  exists p', nodes', s. split; [exact H1|]. split; [exact H2|]. exact H3.
Defined.

(** X16. What [Render.bodies] makes for a visible part that has no
    node: a [Sprite] when the part has a texture or, failing that, a
    truthy [circleRadius], and a [Path] otherwise; the texture comes
    first, so a textured circle is drawn as its texture. The node is
    appended at the end of the layer and the part refers to it. A
    [Sprite] needs no vertices. *)
Theorem new_node_kind opts sl p nodes p' nodes' :
  bodies_part opts sl p nodes = Ok (p', nodes') ->
  visible (p_render p) = true -> spriteNode p = None ->
  spriteNode p' = Some (length nodes)
  /\ length nodes' = S (length nodes)
  /\ n_kind <$> nodes' !! length nodes
     = Some (if is_textured p || JSNum.truthy (circleRadius p) then KSprite else KPath).
Proof.
  unfold bodies_part. intros H Hv Hc. rewrite Hv in H. cbn [negb] in H.
  assert (Hnode : exists a,
    bodies_node p nodes
    = Ok (length nodes, set_spriteNode (length nodes) p,
          nodes ++ [mkNode (if is_textured p || JSNum.truthy (circleRadius p)
                            then KSprite else KPath) a])).
  { unfold bodies_node, create, first_vertex in *. rewrite Hc in *.
    destruct (is_textured p); [by eexists|].
    destruct (JSNum.truthy (circleRadius p)); [by eexists|].
    destruct (vertices p); [done|]. by eexists. }
  destruct Hnode as (a & Hnode). rewrite Hnode in H. cbn [mbind exc_bind] in H.
  injection H as H.
  pose proof (fade_kind (flag opts "showSleeping") sl (length nodes)
                (set_spriteNode (length nodes) p)
                (apply_sprite_attrs (set_spriteNode (length nodes) p) (length nodes)
                   (nodes ++ [mkNode (if is_textured p || JSNum.truthy (circleRadius p)
                                      then KSprite else KPath) a]))) as Hkind.
  pose proof (fade_length (flag opts "showSleeping") sl (length nodes)
                (set_spriteNode (length nodes) p)
                (apply_sprite_attrs (set_spriteNode (length nodes) p) (length nodes)
                   (nodes ++ [mkNode (if is_textured p || JSNum.truthy (circleRadius p)
                                      then KSprite else KPath) a]))) as Hlen.
  pose proof (fade_spriteNode (flag opts "showSleeping") sl (length nodes)
                (set_spriteNode (length nodes) p)
                (apply_sprite_attrs (set_spriteNode (length nodes) p) (length nodes)
                   (nodes ++ [mkNode (if is_textured p || JSNum.truthy (circleRadius p)
                                      then KSprite else KPath) a]))) as Hsn.
  rewrite H in Hkind, Hlen, Hsn. cbn [fst snd] in *.
  rewrite apply_sprite_attrs_length, length_app in Hlen.
  rewrite apply_sprite_attrs_eq, alter_attr_kind, list_lookup_middle in Hkind by done.
  split_and!; [done|simpl in Hlen; lia|done].
Qed.

(** a circle without vertices, and a square *)
Lemma new_node_kind_witness :
  (exists p' nodes', bodies_part shaded false disc [] = Ok (p', nodes')
     /\ n_kind <$> nodes' !! 0 = Some KSprite)
  /\ (exists p' nodes', bodies_part shaded false (polygon_at 1 2 0) [] = Ok (p', nodes')
        /\ n_kind <$> nodes' !! 0 = Some KPath).
Proof.
  split.
  - destruct (bodies_part shaded false disc []) as [[p' nodes']|e] eqn:H;
      [|vm_compute in H; discriminate H].
    exists p', nodes'. split; [reflexivity|].
    exact (proj2 (proj2 (new_node_kind _ _ _ _ _ _ H eq_refl eq_refl))).
  - destruct (bodies_part shaded false (polygon_at 1 2 0) []) as [[p' nodes']|e] eqn:H;
      [|vm_compute in H; discriminate H].
    exists p', nodes'. split; [reflexivity|].
    exact (proj2 (proj2 (new_node_kind _ _ _ _ _ _ H eq_refl eq_refl))).
Defined.

End NewNodes.

(** ** Hulls, and the pointer *)

Section HullFacts.
Import MainPass Frame.
Local Open Scope float_scope.

Implicit Types (p : Part) (nodes : list Node) (b : Body).

Lemma each_part_ext step step' ps : forall nodes,
  (forall p nodes, step p nodes = step' p nodes) ->
  each_part step ps nodes = each_part step' ps nodes.
Proof.
  induction ps as [|p ps IH]; intros nodes H; [done|]. simpl. rewrite <- H.
  destruct (step p nodes) as [[p' nodes']|e]; [|done]. by rewrite IH.
Qed.

Lemma each_body_ext step step' refs : forall sc,
  (forall b nodes, step b nodes = step' b nodes) ->
  each_body step refs sc = each_body step' refs sc.
Proof.
  induction refs as [|i refs IH]; intros sc H; [done|]. simpl.
  destruct (sc_bodies sc !! i) as [b|]; [|by apply IH]. rewrite <- H.
  destruct (step b (sc_nodes sc)) as [[b' nodes] [e|]]; [done|]. by apply IH.
Qed.

Lemma Render_bodies_ext opts opts' refs sc :
  flag opts' "showSleeping" = flag opts "showSleeping" ->
  Render_bodies opts' refs sc = Render_bodies opts refs sc.
Proof.
  intros Hf. apply each_body_ext. intros b nodes. unfold body_step.
  destruct (negb _); [done|]. unfold each_drawn_part.
  assert (H : forall ps, each_part (bodies_part opts' (isSleeping (self b))) ps nodes
                         = each_part (bodies_part opts (isSleeping (self b))) ps nodes).
  { intros ps. apply each_part_ext. intros p nodes0. unfold bodies_part. by rewrite Hf. }
  destruct (others b); by rewrite H.
Qed.

(** X17. Hulls are drawn in wireframe mode only, and for compound
    bodies only. With [options.wireframes] off, [showConvexHulls] changes
    nothing in what a frame draws. [Render.bodyConvexHulls] leaves an
    invisible body and a body of one part alone; for a visible compound
    body without a node it appends one [Path] node, kept on the body
    itself and not on its parts, whose path starts at [(0, 0)] and goes
    through the other hull vertices relative to the first one; it faults
    exactly when such a body has no vertex. *)
Theorem hulls_only_for_compound_wireframes :
  (forall opts v bodies r,
     flag opts "wireframes" = false ->
     frame_main (<["showConvexHulls" := v]> opts) bodies r = frame_main opts bodies r)
  /\ (forall b nodes,
        visible (p_render (self b)) = false \/ others b = [] ->
        hull_step b nodes = done (b, nodes))
  /\ (forall b nodes v0 vs,
        visible (p_render (self b)) = true -> others b ≠ [] ->
        spriteNode (self b) = None -> vertices (self b) = v0 :: vs ->
        exists a,
          hull_step b nodes
          = done (mkBody (set_spriteNode (length nodes) (self b)) (others b),
                  nodes ++ [mkNode KPath a])
          /\ path_of (mkNode KPath a)
             = Some (VObj [("d", VPathData (0, 0)
                                   ((fun v => (v_x v - v_x v0, v_y v - v_y v0)) <$> vs));
                           ("trim", VBool true)]))
  /\ (forall b nodes,
        returned (hull_step b nodes) = false
        <-> visible (p_render (self b)) = true /\ others b ≠ []
            /\ spriteNode (self b) = None /\ vertices (self b) = []).
Proof.
  split_and!.
  - intros opts v bodies r Hw. unfold frame_main.
    assert (Hf : forall name, name ≠ "showConvexHulls" ->
      flag (<["showConvexHulls" := v]> opts) name = flag opts name).
    { intros name Hne. unfold flag. by rewrite lookup_insert_ne. }
    rewrite (Hf "wireframes"), Hw by done. cbn [negb].
    unfold pass_now, with_engine, pass. destruct (engine r) as [e|]; [|done].
    by rewrite (Render_bodies_ext opts) by (by apply Hf).
  - intros b nodes H. unfold hull_step, parts.
    destruct H as [-> | ->]; [done|]. simpl. by rewrite orb_true_r.
  - intros b nodes v0 vs Hv Ho Hc Hvs. unfold hull_step, parts, first_vertex, create.
    rewrite Hv, Hc, Hvs. destruct (others b); [done|]. simpl.
    eexists. split; [reflexivity|]. unfold path_of, hull_attrs. simpl. by rewrite Hvs.
  - intros b nodes. unfold hull_step, parts, first_vertex, create, returned.
    destruct (visible (p_render (self b))); simpl; [|intuition congruence].
    destruct (others b); simpl; [intuition congruence|].
    destruct (spriteNode (self b)); simpl; [intuition congruence|].
    destruct (vertices (self b)); simpl; intuition congruence.
Qed.

Lemma pass_now_mouse f s : mouse (pass_now f s).1 = mouse s.
Proof.
  unfold pass_now, with_engine, pass. destruct (engine s); [|done]. by destruct (f _).
Qed.

(** X18. The pointer follows the view. Under [hasBounds] a frame
    whose culling has returned leaves [render.mouse] mapped to the view:
    its scale is the size of the bounds over the size of the canvas, its
    offset the bounds' minimum, its position [absolute * scale + offset];
    the passes that follow do not touch it. Without [hasBounds], and when
    the culling faults, the frame leaves the mouse as it is. *)
Theorem mouse_follows_the_view r e m :
  engine r = Some e -> mouse r = Some m ->
  let r' := (Render_world r).1 in
  let sx := (vx (bmax (bounds r)) - vx (bmin (bounds r))) / cv_width (canvas r) in
  let sy := (vy (bmax (bounds r)) - vy (bmin (bounds r))) / cv_height (canvas r) in
  (flag (options r) "hasBounds" = true -> is_ok (frame_constraints r e) = true ->
     mouse r'
     = Some (mkMouse (mkVec (vx (m_absolute m) * sx + vx (bmin (bounds r)))
                            (vy (m_absolute m) * sy + vy (bmin (bounds r))))
               (m_absolute m) (mkVec sx sy) (bmin (bounds r))))
  /\ (flag (options r) "hasBounds" = false \/ is_ok (frame_constraints r e) = false ->
      mouse r' = Some m).
Proof.
  intros He Hm. cbn zeta. rewrite (Render_world_unfold r e He).
  assert (Hkeep : forall cs s,
    mouse (block [ frame_main (options r) (frame_bodies r e);
                   fun s => done (schedule (frame_bodies r e) cs (timestamp e) s) ] s).1
    = mouse s).
  { intros cs s.
    apply (block_keeps (fun s s' => mouse s' = mouse s)); [done|congruence|].
    repeat apply Forall_cons_2; try apply Forall_nil_2; intros s0.
    - apply (frame_main_keeps (fun s s' => mouse s' = mouse s)); [done|congruence|].
      unfold frame_passes. repeat apply Forall_cons_2; try apply Forall_nil_2;
        intros s1; apply pass_now_mouse.
    - simpl. unfold schedule. by destruct (extraDraw s0). }
  destruct (begun_fields r e) as (Hb & _ & _ & _ & Hmb & _).
  assert (Hcv : cv_width (canvas (begun r e)) = cv_width (canvas r)
                /\ cv_height (canvas (begun r e)) = cv_height (canvas r)).
  { unfold begun. by destruct (bool_decide _). }
  destruct Hcv as [Hw Hh].
  split.
  - intros Hhb Hok. destruct (frame_constraints r e) as [cs|err]; [|done].
    rewrite Hkeep. unfold viewed. rewrite Hhb.
    unfold refresh_mouse, startViewTransform.
    cbn [mouse set_mouse set_context bounds canvas layer].
    rewrite Hmb, Hm, Hb. cbn [fmap option_fmap option_map].
    unfold LookAt.update_mouse, MouseOps.setOffset, MouseOps.setScale, MouseOps.reposition.
    cbn. unfold canvas in *. cbn [layer set_context]. by rewrite Hw, Hh.
  - intros Hcase. destruct (frame_constraints r e) as [cs|err] eqn:Hfc.
    + destruct Hcase as [Hhb|Hok]; [|done].
      rewrite Hkeep. unfold viewed. rewrite Hhb. congruence.
    + cbn. congruence.
Qed.

(** a pointer in the middle of the canvas, the view twice as large *)
Lemma mouse_follows_the_view_witness :
  let r := set_bounds (mkBounds (mkVec 100 100) (mkVec 1700 1300))
             (render_800x600 (Some far_bodies) (Some pointer) clipped) in
  mouse (Render_world r).1
  = Some (mkMouse (mkVec 900 700) (mkVec 400 300) (mkVec 2 2) (mkVec 100 100)).
Proof.
  intros r.
  destruct (mouse_follows_the_view r far_bodies pointer eq_refl eq_refl) as [H _].
  rewrite H; reflexivity.
Defined.

End HullFacts.

(** ** The first pass, the callback and the simulation *)

Section WholeFrame.
Import MainPass Frame.

Implicit Types (p : Part) (nodes : list Node) (b : Body) (sc : Scene).

Lemma fresh_part_step wire part_step opts sl p nodes :
  caches wire part_step ->
  (forall p nodes p' nodes',
     part_step opts sl p nodes = Ok (p', nodes') -> cache_step p nodes p' nodes') ->
  (spriteNode p = None -> vertices p ≠ [] ->
   exists p' nodes', part_step opts sl p nodes = Ok (p', nodes')) ->
  spriteNode p = None -> vertices p ≠ [] ->
  exists p' nodes', part_step opts sl p nodes = Ok (p', nodes')
    /\ length nodes' = length nodes + (if drawn_in wire p then 1 else 0).
Proof.
  intros Hc Hs Hex Hn Hv. destruct (Hc opts sl p nodes) as [H1 H2].
  destruct (drawn_in wire p) eqn:Hd.
  - destruct (Hex Hn Hv) as (p' & nodes' & E). exists p', nodes'. split; [done|].
    destruct (H1 _ _ E) as [_ Hsome]. specialize (Hsome eq_refl).
    destruct (Hs _ _ _ _ E) as [[Hsn _]|(_ & _ & Hl)]; [|lia].
    rewrite Hsn, Hn in Hsome. by destruct Hsome.
  - destruct H2 as (p' & nodes' & E & Hl); [done|].
    exists p', nodes'. split; [done|lia].
Qed.

Lemma mode_cache_step (wire : bool) opts sl p nodes p' nodes' :
  (if wire then wireframes_part else bodies_part) opts sl p nodes = Ok (p', nodes') ->
  cache_step p nodes p' nodes'.
Proof.
  destruct wire; [apply wireframes_part_cache_step|apply bodies_part_cache_step].
Qed.

Lemma mode_returns (wire : bool) opts sl p nodes :
  spriteNode p = None -> vertices p ≠ [] ->
  exists p' nodes', (if wire then wireframes_part else bodies_part) opts sl p nodes
                    = Ok (p', nodes').
Proof.
  intros Hn Hv. destruct wire.
  - destruct (wireframes_part_ok opts sl p nodes) as (p' & nodes' & E & _); [done|].
    by exists p', nodes'.
  - destruct (bodies_part_ok opts sl p nodes) as (p' & nodes' & E & _); [done|].
    by exists p', nodes'.
Qed.

Lemma fresh_parts_step (wire : bool) opts sl ps : forall nodes,
  Forall (fun p => spriteNode p = None /\ vertices p ≠ []) ps ->
  exists ps' nodes',
    each_part ((if wire then wireframes_part else bodies_part) opts sl) ps nodes
    = done (ps', nodes')
    /\ length nodes'
       = length nodes + length (filter (fun p => drawn_in wire p = true) ps).
Proof.
  induction ps as [|p ps IH]; intros nodes Hall; simpl.
  { eexists _, _. split; [done|]. simpl. lia. }
  apply Forall_cons in Hall as [[Hn Hv] Hall].
  destruct (fresh_part_step wire _ opts sl p nodes (mode_caches wire)
              (mode_cache_step wire opts sl) (mode_returns wire opts sl p nodes) Hn Hv)
    as (p' & nodes' & -> & Hl).
  destruct (IH nodes' Hall) as (ps' & nodes'' & -> & Hl').
  eexists _, _. split; [done|]. rewrite Hl', Hl.
  destruct (drawn_in wire p) eqn:Hd.
  - rewrite filter_cons_True by done. simpl. lia.
  - rewrite filter_cons_False; [lia|]. by rewrite Hd.
Qed.

Lemma fresh_body_step (wire : bool) opts b nodes :
  fresh_body b ->
  exists b' nodes',
    body_step (if wire then wireframes_part else bodies_part) opts b nodes = done (b', nodes')
    /\ length nodes' = length nodes + nodes_due wire b.
Proof.
  intros Hf. unfold body_step, nodes_due.
  destruct (visible (p_render (self b))); simpl; [|eexists _, _; split; [done|lia]].
  unfold fresh_body, drawn_parts in *. unfold each_drawn_part.
  destruct (others b) as [|q qs].
  - destruct (fresh_parts_step wire opts (isSleeping (self b)) _ nodes Hf)
      as (ps' & nodes' & -> & Hl). by eexists _, _.
  - destruct (fresh_parts_step wire opts (isSleeping (self b)) _ nodes Hf)
      as (ps' & nodes' & -> & Hl). by eexists _, _.
Qed.

Lemma fresh_bodies_pass (wire : bool) opts refs : forall sc,
  NoDup refs ->
  (forall i b, i ∈ refs -> sc_bodies sc !! i = Some b -> fresh_body b) ->
  exists sc',
    each_body (body_step (if wire then wireframes_part else bodies_part) opts) refs sc
    = done sc'
    /\ length (sc_nodes sc')
       = length (sc_nodes sc)
         + sum_list_with (fun i => from_option (nodes_due wire) 0 (sc_bodies sc !! i)) refs.
Proof.
  induction refs as [|i refs IH]; intros sc Hnd Hfresh; simpl.
  { eexists. split; [done|]. lia. }
  apply NoDup_cons in Hnd as [Hi Hnd].
  destruct (sc_bodies sc !! i) as [b|] eqn:Hb; simpl.
  - destruct (fresh_body_step wire opts b (sc_nodes sc)) as (b' & nodes' & -> & Hl).
    { apply (Hfresh i); [apply elem_of_cons; by left|done]. }
    cbn [done].
    destruct (IH (mkScene (<[i := b']> (sc_bodies sc)) nodes' (sc_ctx sc)) Hnd)
      as (sc' & -> & Hl').
    { intros j bj Hj. simpl. rewrite lookup_insert_ne by (intros ->; done).
      apply Hfresh. apply elem_of_cons. by right. }
    exists sc'. split; [done|]. rewrite Hl'. simpl. rewrite Hl.
    assert (Hsum : forall l : list nat, i ∉ l ->
      sum_list_with (fun j => from_option (nodes_due wire) 0
                                (<[i := b']> (sc_bodies sc) !! j)) l
      = sum_list_with (fun j => from_option (nodes_due wire) 0 (sc_bodies sc !! j)) l).
    { induction l as [|j l IHl]; intros Hnin; [done|].
      apply not_elem_of_cons in Hnin as [Hne Hnin]. simpl.
      rewrite lookup_insert_ne by done. by rewrite IHl. }
    rewrite Hsum by done. lia.
  - destruct (IH sc Hnd) as (sc' & -> & Hl').
    { intros j bj Hj. apply Hfresh. apply elem_of_cons. by right. }
    exists sc'. split; [done|]. rewrite Hl'. lia.
Qed.

(** X19. The first pass makes one node for each part it draws, no
    more and no fewer. Over bodies none of whose drawn parts has a node,
    each part having a vertex, and with no body twice in the array, a
    pass returns and the layer has grown by the number of drawn parts of
    the visible bodies: for [Render.bodyWireframes] every part the loop
    visits (the body itself when it has one part, its other parts when it
    is compound), for [Render.bodies] those of them that are visible. *)
Theorem first_pass_node_count wire opts refs sc :
  NoDup refs ->
  (forall i b, i ∈ refs -> sc_bodies sc !! i = Some b -> fresh_body b) ->
  exists sc',
    body_pass wire opts refs sc = done sc'
    /\ length (sc_nodes sc')
       = length (sc_nodes sc)
         + sum_list_with (fun i => from_option (nodes_due wire) 0 (sc_bodies sc !! i)) refs.
Proof.
  intros Hnd Hfresh. rewrite body_pass_unfold.
  destruct (fresh_bodies_pass wire opts refs (if wire then begin_path sc else sc) Hnd)
    as (sc' & Hsc' & Hl).
  { by destruct wire. }
  exists sc'. split; [done|]. rewrite Hl. by destruct wire.
Qed.

(** a square and a compound body of two parts, in wireframe mode *)
Lemma first_pass_node_count_witness :
  exists sc',
    body_pass true (default_options false) [1; 2]
      (mkScene {[ 1 := mkBody (polygon_at 5 5 0) []; 2 := compound ]} [] []) = done sc'
    /\ length (sc_nodes sc') = 3.
Proof.
  destruct (first_pass_node_count true (default_options false) [1; 2]
              (mkScene {[ 1 := mkBody (polygon_at 5 5 0) []; 2 := compound ]} [] []))
    as (sc' & Hsc' & Hl).
  - apply NoDup_cons. split; [|apply NoDup_singleton].
    intros H. apply elem_of_cons in H as [H|H]; [discriminate H|by apply elem_of_nil in H].
  - intros i b Hi Hb.
    repeat (apply elem_of_cons in Hi as [->|Hi]); [..|by apply elem_of_nil in Hi].
    + vm_compute in Hb. injection Hb as <-. repeat constructor; done.
    + vm_compute in Hb. injection Hb as <-. repeat constructor; done.
  - exists sc'. split; [exact Hsc'|]. rewrite Hl. reflexivity.
Defined.

(** X20. The callback is the frame's. When a frame returns on a
    renderer with no callback pending, the callback it registers holds
    the arrays of that frame: the bodies and the constraints left by the
    culling (all of them without [hasBounds]) and the frame's timestamp;
    the overlays of the pass will be drawn for these, wherever the view
    and the world are by then. A frame that finds a callback pending
    leaves it as it is, arrays included. *)
Theorem callback_captures_the_frame r e :
  engine r = Some e -> (Render_world r).2 = None ->
  exists cs,
    frame_constraints r e = Ok cs
    /\ extraDraw (Render_world r).1
       = Some (default (mkHandler (next_token r) (frame_bodies r e) cs (timestamp e))
                 (extraDraw r)).
Proof.
  intros He Hret. rewrite (Render_world_unfold r e He) in *.
  destruct (frame_constraints r e) as [cs|err]; [|done].
  exists cs. split; [done|]. cbn [block and_then] in *.
  pose proof (main_pass_same_protocol (options r) (frame_bodies r e) (viewed r e)) as Hm.
  change (if negb (flag (options r) "wireframes") then _ else _)
    with (frame_main (options r) (frame_bodies r e) (viewed r e)) in Hm.
  destruct (frame_main (options r) (frame_bodies r e) (viewed r e)) as [rm [err|]];
    [done|]. cbn [fst snd and_then done] in *.
  destruct Hm as (Hx & _ & _ & Htk).
  assert (Hv : extraDraw (viewed r e) = extraDraw r /\ next_token (viewed r e) = next_token r).
  { unfold viewed, begun. by destruct (flag _ _), (bool_decide _). }
  destruct Hv as [Hvx Hvt]. rewrite Hvx in Hx. rewrite Hvt in Htk.
  unfold schedule. rewrite Hx. destruct (extraDraw r); [done|]. cbn. by rewrite Htk.
Qed.

(** the demo world, clipped: the callback holds body 1 and no constraint *)
Lemma callback_captures_the_frame_witness :
  extraDraw (Render_world (render_800x600 (Some far_bodies) None clipped)).1
  = Some (mkHandler 0 [1] [] 1000).
Proof.
  destruct (callback_captures_the_frame
              (render_800x600 (Some far_bodies) None clipped) far_bodies eq_refl eq_refl)
    as (cs & Hcs & Hx).
  rewrite Hx. vm_compute in Hcs. injection Hcs as <-. reflexivity.
Defined.

Lemma fade_strip sh sl n p nodes : strip_part (fade sh sl n p nodes).1 = strip_part p.
Proof. unfold fade. by repeat case_match. Qed.

Lemma bodies_part_strip opts sl p nodes p' nodes' :
  bodies_part opts sl p nodes = Ok (p', nodes') -> strip_part p' = strip_part p.
Proof.
  unfold bodies_part. destruct (visible (p_render p)); simpl; [|by intros [= <- <-]].
  destruct (bodies_node p nodes) as [[[n p1] nodes1]|e] eqn:Hn; [|done]. simpl.
  intros [= Hfade].
  pose proof (fade_strip (flag opts "showSleeping") sl n p1
                (apply_sprite_attrs p1 n nodes1)) as Hs.
  rewrite Hfade in Hs. cbn [fst] in Hs. rewrite Hs.
  destruct (bodies_node_shape _ _ _ _ _ Hn) as [(_ & -> & _)|(_ & _ & -> & _)]; done.
Qed.

Lemma wireframes_part_strip opts sl p nodes p' nodes' :
  wireframes_part opts sl p nodes = Ok (p', nodes') -> strip_part p' = strip_part p.
Proof.
  unfold wireframes_part.
  destruct (wireframes_node opts p nodes) as [[[n p1] nodes1]|e] eqn:Hn; [|done]. simpl.
  intros [= Hfade].
  pose proof (fade_strip (flag opts "showSleeping") sl n p1 nodes1) as Hs.
  rewrite Hfade in Hs. cbn [fst] in Hs. rewrite Hs.
  destruct (wireframes_node_shape _ _ _ _ _ _ Hn) as [(_ & -> & _)|(_ & _ & -> & _)]; done.
Qed.

Lemma each_part_strip step ps : forall nodes,
  (forall p nodes p' nodes', step p nodes = Ok (p', nodes') -> strip_part p' = strip_part p) ->
  strip_part <$> (each_part step ps nodes).1.1 = strip_part <$> ps.
Proof.
  induction ps as [|p ps IH]; intros nodes Hs; [done|]. simpl.
  destruct (step p nodes) as [[p' nodes']|e] eqn:Hp; [|done].
  specialize (IH nodes' Hs).
  destruct (each_part step ps nodes') as [[ps' nodes''] err]. cbn [fst snd] in *.
  rewrite !fmap_cons. by rewrite (Hs _ _ _ _ Hp), IH.
Qed.

Lemma head_eq {A : Type} (x y : A) (l l' : list A) : x :: l = y :: l' -> x = y.
Proof. by intros [= ->]. Qed.

Lemma body_step_strip part_step opts b nodes :
  (forall sl p nodes p' nodes',
     part_step opts sl p nodes = Ok (p', nodes') -> strip_part p' = strip_part p) ->
  strip_body (body_step part_step opts b nodes).1.1 = strip_body b.
Proof.
  intros Hs. unfold body_step. destruct (negb _); [done|]. unfold each_drawn_part.
  destruct (others b) as [|q qs] eqn:Ho.
  - pose proof (each_part_strip (part_step opts (isSleeping (self b))) [self b] nodes
                  (Hs _)) as H.
    destruct (each_part _ [self b] nodes) as [[ps' nodes'] err]. cbn [fst snd] in *.
    destruct ps' as [|p1 [|? ?]]; try done. apply head_eq in H.
    unfold strip_body. simpl. by rewrite H, Ho.
  - pose proof (each_part_strip (part_step opts (isSleeping (self b))) (q :: qs) nodes
                  (Hs _)) as H.
    destruct (each_part _ (q :: qs) nodes) as [[ps' nodes'] err]. cbn [fst snd] in *.
    unfold strip_body. simpl. by rewrite H, Ho.
Qed.

Lemma hull_step_strip b nodes : strip_body (hull_step b nodes).1.1 = strip_body b.
Proof.
  unfold hull_step, create. destruct (_ || _); [done|].
  destruct (spriteNode (self b)); [done|]. by destruct (first_vertex (self b)).
Qed.

Lemma each_body_strip step refs :
  (forall b nodes, strip_body (step b nodes).1.1 = strip_body b) ->
  forall sc, strip_body <$> sc_bodies (each_body step refs sc).1 = strip_body <$> sc_bodies sc.
Proof.
  intros Hs. induction refs as [|i refs IH]; intros sc; [done|]. simpl.
  destruct (sc_bodies sc !! i) as [b|] eqn:Hi; [|apply IH].
  specialize (Hs b (sc_nodes sc)).
  destruct (step b (sc_nodes sc)) as [[b' nodes] err]. cbn [fst snd] in Hs.
  assert (Hins : strip_body <$> <[i := b']> (sc_bodies sc) = strip_body <$> sc_bodies sc).
  { rewrite fmap_insert, Hs. apply insert_id. by rewrite lookup_fmap, Hi. }
  destruct err as [e|]; [done|].
  by rewrite (IH (mkScene (<[i := b']> (sc_bodies sc)) nodes (sc_ctx sc))).
Qed.

Lemma same_world_refl r : same_world r r.
Proof. by unfold same_world. Qed.

Lemma same_world_trans (r1 r2 r3 : Render) :
  same_world r1 r2 -> same_world r2 r3 -> same_world r1 r3.
Proof. unfold same_world. intuition congruence. Qed.

Lemma same_world_eq r r' :
  options r' = options r -> bounds r' = bounds r -> engine r' = engine r ->
  same_world r r'.
Proof. unfold same_world. by intros -> -> ->. Qed.

Lemma pass_now_same_world f :
  (forall sc, strip_body <$> sc_bodies (f sc).1 = strip_body <$> sc_bodies sc) ->
  forall s, same_world s (pass_now f s).1.
Proof.
  intros Hf s. unfold pass_now, with_engine, pass.
  destruct (engine s) as [e|] eqn:He; [|apply same_world_refl].
  specialize (Hf (scene_of e s)). destruct (f (scene_of e s)) as [sc err].
  unfold same_world. cbn. rewrite He. cbn. split_and!; try done.
  unfold physics, set_e_bodies. cbn in *. by rewrite Hf.
Qed.

Lemma Render_world_same_world r : same_world r (Render_world r).1.
Proof.
  destruct (engine r) as [e|] eqn:He.
  2:{ unfold Render_world. rewrite He. apply same_world_refl. }
  apply (same_world_trans _ (begun r e)).
  { destruct (begun_fields r e) as (? & ? & ? & _). by apply same_world_eq. }
  apply (Render_world_keeps same_world r e He).
  - apply same_world_refl.
  - apply same_world_trans.
  - intros s. by apply same_world_eq.
  - intros s. by apply same_world_eq.
  - unfold frame_passes. repeat apply Forall_cons_2; try apply Forall_nil_2;
      apply pass_now_same_world; intros sc.
    + apply each_body_strip. intros b nodes. apply body_step_strip.
      intros sl. apply bodies_part_strip.
    + unfold Render_bodyConvexHulls.
      by rewrite (each_body_strip hull_step _ hull_step_strip).
    + unfold Render_bodyWireframes.
      rewrite (each_body_strip (body_step wireframes_part (options r))); [done|].
      intros b nodes. apply body_step_strip. intros sl. apply wireframes_part_strip.
  - intros bodies constraints ts s. apply same_world_eq; unfold schedule;
      by destruct (extraDraw s).
Qed.

Lemma draw_on_same_world f r : same_world r (draw_on f r).1.
Proof. unfold draw_on. by destruct (f (context r)). Qed.

Lemma when_same_world c (m : Render -> Res Render) r :
  (forall r, same_world r (m r).1) -> same_world r (when c m r).1.
Proof. intros H. unfold when. destruct c; [apply H|apply same_world_refl]. Qed.

Lemma with_engine_same_world (f : Engine -> Render -> Res Render) r :
  (forall e r, same_world r (f e r).1) -> same_world r (with_engine f r).1.
Proof. intros H. unfold with_engine. destruct (engine r); [apply H|apply same_world_refl]. Qed.

Lemma run_extraDraw_same_world ov h r : same_world r (run_extraDraw ov h r).1.
Proof.
  unfold run_extraDraw. apply (block_keeps same_world).
  - apply same_world_refl.
  - apply same_world_trans.
  - apply Forall_app. split.
    + unfold overlays. repeat apply Forall_cons_2; try apply Forall_nil_2; intros r0.
      all: try (apply when_same_world; intros r1).
      all: try (apply with_engine_same_world; intros e0 r2).
      all: try (apply when_same_world; intros r3).
      all: try apply draw_on_same_world.
      destruct (debug ov r1 (debugState r1, context r1)) as [[d c] err]. done.
    + unfold finish. repeat apply Forall_cons_2; try apply Forall_nil_2; intros r0.
      all: try (apply when_same_world; intros r1).
      all: done.
Qed.

(** X21. Rendering never changes the simulation or the settings. Over
    every sequence of frames and ['update'] signals, whatever the
    overlays draw and whichever calls fault, [render.options] and
    [render.bounds] are what they were, and so is the engine but for the
    two properties the renderer keeps on the parts it draws,
    [spriteNode] and [fullOpacity]: positions, angles, vertices, sleep
    and visibility flags, constraints, pairs, the lists of the world and
    the timestamp are untouched. *)
Theorem rendering_never_changes_the_physics ov trace r :
  options (run ov trace r) = options r
  /\ bounds (run ov trace r) = bounds r
  /\ physics <$> engine (run ov trace r) = physics <$> engine r.
Proof.
  change (same_world r (run ov trace r)).
  revert r. induction trace as [|a trace IH]; intros r; [apply same_world_refl|].
  simpl. eapply same_world_trans; [|apply IH].
  destruct a; [apply Render_world_same_world|].
  unfold step, update_signal. apply (block_keeps same_world).
  - apply same_world_refl.
  - apply same_world_trans.
  - apply Forall_fmap, Forall_forall. intros h _ s. apply run_extraDraw_same_world.
Qed.

End WholeFrame.

(** ** Frames over a world *)

Section FrameCounts.
Import MainPass Frame.

Implicit Types (p : Part) (nodes : list Node) (b : Body) (sc : Scene).

Lemma each_body_fixed step refs i b :
  (forall nodes, step b nodes = done (b, nodes)) ->
  forall sc, sc_bodies sc !! i = Some b ->
    sc_bodies (each_body step refs sc).1 !! i = Some b.
Proof.
  intros Hs. induction refs as [|j refs IH]; intros sc Hi; [done|]. simpl.
  destruct (sc_bodies sc !! j) as [bj|] eqn:Hj; [|by apply IH].
  destruct (decide (j = i)) as [->|Hne].
  - rewrite Hi in Hj. injection Hj as <-. rewrite Hs. cbn [done].
    apply IH. simpl. by rewrite lookup_insert_eq.
  - destruct (step bj (sc_nodes sc)) as [[b' nodes] [e|]]; simpl.
    + by rewrite lookup_insert_ne.
    + apply IH. simpl. by rewrite lookup_insert_ne.
Qed.

Lemma pass_now_body_is f i b :
  (forall sc, sc_bodies sc !! i = Some b -> sc_bodies (f sc).1 !! i = Some b) ->
  forall s, body_is i b s -> body_is i b (pass_now f s).1.
Proof.
  intros Hf s (e & He & Hb). unfold pass_now, with_engine, pass. rewrite He.
  specialize (Hf (scene_of e s) Hb). destruct (f (scene_of e s)) as [sc err].
  eexists. split; [reflexivity|]. done.
Qed.

Lemma body_is_eq i b r r' : engine r' = engine r -> body_is i b r -> body_is i b r'.
Proof. intros Heq (e & He & Hb). exists e. split; [congruence|done]. Qed.

Lemma bodies_node_touch p nodes n p1 nodes1 m :
  bodies_node p nodes = Ok (n, p1, nodes1) ->
  m < length nodes -> spriteNode p ≠ Some m ->
  n ≠ m /\ nodes1 !! m = nodes !! m.
Proof.
  unfold bodies_node, create, first_vertex. intros H Hm Hne.
  destruct (spriteNode p) as [n0|] eqn:Hc.
  { injection H as <- <- <-. split; [congruence|].
    apply list_lookup_alter_ne. congruence. }
  destruct (is_textured p).
  { injection H as <- <- <-. split; [lia|]. by rewrite lookup_app_l. }
  destruct (JSNum.truthy (circleRadius p)).
  { injection H as <- <- <-. split; [lia|]. by rewrite lookup_app_l. }
  destruct (vertices p) as [|v0 vs]; [done|]. cbn in H.
  injection H as <- <- <-. split; [lia|]. by rewrite lookup_app_l.
Qed.

Lemma wireframes_node_touch opts p nodes n p1 nodes1 m :
  wireframes_node opts p nodes = Ok (n, p1, nodes1) ->
  m < length nodes -> spriteNode p ≠ Some m ->
  n ≠ m /\ nodes1 !! m = nodes !! m.
Proof.
  unfold wireframes_node, create, first_vertex. intros H Hm Hne.
  destruct (spriteNode p) as [n0|] eqn:Hc.
  { injection H as <- <- <-. split; [congruence|].
    apply list_lookup_alter_ne. congruence. }
  destruct (vertices p) as [|v0 vs]; [done|]. cbn in H.
  injection H as <- <- <-. split; [lia|]. by rewrite lookup_app_l.
Qed.

(** a step on a part changes no node but the part's own *)
Lemma bodies_part_touch opts sl p nodes p' nodes' m :
  bodies_part opts sl p nodes = Ok (p', nodes') ->
  m < length nodes -> spriteNode p ≠ Some m -> nodes' !! m = nodes !! m.
Proof.
  unfold bodies_part. destruct (visible (p_render p)); simpl.
  2:{ by intros [= <- <-]. }
  destruct (bodies_node p nodes) as [[[n p1] nodes1]|e] eqn:Hn; [|done]. simpl.
  intros [= Hfade] Hm Hne.
  destruct (bodies_node_touch _ _ _ _ _ m Hn Hm Hne) as [Hnm Hl].
  apply (f_equal snd) in Hfade. simpl in Hfade.
  by rewrite <- Hfade, fade_other, apply_sprite_attrs_other.
Qed.

Lemma wireframes_part_touch opts sl p nodes p' nodes' m :
  wireframes_part opts sl p nodes = Ok (p', nodes') ->
  m < length nodes -> spriteNode p ≠ Some m -> nodes' !! m = nodes !! m.
Proof.
  unfold wireframes_part.
  destruct (wireframes_node opts p nodes) as [[[n p1] nodes1]|e] eqn:Hn; [|done]. simpl.
  intros [= Hfade] Hm Hne.
  destruct (wireframes_node_touch _ _ _ _ _ _ m Hn Hm Hne) as [Hnm Hl].
  apply (f_equal snd) in Hfade. simpl in Hfade.
  by rewrite <- Hfade, fade_other.
Qed.

Lemma each_part_touch step ps :
  (forall p nodes p' nodes', step p nodes = Ok (p', nodes') -> cache_step p nodes p' nodes') ->
  (forall p nodes p' nodes' m, step p nodes = Ok (p', nodes') ->
     m < length nodes -> spriteNode p ≠ Some m -> nodes' !! m = nodes !! m) ->
  forall nodes m, m < length nodes -> m ∉ omap spriteNode ps ->
    (each_part step ps nodes).1.2 !! m = nodes !! m.
Proof.
  intros Hc Ht. induction ps as [|p ps IH]; intros nodes m Hm Hin; [done|].
  simpl. destruct (step p nodes) as [[p' nodes']|e] eqn:Hp; [|done].
  assert (Hne : spriteNode p ≠ Some m).
  { intros Heq. apply Hin. simpl. rewrite Heq. simpl. apply elem_of_cons. by left. }
  assert (Hin' : m ∉ omap spriteNode ps).
  { intros H'. apply Hin. simpl. destruct (spriteNode p); simpl; [|done].
    apply elem_of_cons. by right. }
  assert (Hm' : m < length nodes').
  { destruct (Hc _ _ _ _ Hp) as [[_ Hl]|(_ & _ & Hl)]; lia. }
  specialize (IH nodes' m Hm' Hin').
  destruct (each_part step ps nodes') as [[ps' nodes''] err]. simpl in *.
  rewrite IH. by eapply Ht.
Qed.

Lemma body_step_touch part_step opts b nodes m :
  (forall sl p nodes p' nodes',
     part_step opts sl p nodes = Ok (p', nodes') -> cache_step p nodes p' nodes') ->
  (forall sl p nodes p' nodes' m, part_step opts sl p nodes = Ok (p', nodes') ->
     m < length nodes -> spriteNode p ≠ Some m -> nodes' !! m = nodes !! m) ->
  m < length nodes -> m ∉ cached_nodes b ->
  (body_step part_step opts b nodes).1.2 !! m = nodes !! m.
Proof.
  intros Hc Ht Hm Hin. unfold body_step. destruct (negb _); [done|].
  unfold each_drawn_part, cached_nodes, parts in *.
  destruct (others b) as [|q qs] eqn:Ho.
  - pose proof (each_part_touch (part_step opts (isSleeping (self b))) [self b]
                  (Hc _) (Ht _) nodes m Hm Hin) as H.
    by destruct (each_part _ [self b] nodes) as [[ps' nodes'] err].
  - assert (Hin' : m ∉ omap spriteNode (q :: qs)).
    { intros H'. apply Hin. simpl. destruct (spriteNode (self b)); [|done].
      apply elem_of_cons. by right. }
    pose proof (each_part_touch (part_step opts (isSleeping (self b))) (q :: qs)
                  (Hc _) (Ht _) nodes m Hm Hin') as H.
    by destruct (each_part _ (q :: qs) nodes) as [[ps' nodes'] err].
Qed.

Lemma hull_step_touch b nodes m :
  m < length nodes -> m ∉ cached_nodes b ->
  (hull_step b nodes).1.2 !! m = nodes !! m.
Proof.
  intros Hm Hin. unfold hull_step, create. destruct (_ || _); [done|].
  destruct (spriteNode (self b)) as [n|] eqn:Hc; simpl.
  { apply list_lookup_alter_ne. intros ->. apply Hin.
    unfold cached_nodes, parts. simpl. rewrite Hc. apply elem_of_cons. by left. }
  destruct (first_vertex (self b)); simpl; [|done].
  by rewrite lookup_app_l.
Qed.

(** in a sound cache the nodes of two bodies are apart *)
Lemma world_nodes_apart (bodies : gmap nat Body) i j b bj n :
  NoDup (world_nodes bodies) -> i ≠ j ->
  bodies !! i = Some b -> bodies !! j = Some bj ->
  n ∈ cached_nodes b -> n ∉ cached_nodes bj.
Proof.
  intros Hnd Hij Hi Hj Hn Hn'.
  destruct (world_nodes_insert bodies j bj bj Hj) as [H1 _].
  assert (Hi' : delete j bodies !! i = Some b) by by rewrite lookup_delete_ne.
  destruct (world_nodes_insert (delete j bodies) i b b Hi') as [H2 _].
  rewrite H1, H2 in Hnd. apply NoDup_app in Hnd as (_ & Hd & _).
  apply (Hd n Hn'). apply elem_of_app. by left.
Qed.

Lemma world_nodes_in (bodies : gmap nat Body) i b n :
  bodies !! i = Some b -> n ∈ cached_nodes b -> n ∈ world_nodes bodies.
Proof.
  intros Hi Hn. destruct (world_nodes_insert bodies i b b Hi) as [H1 _].
  rewrite H1. apply elem_of_app. by left.
Qed.

(** a pass that skips the body [i] leaves its nodes as they are *)
Lemma each_body_hidden step refs i b n :
  (forall nodes, step b nodes = done (b, nodes)) ->
  (forall b nodes (rest : list nat),
     fresh_below (length nodes) (cached_nodes b ++ rest) ->
     fresh_below (length (step b nodes).1.2) (cached_nodes (step b nodes).1.1 ++ rest)) ->
  (forall b nodes m, m < length nodes -> m ∉ cached_nodes b ->
     (step b nodes).1.2 !! m = nodes !! m) ->
  n ∈ cached_nodes b ->
  forall sc, cache_sound (sc_bodies sc) (sc_nodes sc) -> sc_bodies sc !! i = Some b ->
    sc_nodes (each_body step refs sc).1 !! n = sc_nodes sc !! n.
Proof.
  intros Hid Hsound Htouch Hn.
  induction refs as [|j refs IH]; intros sc Hs Hi; [done|]. simpl.
  destruct (sc_bodies sc !! j) as [bj|] eqn:Hj; [|by apply IH].
  destruct (decide (j = i)) as [->|Hne].
  - rewrite Hi in Hj. injection Hj as <-. rewrite Hid. cbn [done].
    rewrite IH; simpl; [done| |by rewrite lookup_insert_eq].
    by rewrite insert_id.
  - pose proof (Htouch bj (sc_nodes sc) n) as Ht.
    pose proof (Hsound bj (sc_nodes sc) (world_nodes (delete j (sc_bodies sc)))) as Hso.
    destruct (step bj (sc_nodes sc)) as [[b' nodes] err]. cbn [fst snd] in *.
    destruct Hs as [Hnd Hlt].
    assert (Hk : nodes !! n = sc_nodes sc !! n).
    { apply Ht.
      - rewrite Forall_forall in Hlt. apply Hlt. by apply (world_nodes_in _ i b).
      - by apply (world_nodes_apart (sc_bodies sc) i j b). }
    destruct (world_nodes_insert (sc_bodies sc) j bj b' Hj) as [H1 H2].
    assert (Hs' : cache_sound (<[j := b']> (sc_bodies sc)) nodes).
    { unfold cache_sound in *. apply (fresh_below_perm _ _ _ (symmetry H2)).
      apply Hso. by apply (fresh_below_perm _ _ _ H1). }
    destruct err as [e|]; [done|].
    rewrite IH; simpl; [done|done|by rewrite lookup_insert_ne].
Qed.

Lemma left_alone_refl i b n r : left_alone i b n r r.
Proof. by intros ? ?. Qed.

Lemma left_alone_trans i b n (r1 r2 r3 : Render) :
  left_alone i b n r1 r2 -> left_alone i b n r2 r3 -> left_alone i b n r1 r3.
Proof.
  intros H12 H23 Hc Hb. destruct (H12 Hc Hb) as (Hc2 & Hb2 & Hn2).
  destruct (H23 Hc2 Hb2) as (Hc3 & Hb3 & Hn3). by rewrite Hn3.
Qed.

Lemma left_alone_eq i b n r r' :
  engine r' = engine r -> l_nodes (layer r') = l_nodes (layer r) -> left_alone i b n r r'.
Proof.
  intros He Hl Hc Hb. split_and!.
  - by apply (cache_ok_eq r).
  - by apply (body_is_eq i b r).
  - by rewrite Hl.
Qed.

Lemma pass_now_left_alone f i b n :
  (forall sc, cache_sound (sc_bodies sc) (sc_nodes sc) -> sc_bodies sc !! i = Some b ->
     cache_sound (sc_bodies (f sc).1) (sc_nodes (f sc).1)
     /\ sc_bodies (f sc).1 !! i = Some b
     /\ sc_nodes (f sc).1 !! n = sc_nodes sc !! n) ->
  forall s, left_alone i b n s (pass_now f s).1.
Proof.
  intros Hf s Hc (e & He & Hb).
  unfold pass_now, with_engine, pass, cache_ok, body_is in *. rewrite He in *.
  destruct (Hf (scene_of e s) Hc Hb) as (H1 & H2 & H3).
  destruct (f (scene_of e s)) as [sc err]. cbn [fst snd] in *.
  split_and!; [done| |done]. eexists. split; [reflexivity|done].
Qed.

Lemma each_body_left_alone step refs i b n :
  (forall nodes, step b nodes = done (b, nodes)) ->
  (forall b nodes (rest : list nat),
     fresh_below (length nodes) (cached_nodes b ++ rest) ->
     fresh_below (length (step b nodes).1.2) (cached_nodes (step b nodes).1.1 ++ rest)) ->
  (forall b nodes m, m < length nodes -> m ∉ cached_nodes b ->
     (step b nodes).1.2 !! m = nodes !! m) ->
  n ∈ cached_nodes b ->
  forall sc, cache_sound (sc_bodies sc) (sc_nodes sc) -> sc_bodies sc !! i = Some b ->
    cache_sound (sc_bodies (each_body step refs sc).1) (sc_nodes (each_body step refs sc).1)
    /\ sc_bodies (each_body step refs sc).1 !! i = Some b
    /\ sc_nodes (each_body step refs sc).1 !! n = sc_nodes sc !! n.
Proof.
  intros Hid Hsound Htouch Hn sc Hs Hi. split_and!.
  - by apply each_body_sound.
  - by apply each_body_fixed.
  - by apply (each_body_hidden step refs i b).
Qed.

(** X22. A hidden body is left alone. A body whose [render.visible]
    is false is, after a frame, the object it was: no pass makes a node
    for it, updates its cache or fades it, in either mode and with the
    hulls on or off. No node is taken off the layer. And when the cache
    is sound, every node the body or one of its parts refers to is,
    after the frame, exactly the node it was, in its pose, its opacity
    and every other attribute: the node stays on the layer as the last
    frame that drew the body left it, and the renderer does not hide
    it. *)
Theorem hidden_body_is_left_alone r e i b :
  engine r = Some e -> e_bodies e !! i = Some b ->
  visible (p_render (self b)) = false ->
  body_is i b (Render_world r).1
  /\ keeps_nodes (l_nodes (layer r)) (l_nodes (layer (Render_world r).1))
  /\ (cache_ok r -> forall n, n ∈ cached_nodes b ->
        l_nodes (layer (Render_world r).1) !! n = l_nodes (layer r) !! n).
Proof.
  intros He Hb Hv.
  assert (H0 : body_is i b (begun r e)).
  { apply (body_is_eq i b r); [apply begun_fields|]. by exists e. }
  split; [|split; [apply Render_world_nodes_kept|]].
  { revert H0.
    apply (Render_world_keeps (fun s s' => body_is i b s -> body_is i b s') r e He).
    - done.
    - auto.
    - intros s. by apply body_is_eq.
    - intros s. by apply body_is_eq.
    - unfold frame_passes. repeat apply Forall_cons_2; try apply Forall_nil_2;
        apply pass_now_body_is; intros sc Hsc.
      + apply each_body_fixed; [|done]. intros nodes. unfold body_step. by rewrite Hv.
      + unfold Render_bodyConvexHulls. apply each_body_fixed; [|done].
        intros nodes. unfold hull_step. by rewrite Hv.
      + unfold Render_bodyWireframes. apply each_body_fixed; [|done].
        intros nodes. unfold body_step. by rewrite Hv.
    - intros bodies constraints ts s. apply body_is_eq. unfold schedule.
      by destruct (extraDraw s). }
  intros Hc n Hn.
  destruct (begun_fields r e) as (_ & Hbe & _ & Hbn & _).
  assert (Hcb : cache_ok (begun r e)) by by apply (cache_ok_eq r).
  rewrite <- Hbn.
  cut (left_alone i b n (begun r e) (Render_world r).1).
  { intros H. by destruct (H Hcb H0) as (_ & _ & ->). }
  apply (Render_world_keeps (left_alone i b n) r e He).
  - apply left_alone_refl.
  - apply left_alone_trans.
  - intros s. by apply left_alone_eq.
  - intros s. by apply left_alone_eq.
  - unfold frame_passes. repeat apply Forall_cons_2; try apply Forall_nil_2;
      apply pass_now_left_alone; intros sc Hs Hi.
    + apply each_body_left_alone; try done.
      * intros nodes. unfold body_step. by rewrite Hv.
      * intros b0 nodes rest. apply body_step_sound.
        intros sl. apply bodies_part_cache_step.
      * intros b0 nodes m. apply body_step_touch.
        -- intros sl. apply bodies_part_cache_step.
        -- intros sl. apply bodies_part_touch.
    + unfold Render_bodyConvexHulls.
      apply (fun H1 H2 H3 =>
               each_body_left_alone hull_step _ i b n H1 H2 H3 Hn (begin_path sc) Hs Hi).
      * intros nodes. unfold hull_step. by rewrite Hv.
      * intros b0 nodes rest. apply hull_step_sound.
      * intros b0 nodes m. apply hull_step_touch.
    + unfold Render_bodyWireframes.
      apply (fun H1 H2 H3 =>
               each_body_left_alone (body_step wireframes_part _) _ i b n
                 H1 H2 H3 Hn (begin_path sc) Hs Hi).
      * intros nodes. unfold body_step. by rewrite Hv.
      * intros b0 nodes rest. apply body_step_sound.
        intros sl. apply wireframes_part_cache_step.
      * intros b0 nodes m. apply body_step_touch.
        -- intros sl. apply wireframes_part_cache_step.
        -- intros sl. apply wireframes_part_touch.
  - intros bodies constraints ts s. apply left_alone_eq; unfold schedule;
      by destruct (extraDraw s).
Qed.

(** the body drawn at (5, 5), moved and hidden: a frame leaves its node
    where it was, and makes no other *)
Lemma hidden_body_is_left_alone_witness :
  l_nodes (layer hidden_world) !! 0 = Some (posed_node KPath 5 5 0 None)
  /\ l_nodes (layer (Render_world hidden_world).1) !! 0
     = Some (posed_node KPath 5 5 0 None)
  /\ body_is 1 (hidden (mkBody (set_spriteNode 0 (polygon_at 50 60 0)) []))
       (Render_world hidden_world).1.
Proof.
  assert (Hc : cache_ok hidden_world).
  { split; vm_compute; repeat constructor. intros H. inversion H. }
  destruct (hidden_body_is_left_alone hidden_world
              (Frame.set_e_bodies
                 {[ 1 := hidden (mkBody (set_spriteNode 0 (polygon_at 50 60 0)) []) ]}
                 demo_engine)
              1 (hidden (mkBody (set_spriteNode 0 (polygon_at 50 60 0)) []))
              eq_refl eq_refl eq_refl) as (Hb & _ & Hn).
  split; [reflexivity|]. split; [|exact Hb].
  rewrite (Hn Hc 0); [reflexivity|]. apply elem_of_cons. by left.
Defined.

Lemma viewed_fields r e :
  engine (viewed r e) = engine r
  /\ l_nodes (layer (viewed r e)) = l_nodes (layer r).
Proof. unfold viewed, begun. by destruct (flag _ _), (bool_decide _). Qed.

Lemma frame_main_no_hulls r bodies s :
  no_hulls r ->
  frame_main (options r) bodies s
  = pass_now (body_pass (wire_mode r) (options r) bodies) s.
Proof.
  unfold no_hulls, wire_mode, frame_main. intros Hh.
  destruct (flag (options r) "wireframes"); [|done]. cbn in Hh. rewrite Hh. cbn.
  by destruct (pass_now _ s) as [s1 [err|]].
Qed.

(** a frame whose only pass is the pass over the bodies *)
Lemma frame_of_one_pass r e cs :
  engine r = Some e -> frame_constraints r e = Ok cs -> no_hulls r ->
  let res := body_pass (wire_mode r) (options r) (frame_bodies r e)
               (scene_of e (viewed r e)) in
  (Render_world r).2 = res.2
  /\ l_nodes (layer (Render_world r).1) = sc_nodes res.1.
Proof.
  intros He Hcs Hh. cbn zeta. rewrite (Render_world_unfold r e He), Hcs.
  cbn [block and_then]. rewrite (frame_main_no_hulls r _ _ Hh).
  unfold pass_now, with_engine, pass.
  destruct (viewed_fields r e) as [Hve _]. rewrite Hve, He.
  destruct (body_pass _ _ _ _) as [sc [err|]]; cbn [and_then fst snd]; [done|].
  split; [done|]. cbn. unfold schedule. by destruct (extraDraw _).
Qed.

(** X23. The first frame of a world. When the culling returns, the
    hull pass is off, no body is twice in the world's list and none of
    the bodies in view has been drawn (each of their parts having a
    vertex), [Render.world] returns and the layer grows by one node for
    each part the mode draws of the visible bodies in view: nothing is
    made for a body out of view or for a hidden one. *)
Theorem first_frame_node_count r e cs :
  engine r = Some e -> frame_constraints r e = Ok cs -> no_hulls r ->
  NoDup (frame_bodies r e) ->
  (forall i b, i ∈ frame_bodies r e -> e_bodies e !! i = Some b -> fresh_body b) ->
  (Render_world r).2 = None
  /\ length (l_nodes (layer (Render_world r).1))
     = length (l_nodes (layer r))
       + sum_list_with (fun i => from_option (nodes_due (wire_mode r)) 0 (e_bodies e !! i))
           (frame_bodies r e).
Proof.
  intros He Hcs Hh Hnd Hfresh.
  destruct (frame_of_one_pass r e cs He Hcs Hh) as [Herr Hnodes].
  rewrite body_pass_unfold in Herr, Hnodes.
  destruct (fresh_bodies_pass (wire_mode r) (options r) (frame_bodies r e)
              (if wire_mode r then begin_path (scene_of e (viewed r e))
               else scene_of e (viewed r e)) Hnd) as (sc' & Hsc' & Hl).
  { by destruct (wire_mode r). }
  rewrite Hsc' in Herr, Hnodes. cbn [fst snd done] in *.
  split; [done|]. rewrite Hnodes, Hl.
  destruct (viewed_fields r e) as [_ Hvn].
  destruct (wire_mode r); cbn; by rewrite Hvn.
Qed.

(** the world of two bodies, one far off: the clipped frame makes one
    node, the frame without bounds two *)
Lemma first_frame_node_count_witness :
  length (l_nodes (layer (Render_world (render_800x600 (Some far_bodies) None clipped)).1))
    = 1
  /\ length (l_nodes (layer (Render_world (render_800x600 (Some far_bodies) None ∅)).1)) = 2.
Proof.
  assert (Hfresh : forall i b, i ∈ [1; 2] -> e_bodies far_bodies !! i = Some b ->
                               fresh_body b).
  { intros i b Hi Hb.
    repeat (apply elem_of_cons in Hi as [->|Hi]); [..|by apply elem_of_nil in Hi];
      vm_compute in Hb; injection Hb as <-; repeat constructor; done. }
  assert (Hnd : NoDup [1; 2]).
  { apply NoDup_cons. split; [|apply NoDup_singleton].
    intros H. apply elem_of_cons in H as [H|H]; [discriminate H|by apply elem_of_nil in H]. }
  split.
  - destruct (first_frame_node_count (render_800x600 (Some far_bodies) None clipped)
                far_bodies [] eq_refl eq_refl eq_refl) as [_ H].
    + apply NoDup_singleton.
    + intros i b Hi. apply Hfresh. apply elem_of_cons in Hi as [->|Hi];
        [apply elem_of_cons; by left|by apply elem_of_nil in Hi].
    + rewrite H. reflexivity.
  - assert (Hcs : frame_constraints (render_800x600 (Some far_bodies) None ∅) far_bodies
                  = Ok []) by (vm_compute; reflexivity).
    assert (Hh : no_hulls (render_800x600 (Some far_bodies) None ∅))
      by (vm_compute; reflexivity).
    destruct (first_frame_node_count (render_800x600 (Some far_bodies) None ∅)
                far_bodies [] eq_refl Hcs Hh Hnd Hfresh) as [_ H].
    rewrite H. reflexivity.
Defined.

(** X24. A steady frame adds nothing. When every part the mode draws
    of the bodies in view has its node and the hull pass is off, a frame
    leaves the number of nodes on the layer as it is, and returns
    whenever the culling does: a world in which no body appears or
    becomes visible costs no node, frame after frame. *)
Theorem steady_frame_adds_no_node r e :
  engine r = Some e -> no_hulls r ->
  all_settled (wire_mode r) (frame_bodies r e) (e_bodies e) ->
  length (l_nodes (layer (Render_world r).1)) = length (l_nodes (layer r))
  /\ (is_ok (frame_constraints r e) = true -> (Render_world r).2 = None).
Proof.
  intros He Hh Hset.
  destruct (frame_constraints r e) as [cs|err] eqn:Hcs.
  - destruct (frame_of_one_pass r e cs He Hcs Hh) as [Herr Hnodes].
    rewrite body_pass_unfold in Herr, Hnodes.
    destruct (each_body_cached (wire_mode r) _ (mode_caches (wire_mode r)) (options r)
                (frame_bodies r e)
                (if wire_mode r then begin_path (scene_of e (viewed r e))
                 else scene_of e (viewed r e))) as (sc3 & Hsc3 & Hl).
    { by destruct (wire_mode r). }
    rewrite Hsc3 in Herr, Hnodes. cbn [fst snd done] in *.
    split; [|done]. rewrite Hnodes, Hl.
    destruct (viewed_fields r e) as [_ Hvn].
    destruct (wire_mode r); cbn; by rewrite Hvn.
  - rewrite (Render_world_unfold r e He), Hcs. split; [|done]. cbn.
    by destruct (begun_fields r e) as (_ & _ & _ & -> & _).
Qed.

(** the demo world drawn once, then a second frame *)
Lemma steady_frame_adds_no_node_witness :
  let r1 := (Render_world (demo_render ∅)).1 in
  length (l_nodes (layer r1)) = 1
  /\ length (l_nodes (layer (Render_world r1).1)) = 1.
Proof.
  intros r1. split; [reflexivity|].
  destruct (engine r1) as [e1|] eqn:He1; [|vm_compute in He1; discriminate He1].
  destruct (steady_frame_adds_no_node r1 e1 He1) as [H _].
  - reflexivity.
  - vm_compute in He1. injection He1 as <-.
    intros i b Hi Hb Hv.
    apply elem_of_cons in Hi as [->|Hi]; [|by apply elem_of_nil in Hi].
    vm_compute in Hb. injection Hb as <-. repeat constructor. intros _. by eexists.
  - rewrite H. reflexivity.
Defined.

End FrameCounts.

(** ** What is drawn on the context *)

Section ContextFacts.
Import MainPass Frame.

Implicit Types (sc : Scene).

Lemma each_body_ctx step refs : forall sc, sc_ctx (each_body step refs sc).1 = sc_ctx sc.
Proof.
  induction refs as [|i refs IH]; intros sc; [done|]. simpl.
  destruct (sc_bodies sc !! i) as [b|]; [|apply IH].
  destruct (step b (sc_nodes sc)) as [[b' nodes] [e|]]; [done|].
  by rewrite IH.
Qed.

Lemma pass_now_ctx f s (more : list CanvasOp) :
  (forall sc, sc_ctx (f sc).1 = sc_ctx sc ++ more) ->
  context (pass_now f s).1
  = context s ++ match engine s with Some _ => more | None => [] end.
Proof.
  intros Hf. unfold pass_now, with_engine, pass.
  destruct (engine s) as [e|]; [|by rewrite (right_id_L [] (++))].
  specialize (Hf (scene_of e s)). by destruct (f (scene_of e s)).
Qed.

Lemma pass_now_engine f s : is_Some (engine s) -> is_Some (engine (pass_now f s).1).
Proof.
  intros [e He]. unfold pass_now, with_engine, pass. rewrite He.
  destruct (f (scene_of e s)). by eexists.
Qed.

(** X25. What a frame draws on the 2d context. [Render.world] makes
    no drawing call for the bodies, which are nodes of the layer: on the
    context it applies the view transform, under [hasBounds] and once the
    culling has returned ([scale], then [translate]), and after that
    calls [beginPath] at most twice, once for the hull pass and once for
    the wireframe pass when they run, and nothing else; [Render.bodies]
    makes no call at all. The transform is not reverted by the frame:
    [setTransform] belongs to the callback. *)
Theorem frame_context_calls r e :
  engine r = Some e ->
  exists k, k <= 2
    /\ context (Render_world r).1 = context r ++ view_calls r e ++ replicate k BeginPath
    /\ (wire_mode r = false -> k = 0)
    /\ (flag (options r) "hasBounds" = true -> is_ok (frame_constraints r e) = true ->
        exists sx sy,
          view_calls r e
          = [Scale sx sy; Translate (- vx (bmin (bounds r))) (- vy (bmin (bounds r)))]).
Proof.
  intros He. rewrite (Render_world_unfold r e He).
  assert (Hview : is_ok (frame_constraints r e) = true ->
    context (viewed r e) = context r ++ view_calls r e /\ is_Some (engine (viewed r e))).
  { intros Hok. unfold viewed, view_calls, begun. rewrite Hok, andb_true_r.
    destruct (flag (options r) "hasBounds"), (bool_decide _);
      cbn; rewrite ?drop_app_length, ?(right_id_L [] (++)), He; by eauto. }
  assert (Hcalls : flag (options r) "hasBounds" = true ->
    is_ok (frame_constraints r e) = true ->
    exists sx sy,
      view_calls r e
      = [Scale sx sy; Translate (- vx (bmin (bounds r))) (- vy (bmin (bounds r)))]).
  { intros Hb Hok. unfold view_calls. rewrite Hb, Hok. cbn.
    rewrite drop_app_length. by eexists _, _. }
  destruct (frame_constraints r e) as [cs|err] eqn:Hcs.
  2:{ exists 0. split; [lia|]. split; [|split; [done|by intros _ ?]].
      unfold view_calls. rewrite Hcs, andb_false_r. cbn.
      destruct (begun_fields r e) as (_ & _ & _ & _ & _ & ->).
      by rewrite (right_id_L [] (++)). }
  destruct (Hview eq_refl) as [Hctx Heng]. cbn [block and_then].
  assert (Hmain : exists k, k <= 2
    /\ context (frame_main (options r) (frame_bodies r e) (viewed r e)).1
       = context (viewed r e) ++ replicate k BeginPath
    /\ (wire_mode r = false -> k = 0)).
  { unfold frame_main, wire_mode.
    destruct (flag (options r) "wireframes"); cbn [negb].
    - assert (Hw : forall s, is_Some (engine s) ->
        context (pass_now (Render_bodyWireframes (options r) (frame_bodies r e)) s).1
        = context s ++ [BeginPath]).
      { intros s [e0 He0].
        rewrite (pass_now_ctx _ s [BeginPath]); [by rewrite He0|].
        intros sc. unfold Render_bodyWireframes. by rewrite each_body_ctx. }
      assert (Hh : forall s, is_Some (engine s) ->
        context (pass_now (Render_bodyConvexHulls (frame_bodies r e)) s).1
        = context s ++ [BeginPath]).
      { intros s [e0 He0].
        rewrite (pass_now_ctx _ s [BeginPath]); [by rewrite He0|].
        intros sc. unfold Render_bodyConvexHulls. by rewrite each_body_ctx. }
      cbn [block and_then]. unfold when.
      destruct (flag (options r) "showConvexHulls").
      + pose proof (Hh (viewed r e) Heng) as H1.
        pose proof (pass_now_engine (Render_bodyConvexHulls (frame_bodies r e))
                      (viewed r e) Heng) as He1.
        destruct (pass_now (Render_bodyConvexHulls _) (viewed r e)) as [s1 [err|]];
          cbn [fst snd and_then] in *.
        * exists 1. split; [lia|]. split; [done|]. done.
        * pose proof (Hw s1 He1) as H2.
          destruct (pass_now (Render_bodyWireframes _ _) s1) as [s2 [err|]];
            cbn [fst snd and_then done] in *.
          all: exists 2; split; [lia|]; split; [|done].
          all: by rewrite H2, H1, <- (assoc_L (++)).
      + cbn [done and_then]. pose proof (Hw (viewed r e) Heng) as H2.
        destruct (pass_now (Render_bodyWireframes _ _) (viewed r e)) as [s2 [err|]];
          cbn [fst snd and_then done] in *.
        all: exists 1; split; [lia|]; split; [|done]; done.
    - exists 0. split; [lia|]. split; [|done].
      destruct Heng as [e0 He0].
      rewrite (pass_now_ctx _ _ []); [by rewrite He0|].
      intros sc. unfold Render_bodies. by rewrite each_body_ctx, (right_id_L [] (++)). }
  destruct Hmain as (k & Hk & Hmain & Hk0).
  exists k. split; [done|]. split; [|split; [done|]].
  - destruct (frame_main (options r) (frame_bodies r e) (viewed r e)) as [rm [err|]];
      cbn [fst snd and_then done] in *.
    + by rewrite Hmain, Hctx, <- (assoc_L (++)).
    + assert (Hs : context (schedule (frame_bodies r e) cs (timestamp e) rm) = context rm).
      { unfold schedule. by destruct (extraDraw rm). }
      by rewrite Hs, Hmain, Hctx, <- (assoc_L (++)).
  - intros Hb _. by apply Hcalls.
Qed.

(** a clipped frame in wireframe mode on an 800 by 600 canvas *)
Lemma frame_context_calls_witness :
  let r := render_800x600 (Some far_bodies) None
             ({[ "width" := VNum 800; "height" := VNum 600 ]} ∪ clipped) in
  exists k, k <= 2
    /\ context (Render_world r).1
       = [Scale 1 1; Translate (-0) (-0)]%float ++ replicate k BeginPath.
Proof.
  intros r.
  destruct (frame_context_calls r far_bodies eq_refl) as (k & Hk & H1 & _ & _).
  exists k. split; [exact Hk|]. rewrite H1. reflexivity.
Defined.

Lemma when_off (c : bool) (m : Render -> Res Render) r : c = false -> when c m r = done r.
Proof. by intros ->. Qed.

Lemma block_ext_on {S : Type} (P : S -> Prop) (a b : list (S -> Res S)) :
  Forall2 (fun f g => forall s, P s -> f s = g s /\ P (f s).1) a b ->
  forall s, P s -> block a s = block b s.
Proof.
  induction 1 as [|f g a b Hfg _ IH]; intros s Hs; [done|]. simpl.
  destruct (Hfg s Hs) as [<- HP]. destruct (f s) as [s1 [e|]]; simpl in *; [done|].
  by apply IH.
Qed.

Lemma overlays_off_eq r r' : options r' = options r -> overlays_off r -> overlays_off r'.
Proof. unfold overlays_off. by intros ->. Qed.

(** X26. An overlay that is switched off is not called. When none of
    the options [showBounds], [showAxes], [showAngleIndicator],
    [showPositions], [showVelocity], [showIds], [showSeparations],
    [showCollisions], [showVertexNumbers], [showBroadphase] and
    [showDebug] is set at the time of the signal, the callback does not
    depend on what these overlay renderers would do: it draws the mouse
    position if asked, the constraints of its frame, reverts the view
    transform and finishes, whatever the options were when the frame
    scheduled it. *)
Theorem overlays_off_are_not_called ov ov' h r :
  overlays_off r -> run_extraDraw ov h r = run_extraDraw ov' h r.
Proof.
  intros Hoff. unfold run_extraDraw. rewrite !block_app.
  rewrite (block_ext_on overlays_off (overlays ov h) (overlays ov' h)); [done| |done].
  unfold overlays. repeat apply Forall2_cons_2; try apply Forall2_nil_2.
  all: intros s Hs; pose proof Hs as Hs'; unfold overlays_off, overlay_flags in Hs'.
  all: repeat (apply Forall_cons in Hs' as [? Hs']).
  all: rewrite ?when_off by (by rewrite ?orb_false_iff).
  all: split; [done|]; try done.
  - unfold when, draw_on. destruct (flag (options s) "showMousePosition"); [|done].
    destruct (Render_mousePosition (mouse s) (context s)). by apply (overlays_off_eq s).
  - unfold with_engine, draw_on. destruct (engine s); [|done].
    destruct (Constraints.Render_constraints _ _ _). by apply (overlays_off_eq s).
Qed.

(** a renderer with the default options: overlays that would all fault
    do no harm *)
Lemma overlays_off_are_not_called_witness :
  run_extraDraw faulty (mkHandler 0 [1] [1] 1000) (demo_render ∅)
  = run_extraDraw silent (mkHandler 0 [1] [1] 1000) (demo_render ∅).
Proof.
  apply overlays_off_are_not_called.
  unfold overlays_off, overlay_flags.
  repeat (apply Forall_cons_2; [vm_compute; reflexivity|]). apply Forall_nil_2.
Defined.

End ContextFacts.
